(** * Sleep diary: the standard format's derivation pass and analytics

    A shallow embedding of [src/Standard/engine.js] (class [DiaryStandard]):
    the constructor's derivation pass over the record list, the statistics
    routine [summarise] and its callers, and [latest_sleep_status].

    Conventions of the embedding.
    - A JavaScript number that holds a timestamp, a duration or a day length
      is an integer ([Z]); statistics are exact rationals ([Q]), so [+], [-],
      [/] and [<] are the mathematical ones (no rounding).
    - A property that may be absent (or hold [undefined]) is an [option];
      [NaN], which the code only produces from arithmetic on [undefined], is
      [None] as well: every test the code applies to it ([<], [>], [||],
      [isNaN]) treats both alike.  A [null] is told from [undefined] where
      the code reads the two differently: in [start] and [end] of a record
      of the file ([ContentsRecord]).
    - The only comparison whose outcome can depend on rounding alone, that
      of two equal standard deviations, is left open ([deviation_lt]).
    - What the environment provides (the calendar provider, the system
      time zone) is a parameter; a provider that throws is a partial
      function.
    - A record object of [this.records] is addressed by its index in the
      list; a variable that holds a reference to a record ([day_sleeps[n]],
      [sleep_wake_record]) holds that index. *)

From Stdlib Require Import ZArith QArith Qround Lia Lqa List Permutation Sorted.
From stdpp Require Import base option list gmap strings numbers.
From stdpp Require pretty.
From Stdlib Require Qpower.

Local Close Scope Q_scope.
Local Open Scope nat_scope.

(** ** JavaScript primitives used by the engine *)

Module JS.

(** [a - b] on numbers that may be [undefined]: [NaN] when either is. *)
Definition sub (a b : option Z) : option Z :=
  match a, b with
  | Some x, Some y => Some (x - y)%Z
  | _, _ => None
  end.

(** [a + b] where [b] is a number. *)
Definition add (a : option Z) (b : Z) : option Z :=
  match a with
  | Some x => Some (x + b)%Z
  | None => None
  end.

(** [a > b]: false as soon as one side is [undefined] or [NaN]. *)
Definition gt (a b : option Z) : bool :=
  match a, b with
  | Some x, Some y => bool_decide (y < x)%Z
  | _, _ => false
  end.

(** Truthiness of a number: [0], [NaN] and [undefined] are falsy. *)
Definition truthy (a : option Z) : bool :=
  match a with
  | Some x => bool_decide (x ≠ 0%Z)
  | None => false
  end.

(** [a || b] on numbers. *)
Definition or (a b : option Z) : option Z :=
  if truthy a then a else b.

(** [a || d] where [d] is a default number. *)
Definition or_default (a : option Z) (d : Z) : Z :=
  match a with
  | Some x => if bool_decide (x ≠ 0%Z) then x else d
  | None => d
  end.

(** Truthiness of an optional boolean property. *)
Definition is_true (a : option bool) : bool :=
  match a with
  | Some b => b
  | None => false
  end.

(** The sign test [Array.prototype.sort] applies to the comparator's
    result [v]: [v > 0] puts the second argument first; [NaN] counts as
    [+0]. *)
Definition positive (v : option Z) : bool :=
  match v with
  | Some x => bool_decide (0 < x)%Z
  | None => false
  end.

Section Sort.
Context {A : Type}.
(** [after x y] is [comparefn(x, y) > 0]. *)
Variable after : A → A → bool.

Fixpoint sort_insert (x : A) (l : list A) : list A :=
  match l with
  | [] => [x]
  | y :: l' => if after x y then y :: sort_insert x l' else x :: l
  end.

(** [Array.prototype.sort(comparefn)].  The language standard requires a
    stable sort, so for a consistent comparator the result is determined,
    whatever the algorithm, and it is the one below ([sort_determined]).
    When the comparator is not consistent (the comparators of the engine
    return [NaN] for records without timestamps) the standard leaves the
    order to the implementation; the embedding then keeps the order a
    stable insertion sort produces, which need not be the order of a
    given engine: a property that depends on the order of such records
    is stated for records on which the comparator is consistent. *)
Definition sort (l : list A) : list A := foldr sort_insert [] l.
End Sort.

(** [Math.round]: the nearest integer, halves rounded up. *)
Definition Math_round (q : Q) : Z := Qfloor (q + (1 # 2))%Q.

(** [Math.floor]. *)
Definition Math_floor (q : Q) : Z := Qfloor q.

(** [Math.max] on array indices. *)
Definition Math_max (a b : Z) : Z := Z.max a b.

(** [arr.slice(from, to)] for [0 <= from]; a [to] before [from] gives the
    empty array.  Holes of a sparse array are kept. *)
Definition slice {A} (from to : Z) (l : list A) : list A :=
  take (Z.to_nat to - Z.to_nat from) (drop (Z.to_nat from) l).

(** [arr[i] = v] on a sparse array.  An element of the list is [None]
    for a hole (and for an element that holds [undefined], where the code
    does not tell them apart); writing past the end extends the array
    with holes. *)
Definition array_put {A} (i : nat) (v : option A) (l : list (option A))
  : list (option A) :=
  if decide (i < length l) then <[i := v]> l
  else l ++ replicate (i - length l) None ++ [v].

(** [x < y] and [x > y] on numbers. *)
Definition lt_num (x y : Q) : bool := negb (Qle_bool y x).
Definition gt_num (x y : Q) : bool := lt_num y x.

(** The integer part of a number (rounding towards zero). *)
Definition trunc (q : Q) : Z :=
  if lt_num q 0 then Qceiling q else Qfloor q.

(** [a % b]: the remainder has the sign of the dividend. *)
Definition rem (a b : Q) : Q := (a - b * inject_Z (trunc (a / b)))%Q.

(** Outcome of a call: a value, or a thrown exception. *)
Inductive completion (A : Type) : Type :=
| Normal (a : A)
| Throw.
Global Arguments Normal {A} a.
Global Arguments Throw {A}.

(** [arr.reduce((a,b) => a+b)] without an initial value: a [TypeError] on
    an empty array. *)
Definition reduce_a_plus_b (l : list Q) : completion Q :=
  match l with
  | [] => Throw
  | x :: l' => Normal (foldl Qplus x l')
  end.

End JS.

(** ** Data model *)

(** An element of [comments]: a plain string or a [{time, text}] pair. *)
Inductive comment : Type :=
| CommentText (text : string)
| CommentTimed (time : Z) (text : string).

(** The [comments] property: normally an array, but a single comment is
    accepted and wrapped by the constructor. *)
Inductive comments_value : Type :=
| CommentsSingle (c : comment)
| CommentsArray (cs : list comment).

(** [DiaryStandardRecord]; [end_] is the property [end].  Times are
    integers (milliseconds); [day_number] is used as an array index and is
    a non-negative integer.  For [duration] and the four derived
    properties, which the constructor tests with [hasOwnProperty], [None]
    is the property the object lacks; an own property that holds
    [undefined] is not part of the embedding. *)
Record DiaryStandardRecord : Type := mkRecord {
  status : string;
  start : option Z;
  end_ : option Z;
  start_timezone : option string;
  end_timezone : option string;
  duration : option Z;
  tags : option (list string);
  comments : option comments_value;
  day_number : option N;
  start_of_new_day : option bool;
  is_primary_sleep : option bool;
  missing_record_after : option bool;
}.

Global Instance comment_eq_dec : EqDecision comment.
Proof. solve_decision. Defined.
Global Instance comments_value_eq_dec : EqDecision comments_value.
Proof. solve_decision. Defined.
Global Instance DiaryStandardRecord_eq_dec : EqDecision DiaryStandardRecord.
Proof. solve_decision. Defined.

Definition set_duration (v : option Z) (r : DiaryStandardRecord) : DiaryStandardRecord :=
  mkRecord (status r) (start r) (end_ r) (start_timezone r) (end_timezone r)
    v (tags r) (comments r) (day_number r) (start_of_new_day r)
    (is_primary_sleep r) (missing_record_after r).

Definition set_tags (v : option (list string)) (r : DiaryStandardRecord) : DiaryStandardRecord :=
  mkRecord (status r) (start r) (end_ r) (start_timezone r) (end_timezone r)
    (duration r) v (comments r) (day_number r) (start_of_new_day r)
    (is_primary_sleep r) (missing_record_after r).

Definition set_comments (v : option comments_value) (r : DiaryStandardRecord) : DiaryStandardRecord :=
  mkRecord (status r) (start r) (end_ r) (start_timezone r) (end_timezone r)
    (duration r) (tags r) v (day_number r) (start_of_new_day r)
    (is_primary_sleep r) (missing_record_after r).

Definition set_day_number (v : option N) (r : DiaryStandardRecord) : DiaryStandardRecord :=
  mkRecord (status r) (start r) (end_ r) (start_timezone r) (end_timezone r)
    (duration r) (tags r) (comments r) v (start_of_new_day r)
    (is_primary_sleep r) (missing_record_after r).

Definition set_start_of_new_day (v : option bool) (r : DiaryStandardRecord) : DiaryStandardRecord :=
  mkRecord (status r) (start r) (end_ r) (start_timezone r) (end_timezone r)
    (duration r) (tags r) (comments r) (day_number r) v
    (is_primary_sleep r) (missing_record_after r).

Definition set_is_primary_sleep (v : option bool) (r : DiaryStandardRecord) : DiaryStandardRecord :=
  mkRecord (status r) (start r) (end_ r) (start_timezone r) (end_timezone r)
    (duration r) (tags r) (comments r) (day_number r) (start_of_new_day r)
    v (missing_record_after r).

Definition set_missing_record_after (v : option bool) (r : DiaryStandardRecord) : DiaryStandardRecord :=
  mkRecord (status r) (start r) (end_ r) (start_timezone r) (end_timezone r)
    (duration r) (tags r) (comments r) (day_number r) (start_of_new_day r)
    (is_primary_sleep r) v.

(** [r.status == "asleep"] and [r.status == "awake" || r.status == "asleep"]. *)
Definition is_asleep (r : DiaryStandardRecord) : bool :=
  bool_decide (status r = "asleep").

Definition is_sleep_wake (r : DiaryStandardRecord) : bool :=
  bool_decide (status r = "awake") || bool_decide (status r = "asleep").

(** The [settings] member, after the constructor filled in the defaults. *)
Record DiaryStandardSettings : Type := mkSettings {
  minimum_day_duration : Z;
  maximum_day_duration : Z;
}.

(** The settings as found in the file: either may be missing. *)
Record FileSettings : Type := mkFileSettings {
  file_minimum_day_duration : option Z;
  file_maximum_day_duration : option Z;
}.

(** A [DiaryStandard] object: the members the engine computes with. *)
Record DiaryStandard : Type := mkDiary {
  records : list DiaryStandardRecord;
  settings : DiaryStandardSettings;
}.

(** ** The derivation pass (constructor, [records.forEach] and [day_sleeps.forEach]) *)

(** The comparator of the constructor's sort:
    [(a.start - b.start) || (a.end - b.end)]. *)
Definition compare_start_end (a b : DiaryStandardRecord) : option Z :=
  JS.or (JS.sub (start a) (start b)) (JS.sub (end_ a) (end_ b)).

(** [(r.comments||[]).length]: the length of an array or of a string;
    a [{time, text}] object has no [length]. *)
Definition comments_length (c : option comments_value) : nat :=
  match c with
  | None => 0
  | Some (CommentsSingle (CommentText s)) => String.length s
  | Some (CommentsSingle (CommentTimed _ _)) => 0
  | Some (CommentsArray cs) => length cs
  end.

(** [if ( !(r[key]||[]).length ) delete r[key]] for [tags] and [comments].
    The statement before it, [if ( r[key] == undefined ) delete r[key]]
    for [start] and [end], changes nothing on a record of the store, where
    the two are a number or absent; what it does to a [null] of the file
    is part of [new_DiaryStandard_contents]. *)
Definition delete_empty (r : DiaryStandardRecord) : DiaryStandardRecord :=
  let r := match tags r with
           | Some [] => set_tags None r
           | _ => r
           end in
  if decide (comments_length (comments r) = 0) then set_comments None r else r.

(** [if ( !r.hasOwnProperty("duration") ) { r.duration = r.end - r.start;
    if ( isNaN(r.duration) ) delete r.duration }]. *)
Definition default_duration (r : DiaryStandardRecord) : DiaryStandardRecord :=
  match duration r with
  | Some _ => r
  | None => set_duration (JS.sub (end_ r) (start r)) r
  end.

(** The [start_of_new_day] block: the record and the new [day_start]. *)
Definition derive_start_of_new_day (min_day : Z) (day_start : option Z)
    (r : DiaryStandardRecord) : DiaryStandardRecord * option Z :=
  match start_of_new_day r with
  | Some b => (r, if b then start r else day_start)
  | None =>
      (set_start_of_new_day
         (Some (is_asleep r && JS.gt (start r) (JS.add day_start min_day))) r,
       day_start)
  end.

(** The [day_number] block: the record, [day_start] and the counter. *)
Definition derive_day_number (max_day : Z) (day_start : option Z) (counter : N)
    (r : DiaryStandardRecord) : DiaryStandardRecord * (option Z * N) :=
  match day_number r with
  | Some d => (r, (day_start, d))
  | None =>
      if JS.is_true (start_of_new_day r) then
        let counter' :=
          if JS.gt (start r) (JS.add day_start max_day)
          then (counter + 2)%N else (counter + 1)%N in
        (set_day_number (Some counter') r, (start r, counter'))
      else (set_day_number (Some counter) r, (day_start, counter))
  end.

(** Lines 514-550 of the loop body: everything that reads and writes the
    current record and the two local variables [day_start] and
    [day_number] only. *)
Definition derive_fields (cfg : DiaryStandardSettings) (acc : option Z * N)
    (r : DiaryStandardRecord) : DiaryStandardRecord * (option Z * N) :=
  let r := default_duration (delete_empty r) in
  let '(r, day_start) := derive_start_of_new_day (minimum_day_duration cfg) acc.1 r in
  derive_day_number (maximum_day_duration cfg) day_start acc.2 r.

(** [sleep_wake_record.missing_record_after = (r.status == sleep_wake_record.status)]
    unless the property is already there. *)
Definition note_missing_record (r p : DiaryStandardRecord) : DiaryStandardRecord :=
  match missing_record_after p with
  | Some _ => p
  | None => set_missing_record_after (Some (bool_decide (status r = status p))) p
  end.

(** The [awake]/[asleep] block for record [i]: the store and the new
    [sleep_wake_record].  [None] is the placeholder object the variable is
    initialised with, which is not part of the store. *)
Definition track_sleep_wake (i : nat) (recs : list DiaryStandardRecord)
    (sleep_wake_record : option nat) : list DiaryStandardRecord * option nat :=
  match recs !! i with
  | Some r =>
      if is_sleep_wake r then
        (match sleep_wake_record with
         | Some j => alter (note_missing_record r) j recs
         | None => recs
         end, Some i)
      else (recs, sleep_wake_record)
  | None => (recs, sleep_wake_record)
  end.

(** [(best||{"duration":-Infinity})["duration"] < d]. *)
Definition duration_lt (best : option DiaryStandardRecord) (d : option Z) : bool :=
  match d with
  | None => false
  | Some x =>
      match best with
      | None => true
      | Some b =>
          match duration b with
          | Some y => bool_decide (y < x)%Z
          | None => false
          end
      end
  end.

(** The [asleep] block for record [i]: the new [day_sleeps]. *)
Definition track_day_sleeps (recs : list DiaryStandardRecord)
    (day_sleeps : gmap N nat) (i : nat) : gmap N nat :=
  match recs !! i with
  | Some r =>
      if is_asleep r then
        match day_number r with
        | Some d =>
            if duration_lt (day_sleeps !! d ≫= (recs !!.)) (duration r)
            then <[d := i]> day_sleeps else day_sleeps
        | None => day_sleeps
        end
      else day_sleeps
  | None => day_sleeps
  end.

(** The [comments] block: a value that is not an array is wrapped. *)
Definition wrap_comments (r : DiaryStandardRecord) : DiaryStandardRecord :=
  match comments r with
  | Some (CommentsSingle c) => set_comments (Some (CommentsArray [c])) r
  | _ => r
  end.

(** The variables the loop works on. *)
Record scan : Type := mkScan {
  sc_records : list DiaryStandardRecord;
  sc_day_start : option Z;
  sc_day_number : N;
  sc_day_sleeps : gmap N nat;
  sc_sleep_wake_record : option nat;
}.

Definition scan_init (recs : list DiaryStandardRecord) : scan :=
  mkScan recs (Some 0%Z) 0%N ∅ None.

(** One call of the [forEach] callback, on the record at index [i]. *)
Definition forEach_record (cfg : DiaryStandardSettings) (s : scan) (i : nat) : scan :=
  match sc_records s !! i with
  | None => s
  | Some r =>
      let '(r, (day_start, counter)) :=
        derive_fields cfg (sc_day_start s, sc_day_number s) r in
      let recs := <[i := r]> (sc_records s) in
      let '(recs, sleep_wake_record) :=
        track_sleep_wake i recs (sc_sleep_wake_record s) in
      let day_sleeps := track_day_sleeps recs (sc_day_sleeps s) i in
      let recs := alter wrap_comments i recs in
      mkScan recs day_start counter day_sleeps sleep_wake_record
  end.

(** The state after the callback ran on the first [k] records. *)
Definition scan_upto (cfg : DiaryStandardSettings) (recs : list DiaryStandardRecord)
    (k : nat) : scan :=
  foldl (forEach_record cfg) (scan_init recs) (seq 0 k).

(** [if ( r && !r.hasOwnProperty("is_primary_sleep") ) r.is_primary_sleep = true]. *)
Definition mark_primary_sleep (r : DiaryStandardRecord) : DiaryStandardRecord :=
  match is_primary_sleep r with
  | Some _ => r
  | None => set_is_primary_sleep (Some true) r
  end.

(** The elements of the array [day_sleeps].  [day_sleeps[n] = r] makes an
    element for an array index [n], a number below [2^32 - 1]; for a
    larger number it makes an ordinary property, which
    [day_sleeps[n]] reads like an element but [forEach] does not
    visit. *)
Definition array_elements (day_sleeps : gmap N nat) : gmap N nat :=
  filter (λ entry, (entry.1 < 4294967295)%N) day_sleeps.

(** [day_sleeps.forEach]: every record an element of [day_sleeps] refers
    to is marked.  The entries refer to different records, so the order of
    the visits does not matter. *)
Definition mark_day_sleeps (day_sleeps : gmap N nat)
    (recs : list DiaryStandardRecord) : list DiaryStandardRecord :=
  foldr (λ entry acc, alter mark_primary_sleep entry.2 acc) recs
        (map_to_list (array_elements day_sleeps)).

(** The settings with their defaults:
    [settings.minimum_day_duration || 16*60*60*1000] and
    [settings.maximum_day_duration || minimum_day_duration*2]. *)
Definition default_settings (f : FileSettings) : DiaryStandardSettings :=
  let minimum := JS.or_default (file_minimum_day_duration f) (16 * 60 * 60 * 1000)%Z in
  mkSettings minimum (JS.or_default (file_maximum_day_duration f) (minimum * 2)%Z).

(** [comparefn(a, b) > 0] for the comparator of the constructor's sort. *)
Definition start_end_after (a b : DiaryStandardRecord) : bool :=
  JS.positive (compare_start_end a b).

(** The sorted copy of the records the constructor starts from. *)
Definition sorted_records (contents_records : list DiaryStandardRecord)
  : list DiaryStandardRecord :=
  JS.sort start_end_after contents_records.

(** [new DiaryStandard({records, settings})], for records whose [start]
    and [end] are numbers or absent. *)
Definition new_DiaryStandard (contents_records : list DiaryStandardRecord)
    (contents_settings : FileSettings) : DiaryStandard :=
  let cfg := default_settings contents_settings in
  let recs := sorted_records contents_records in
  let s := scan_upto cfg recs (length recs) in
  mkDiary (mark_day_sleeps (sc_day_sleeps s) (sc_records s)) cfg.

(** *** Records with a [null] time

    A record of [contents.records] as a file can have it: [start] and
    [end] can hold [null] there.  [properties] is the record without such
    a [null] (the property is absent instead), and the two flags tell
    which of the two hold [null]; a flag says nothing about a time that
    is a number. *)
Record ContentsRecord : Type := mkContentsRecord {
  properties : DiaryStandardRecord;
  start_is_null : bool;
  end_is_null : bool;
}.

(** The number a subtraction reads from [start] or [end]: [null] is 0,
    [undefined] is [NaN]. *)
Definition contents_number (is_null : bool) (v : option Z) : option Z :=
  match v with
  | Some t => Some t
  | None => if is_null then Some 0%Z else None
  end.

(** The comparator of the constructor's sort, on the copies of such
    records. *)
Definition compare_contents (a b : ContentsRecord) : option Z :=
  JS.or (JS.sub (contents_number (start_is_null a) (start (properties a)))
                (contents_number (start_is_null b) (start (properties b))))
        (JS.sub (contents_number (end_is_null a) (end_ (properties a)))
                (contents_number (end_is_null b) (end_ (properties b)))).

(** [new DiaryStandard({records, settings})] for such records.  The sort
    reads a [null] as 0.  The first statement of the loop's callback,
    [if ( r[key] == undefined ) delete r[key]], deletes the [null] from
    the record the callback is called on; no other statement has read it
    by then (a callback reads [start] and [end] of its own record only),
    so the store the loop works on is the sorted list of the
    [properties]. *)
Definition new_DiaryStandard_contents (contents_records : list ContentsRecord)
    (contents_settings : FileSettings) : DiaryStandard :=
  let cfg := default_settings contents_settings in
  let recs :=
    properties <$> JS.sort (λ a b, JS.positive (compare_contents a b))
                     contents_records in
  let s := scan_upto cfg recs (length recs) in
  mkDiary (mark_day_sleeps (sc_day_sleeps s) (sc_records s)) cfg.

(** ** [latest_sleep_status] *)

(** The loop [for ( n = length-1; n >= 0; --n )], with [n] indices left to
    visit. *)
Fixpoint latest_sleep_status_loop (recs : list DiaryStandardRecord) (n : nat) : string :=
  match n with
  | 0 => ""
  | S n' =>
      match recs !! n' with
      | Some r => if is_sleep_wake r then status r else latest_sleep_status_loop recs n'
      | None => latest_sleep_status_loop recs n'
      end
  end.

Definition latest_sleep_status (d : DiaryStandard) : string :=
  latest_sleep_status_loop (records d) (length (records d)).

(** ** The statistics engine: [DiaryStandard.summarise] *)

(** [DiaryStandardStatistics].  The two standard deviations are kept as
    their squares: the engine takes [Math.sqrt] of these numbers, and the
    only use it makes of the result is to compare two of them, which
    agrees with comparing the squares where these differ
    ([deviation_lt]). *)
Record DiaryStandardStatistics : Type := mkStatistics {
  average : Q;
  mean : Q;
  interquartile_mean : Q;
  median : Q;
  interquartile_range : Q;
  durations : list (option Q);
  timestamps : list (option Z);
  interquartile_durations : list Q;
  rolling_average : list (option Q);
  standard_deviation_squared : Q;
  interquartile_standard_deviation_squared : Q;
}.

(** An element [[value, timestamp]] of the array [summarise] works on. *)
Abbreviation entry := (option Q * option Z)%type.

(** [arr.map( r => r[0] ).filter( r => r !== undefined )]: holes are
    skipped by [map]. *)
Definition defined_values (arr : list (option entry)) : list Q :=
  omap (λ e : option entry, e ≫= fst) arr.

(** [arr.reduce(sum_of_squares, 0)] with the variable [mean] set to [m]. *)
Definition sum_of_squares (m : Q) (l : list Q) : Q :=
  foldl (λ a r, a + (r - m) ^ 2)%Q 0%Q l.

(** [durations_and_timestamps.slice(Math.max(0,n-13),n+1)
      .map( r => r[0] ).filter( r => r !== undefined )]. *)
Definition rolling_window (arr : list (option entry)) (n : nat) : list Q :=
  defined_values
    (JS.slice (JS.Math_max 0 (Z.of_nat n - 13)) (Z.of_nat n + 1) arr).

(** The counters [extremes[0]] and [extremes[1]] after the loop over the
    window. *)
Definition extremes (rolling_average_max : Z) (window : list Q) : Z * Z :=
  foldl (λ (e : Z * Z) (d : Q),
           if JS.lt_num d (inject_Z rolling_average_max * 1 / 4)%Q
           then (e.1 + 1, e.2)%Z
           else if JS.gt_num d (inject_Z rolling_average_max * 3 / 4)%Q
                then (e.1, e.2 + 1)%Z
                else e)
        (0, 0)%Z window.

(** The callback that computes [rolling_average[n]] when
    [rolling_average_max] is given. *)
Definition rolling_average_circular (rolling_average_max : Z)
    (arr : list (option entry)) (n : nat) : option Q :=
  if decide (n < 14) then None
  else
    let window := rolling_window arr n in
    let e := extremes rolling_average_max window in
    match window with
    | [] => None
    | x :: window' =>
        Some ((foldl Qplus x window'
               + inject_Z (if bool_decide (e.1 < e.2)%Z
                           then e.1 * rolling_average_max
                           else e.2 * - rolling_average_max))
              / inject_Z (Z.of_nat (length window)))%Q
    end.

(** The callback that computes [rolling_average[n]] otherwise. *)
Definition rolling_average_plain (arr : list (option entry)) (n : nat) : option Q :=
  let window := rolling_window arr n in
  match window with
  | [] => None
  | x :: window' =>
      if decide (14 ≤ n)
      then Some (foldl Qplus x window' / inject_Z (Z.of_nat (length window)))%Q
      else None
  end.

(** [arr.map( (_,n) => f(n) )]: the callback is not called on a hole, and
    the result has a hole there. *)
Definition map_index {A B} (f : nat → option B) (arr : list (option A))
  : list (option B) :=
  imap (λ n (e : option A), match e with Some _ => f n | None => None end) arr.

(** The test [Array.prototype.sort] makes with the comparator
    [a_minus_b = (a,b) => a-b]: [a - b > 0]. *)
Definition a_minus_b_after (a b : Q) : bool := JS.gt_num (a - b) 0.

(** The callback [summarise] maps over its argument to compute
    [rolling_average]: the first one when [rolling_average_max] is
    truthy. *)
Definition rolling_average_callback (rolling_average_max : option Z)
    (arr : list (option entry)) : nat → option Q :=
  match rolling_average_max with
  | Some p =>
      if bool_decide (p ≠ 0%Z) then rolling_average_circular p arr
      else rolling_average_plain arr
  | None => rolling_average_plain arr
  end.

(** [DiaryStandard.summarise(durations_and_timestamps, rolling_average_max)];
    [None] is [null]. *)
Definition summarise (durations_and_timestamps : list (option entry))
    (rolling_average_max : option Z)
  : JS.completion (option DiaryStandardStatistics) :=
  let defined_durations := defined_values durations_and_timestamps in
  let total_durations := length defined_durations in
  if decide (total_durations = 0) then JS.Normal None
  else
    let sorted_durations :=
      JS.sort a_minus_b_after defined_durations in
    let interquartile_durations :=
      JS.slice
        (JS.Math_round (inject_Z (Z.of_nat (length sorted_durations)) * (1 # 4)))
        (JS.Math_round (inject_Z (Z.of_nat (length sorted_durations)) * (3 # 4)))
        sorted_durations in
    match JS.reduce_a_plus_b sorted_durations,
          JS.reduce_a_plus_b interquartile_durations with
    | JS.Normal total, JS.Normal interquartile_total =>
        let untrimmed_mean :=
          (total / inject_Z (Z.of_nat total_durations))%Q in
        let interquartile_mean :=
          (interquartile_total
           / inject_Z (Z.of_nat (length interquartile_durations)))%Q in
        JS.Normal (Some {|
          average := untrimmed_mean;
          mean := untrimmed_mean;
          interquartile_mean := interquartile_mean;
          median :=
            nth (Z.to_nat (JS.Math_floor
                   (inject_Z (Z.of_nat (length sorted_durations)) / 2)))
                sorted_durations 0%Q;
          interquartile_range :=
            (nth (length interquartile_durations - 1) interquartile_durations 0
             - nth 0 interquartile_durations 0)%Q;
          durations := (λ e : option entry, e ≫= fst) <$> durations_and_timestamps;
          timestamps := (λ e : option entry, e ≫= snd) <$> durations_and_timestamps;
          interquartile_durations := interquartile_durations;
          rolling_average :=
            map_index
              (rolling_average_callback rolling_average_max durations_and_timestamps)
              durations_and_timestamps;
          standard_deviation_squared :=
            (sum_of_squares untrimmed_mean sorted_durations
             / inject_Z (Z.of_nat total_durations))%Q;
          interquartile_standard_deviation_squared :=
            (sum_of_squares interquartile_mean interquartile_durations
             / inject_Z (Z.of_nat (length interquartile_durations)))%Q;
        |})
    | _, _ => JS.Throw
    end.


(** ** The analytics methods

    A method is a function of the diary object that returns its result and
    the object as the call leaves it. *)
Definition method (A : Type) : Type := DiaryStandard → A * DiaryStandard.

(** [filter ? this.records.filter(filter) : this.records]. *)
Definition filter_records (f : option (DiaryStandardRecord → bool))
    (recs : list DiaryStandardRecord) : list DiaryStandardRecord :=
  match f with
  | Some p => List.filter p recs
  | None => recs
  end.

(** [summarise_records(filter)]. *)
Definition summarise_records (f : option (DiaryStandardRecord → bool))
  : method (JS.completion (option DiaryStandardStatistics)) :=
  λ this,
    (summarise
       ((λ r, Some (inject_Z <$> duration r, JS.or (start r) (end_ r)))
          <$> filter_records f (records this))
       None,
     this).

(** [while ( starts.length && !starts[0] ) starts.shift()]. *)
Fixpoint shift_falsy (starts : list (option Z)) : list (option Z) :=
  match starts with
  | [] => []
  | x :: starts' => if JS.truthy x then starts else shift_falsy starts'
  end.

(** The array [starts] of [summarise_days] after its [forEach]. *)
Definition day_starts (recs : list DiaryStandardRecord) : list (option Z) :=
  foldl (λ starts r,
           match day_number r with
           | Some d =>
               if JS.is_true (start_of_new_day r) && bool_decide (d ≠ 0%N)
               then JS.array_put (N.to_nat d) (start r) starts
               else starts
           | None => starts
           end)
        [] recs.

(** The array [durations] of [summarise_days] after its [for] loop. *)
Definition day_durations (starts : list (option Z)) : list (option entry) :=
  foldl (λ acc n,
           match starts !! n ≫= id, starts !! (n - 1) ≫= id with
           | Some s, Some s' =>
               if bool_decide (s ≠ 0%Z) && bool_decide (s' ≠ 0%Z)
               then JS.array_put (n - 1) (Some (Some (inject_Z (s - s')), Some s')) acc
               else acc
           | _, _ => acc
           end)
        [] (seq 1 (length starts - 1)).

(** [summarise_days(filter)]. *)
Definition summarise_days (f : option (DiaryStandardRecord → bool))
  : method (JS.completion (option DiaryStandardStatistics)) :=
  λ this,
    (summarise
       (day_durations (shift_falsy (day_starts (filter_records f (records this)))))
       None,
     this).

(** The array [counts] of [total_per_day] after its [forEach]; an element
    is [[count, start]]. *)
Definition day_counts (record_filter : option (DiaryStandardRecord → bool))
    (recs : list DiaryStandardRecord) : list (option (Z * option Z)) :=
  foldl (λ counts r,
           match day_number r with
           | Some d =>
               let old := default (0%Z, start r) (counts !! N.to_nat d ≫= id) in
               let inc := match record_filter with
                          | Some p => if p r then 1%Z else 0%Z
                          | None => 1%Z
                          end in
               JS.array_put (N.to_nat d) (Some ((old.1 + inc)%Z, old.2)) counts
           | None => counts
           end)
        [] recs.

(** [while ( counts.length && counts[0] === undefined ) counts.shift()]. *)
Fixpoint shift_undefined {A} (counts : list (option A)) : list (option A) :=
  match counts with
  | None :: counts' => shift_undefined counts'
  | _ => counts
  end.

(** [total_per_day(record_filter, day_filter)]. *)
Definition total_per_day (record_filter day_filter : option (DiaryStandardRecord → bool))
  : method (JS.completion (option DiaryStandardStatistics)) :=
  λ this,
    let cutoff :=
      match records this !! (length (records this) - 1) with
      | Some r => day_number r
      | None => Some 0%N
      end in
    let counts := day_counts record_filter (filter_records day_filter (records this)) in
    let counts :=
      (* [slice(1, undefined)] runs to the end of the array *)
      match cutoff with
      | Some cutoff => JS.slice 1 (Z.of_N cutoff) counts
      | None => drop 1 counts
      end in
    let counts := shift_undefined counts in
    (summarise
       ((λ c : option (Z * option Z),
           (λ c' : Z * option Z, (Some (inject_Z c'.1), c'.2)) <$> c) <$> counts)
       None,
     this).

Section Schedule.

(** The calendar provider: [tc.zone(name)], as the offset of the zone from
    UTC, in minutes, at a time; [None] when the provider does not know the
    name, and throws. *)
Variable zone : string → option (Z → Z).
(** The variable [system_timezone]. *)
Variable system_timezone : string.
(** The engine compares two standard deviations as the doubles
    [Math.sqrt] returned.  When the deviations are equal as exact numbers,
    the doubles differ by rounding at most, in either direction:
    [rounded_lower early late] is the outcome of
    [early.standard_deviation < late.standard_deviation] then. *)
Variable rounded_lower : DiaryStandardStatistics → DiaryStandardStatistics → bool.

(** [a || b] on strings: the empty string is falsy. *)
Definition timezone_or (a : option string) (b : string) : string :=
  match a with
  | Some tz => if decide (tz = "") then b else tz
  | None => b
  end.

(** [DiaryBase.date(date,timezone)["offset"]()]: the date is made in the
    zone [Etc/UTC] and moved to the zone [timezone] when that name is not
    empty; a name the provider does not know makes the call throw. *)
Definition date_offset (date : Z) (timezone : string) : JS.completion Z :=
  match zone "Etc/UTC" with
  | Some utc =>
      if decide (timezone = "") then JS.Normal (utc date)
      else
        match zone timezone with
        | Some z => JS.Normal (z date)
        | None => JS.Throw
        end
  | None => JS.Throw
  end.

(** [time += DiaryBase.date(time,tz).offset() * 60000]. *)
Definition local_time (time : Z) (tz : string) : JS.completion Z :=
  match date_offset time tz with
  | JS.Normal offset => JS.Normal (time + offset * 60000)%Z
  | JS.Throw => JS.Throw
  end.

(** The local times pushed for [key] ([start] or [end]) of the primary
    sleeps, by the [forEach] over the records; the call throws when a
    zone cannot be resolved. *)
Fixpoint schedule_times (key : DiaryStandardRecord → option Z)
    (key_timezone : DiaryStandardRecord → option string) (timezone : string)
    (recs : list DiaryStandardRecord) : JS.completion (list Z) :=
  match recs with
  | [] => JS.Normal []
  | r :: recs' =>
      if JS.is_true (is_primary_sleep r) && JS.truthy (key r) then
        match local_time (default 0%Z (key r))
                (timezone_or (key_timezone r) timezone) with
        | JS.Normal time =>
            match schedule_times key key_timezone timezone recs' with
            | JS.Normal times => JS.Normal (time :: times)
            | JS.Throw => JS.Throw
            end
        | JS.Throw => JS.Throw
        end
      else schedule_times key key_timezone timezone recs'
  end.

(** The series [sleep_early]/[wake_early] and [sleep_late]/[wake_late]. *)
Definition series_early (day_length : Z) (times : list Z) : list (option entry) :=
  (λ t, Some (Some (JS.rem (inject_Z t) (inject_Z day_length)), Some t)) <$> times.

Definition series_late (day_length : Z) (times : list Z) : list (option entry) :=
  (λ t, Some (Some (JS.rem (inject_Z t + inject_Z day_length / 2)
                           (inject_Z day_length)), Some t)) <$> times.

(** The body of the [forEach] over [[late, early]]: the late statistics
    are expressed in the early phase again.  Reading a property of
    [null] throws. *)
Definition rephase (day_length : Z) (late early : option DiaryStandardStatistics)
  : JS.completion (option DiaryStandardStatistics) :=
  match late with
  | None => JS.Normal None
  | Some l =>
      match early with
      | None => JS.Throw
      | Some e =>
          let back (x : Q) : Q :=
            JS.rem (x + inject_Z day_length / 2) (inject_Z day_length) in
          JS.Normal (Some {|
            average := back (average l);
            mean := back (mean l);
            interquartile_mean := back (interquartile_mean l);
            median := back (median l);
            interquartile_range := interquartile_range l;
            durations := durations e;
            timestamps := timestamps l;
            interquartile_durations := interquartile_durations e;
            rolling_average := rolling_average e;
            standard_deviation_squared := standard_deviation_squared l;
            interquartile_standard_deviation_squared :=
              interquartile_standard_deviation_squared l;
          |})
      end
  end.

(** [early.standard_deviation < late.standard_deviation] for two
    statistics: the comparison of the exact deviations (through their
    squares) where these differ, and [rounded_lower] where they are
    equal. *)
Definition deviation_lt (e l : DiaryStandardStatistics) : bool :=
  if JS.lt_num (standard_deviation_squared e) (standard_deviation_squared l)
  then true
  else if JS.lt_num (standard_deviation_squared l) (standard_deviation_squared e)
       then false
       else rounded_lower e l.

(** [(early||{}).standard_deviation < (late||{}).standard_deviation
     ? early : late]; a comparison with [undefined] is false. *)
Definition lower_deviation (early late : option DiaryStandardStatistics)
  : option DiaryStandardStatistics :=
  match early, late with
  | Some e, Some l => if deviation_lt e l then early else late
  | _, _ => late
  end.

(** One of the two members of the result, for the times [times]. *)
Definition schedule_statistics (day_length : Z) (times : list Z)
  : JS.completion (option DiaryStandardStatistics) :=
  match summarise (series_early day_length times) (Some day_length),
        summarise (series_late day_length times) (Some day_length) with
  | JS.Normal stats_early, JS.Normal stats_late =>
      match rephase day_length stats_late stats_early with
      | JS.Normal stats_late' => JS.Normal (lower_deviation stats_early stats_late')
      | JS.Throw => JS.Throw
      end
  | _, _ => JS.Throw
  end.

(** The object [{ wake, sleep }] that [summarise_schedule] returns. *)
Record schedule : Type := mkSchedule {
  wake : option DiaryStandardStatistics;
  sleep : option DiaryStandardStatistics;
}.

(** [summarise_schedule(filter, day_length, timezone)]. *)
Definition summarise_schedule (f : option (DiaryStandardRecord → bool))
    (day_length : option Z) (timezone : option string)
  : method (JS.completion schedule) :=
  λ this,
    let day_length := JS.or_default day_length (24 * (60 * 60 * 1000))%Z in
    let timezone := timezone_or timezone system_timezone in
    let recs := filter_records f (records this) in
    (match schedule_times start start_timezone timezone recs,
           schedule_times end_ end_timezone timezone recs with
     | JS.Normal sleep_times, JS.Normal wake_times =>
         match schedule_statistics day_length sleep_times,
               schedule_statistics day_length wake_times with
         | JS.Normal s, JS.Normal w => JS.Normal (mkSchedule w s)
         | _, _ => JS.Throw
         end
     | _, _ => JS.Throw
     end,
     this).

End Schedule.

(** The comparator of the sort in [daily_activities]:
    [(a.start||a.end) - (b.start||b.end)]. *)
Definition compare_start_or_end (a b : DiaryStandardRecord) : option Z :=
  JS.sub (JS.or (start a) (end_ a)) (JS.or (start b) (end_ b)).

(** What a call of [daily_activities] does to the diary object: its first
    statement sorts [this.records] in place.  The rest of the method reads
    the records (and builds day and activity objects that refer to them);
    it writes no property of a record and does not touch the array
    again. *)
Definition daily_activities_effect (this : DiaryStandard) : DiaryStandard :=
  mkDiary (JS.sort (λ a b, JS.positive (compare_start_or_end a b)) (records this))
          (settings this).


(** ** Reference notions used to state the properties *)

(** The sum and the arithmetic mean of a list of numbers. *)
Definition Qsum (l : list Q) : Q := foldr Qplus 0%Q l.

Definition arithmetic_mean (l : list Q) : Q :=
  (Qsum l / inject_Z (Z.of_nat (length l)))%Q.

(** The value of the element at index [j] of the array, when the array has
    an element there and its value is defined. *)
Definition value_at (arr : list (option entry)) (j : nat) : option Q :=
  match arr !! j with
  | Some (Some e) => e.1
  | _ => None
  end.

(** The defined values at the indices [max(0,i-13)] through [i]. *)
Definition window_values (arr : list (option entry)) (i : nat) : list Q :=
  omap (value_at arr) (seq (i - 13) (min (S i) 14)).

(** [rolling_average[i]] as read by [arr[i]]: [None] when the property is
    missing or holds [undefined]. *)
Definition read {A} (arr : list (option A)) (i : nat) : option A :=
  match arr !! i with
  | Some v => v
  | None => None
  end.

(** The number of elements of [l] that satisfy [f]. *)
Definition count_if (f : Q → bool) (l : list Q) : Z :=
  Z.of_nat (length (List.filter f l)).

(** The rolling average of a window for the circular period [p], as the
    specification words it: with [L] values below [p/4] and [H] values
    above [3p/4], the sum is raised by [L*p] when [L < H] and lowered by
    [H*p] otherwise, and divided by the size of the window. *)
Definition circular_window_average (p : Z) (window : list Q) : Q :=
  let L := count_if (λ v, JS.lt_num v (inject_Z p / 4)) window in
  let H := count_if (λ v, JS.gt_num v (3 * inject_Z p / 4)) window in
  let k := inject_Z (Z.of_nat (length window)) in
  if bool_decide (L < H)%Z
  then ((Qsum window + inject_Z L * inject_Z p) / k)%Q
  else ((Qsum window - inject_Z H * inject_Z p) / k)%Q.

(** A list is in place for a comparator when no element has to go after
    its successor ([after x y] is [comparefn(x, y) > 0]). *)
Definition in_place {A} (after : A → A → bool) (l : list A) : Prop :=
  ∀ i x y, l !! i = Some x → l !! S i = Some y → after x y = false.

(** The comparator is consistent on the elements that satisfy [P], in the
    sense of the language standard: no element goes after itself, of two
    elements at most one goes after the other, and "does not go after" is
    transitive ([after x y] is [comparefn(x, y) > 0]). *)
Definition consistent {A} (after : A → A → bool) (P : A → Prop) : Prop :=
  (∀ x, P x → after x x = false) ∧
  (∀ x y, P x → P y → after x y = true → after y x = false) ∧
  (∀ x y z, P x → P y → P z →
     after x y = false → after y z = false → after x z = false).

(** The comparator puts [x] and [y] at the same rank. *)
Definition same_rank {A} (after : A → A → bool) (x y : A) : bool :=
  negb (after x y) && negb (after y x).

(** What the language standard asks of the result [l'] of sorting [l]: it
    holds the elements of [l], no element goes after a later one, and
    elements of the same rank are in the order they have in [l] (the sort
    is stable). *)
Definition sorted_stably {A} (after : A → A → bool) (l l' : list A) : Prop :=
  l' ≡ₚ l ∧
  StronglySorted (λ x y, after x y = false) l' ∧
  ∀ x, x ∈ l →
    List.filter (same_rank after x) l' = List.filter (same_rank after x) l.

(** The record has a start and an end time. *)
Definition has_times (r : DiaryStandardRecord) : Prop :=
  is_Some (start r) ∧ is_Some (end_ r).

(** A sparse array as [summarise_days] builds them when a day is missing:
    fourteen elements, a hole at index 14, and one more element. *)
Definition sparse_example : list (option entry) :=
  replicate 14 (Some (Some 1%Q, Some 0%Z)) ++ [None; Some (Some 1%Q, Some 0%Z)].

(** The statistics a call returned, for calls that are known to return
    some. *)
Definition returned_statistics (c : JS.completion (option DiaryStandardStatistics))
  : DiaryStandardStatistics :=
  match c with
  | JS.Normal (Some s) => s
  | _ => mkStatistics 0 0 0 0 0 [] [] [] [] 0 0
  end.

(** An array without holes: fifteen elements of value 2. *)
Definition dense_example : list (option entry) :=
  replicate 15 (Some (Some 2%Q, None)).

(** ** The derivation pass as a fold

    The loop of the constructor computes, for every record, fields that
    depend on the records before it ([derive_all]); it writes
    [missing_record_after] on a record when it meets the next
    [awake]/[asleep] record ([set_missing]); and it keeps in [day_sleeps]
    the references the last loop marks ([best_sleeps]).  The functions
    below compute the same results without a store; the properties of the
    pass are proved on them, after the loop is shown to agree with them. *)

(** The values of [day_start] and [day_number] when the loop starts. *)
Definition scan_start : option Z * N := (Some 0%Z, 0%N).

(** The record the callback leaves at the current index (apart from what
    later iterations write on it). *)
Definition derive_record (cfg : DiaryStandardSettings) (acc : option Z * N)
    (r : DiaryStandardRecord) : DiaryStandardRecord :=
  wrap_comments (derive_fields cfg acc r).1.

Fixpoint derive_all (cfg : DiaryStandardSettings) (acc : option Z * N)
    (l : list DiaryStandardRecord) : list DiaryStandardRecord :=
  match l with
  | [] => []
  | r :: l' => derive_record cfg acc r :: derive_all cfg (derive_fields cfg acc r).2 l'
  end.

(** [day_start] and [day_number] after the callback ran on [l]. *)
Definition derive_acc (cfg : DiaryStandardSettings) (acc : option Z * N)
    (l : list DiaryStandardRecord) : option Z * N :=
  foldl (λ acc r, (derive_fields cfg acc r).2) acc l.

(** [missing_record_after] of [r], given the records that follow it. *)
Definition missing_after (r : DiaryStandardRecord) (later : list DiaryStandardRecord)
  : DiaryStandardRecord :=
  if is_sleep_wake r then
    match List.find is_sleep_wake later with
    | Some n => note_missing_record n r
    | None => r
    end
  else r.

Fixpoint set_missing (l : list DiaryStandardRecord) : list DiaryStandardRecord :=
  match l with
  | [] => []
  | r :: l' => missing_after r l' :: set_missing l'
  end.

(** The index of the last [awake]/[asleep] record. *)
Fixpoint last_sleep_wake (l : list DiaryStandardRecord) : option nat :=
  match l with
  | [] => None
  | r :: l' =>
      match last_sleep_wake l' with
      | Some j => Some (S j)
      | None => if is_sleep_wake r then Some 0 else None
      end
  end.

(** [day_sleeps] after the [asleep] block ran on every record of [l]. *)
Definition best_sleeps (l : list DiaryStandardRecord) : gmap N nat :=
  foldl (track_day_sleeps l) ∅ (seq 0 (length l)).

(** What the [asleep] block reads of a record. *)
Definition sleep_view (r : DiaryStandardRecord) : bool * option N * option Z :=
  (is_asleep r, day_number r, duration r).

(** The record at index [j] is the primary sleep of day [d]: an [asleep]
    record of that day with a duration, no shorter than any other and
    before any other of the same duration. *)
Definition longest_sleep (l : list DiaryStandardRecord) (d : N) (j : nat) : Prop :=
  ∃ r x, l !! j = Some r ∧ is_asleep r = true ∧ day_number r = Some d ∧
         duration r = Some x ∧
         ∀ j' r' x', l !! j' = Some r' → is_asleep r' = true →
                     day_number r' = Some d → duration r' = Some x' →
                     (x' ≤ x)%Z ∧ (x' = x → j ≤ j').

(** The [day_number] of the record before index [i]; for the first record,
    the value the counter [day_number] starts with. *)
Definition day_number_before (l : list DiaryStandardRecord) (i : nat) : N :=
  match i with
  | 0 => 0%N
  | S i' => default 0%N (l !! i' ≫= day_number)
  end.

(** The value of [day_start] that the test
    [r.start > day_start + maximum_day_duration] reads for the record at
    index [i] of the sorted records: the variable as the first [i] calls
    left it, or [r.start] when the record brings [start_of_new_day = true]
    itself. *)
Definition tracked_day_start (cfg : DiaryStandardSettings)
    (sorted : list DiaryStandardRecord) (i : nat) : option Z :=
  match sorted !! i with
  | Some r =>
      (derive_start_of_new_day (minimum_day_duration cfg)
         (sc_day_start (scan_upto cfg sorted i))
         (default_duration (delete_empty r))).2
  | None => sc_day_start (scan_upto cfg sorted i)
  end.

(** The fields no step of the pass writes. *)
Definition timing (r : DiaryStandardRecord) : string * option Z * option Z :=
  (status r, start r, end_ r).

(** Every reference of [day_sleeps] is to a record before index [k]. *)
Definition refers_below (day_sleeps : gmap N nat) (k : nat) : Prop :=
  ∀ d j, day_sleeps !! d = Some j → j < k.

(** What [day_sleeps] should hold for day [d]: the longest sleep of the
    day, or nothing when the day has no sleep with a duration. *)
Definition day_sleep_right (l : list DiaryStandardRecord) (o : option nat) (d : N)
  : Prop :=
  match o with
  | Some j => longest_sleep l d j
  | None => ∀ j r, l !! j = Some r → is_asleep r = true →
                   day_number r = Some d → duration r = None
  end.

(** Two fields are written after the callback is done with a record; the
    others keep the value [derive_record] gives them. *)
Definition settled_fields (r : DiaryStandardRecord) :=
  (timing r, start_timezone r, end_timezone r, duration r, tags r, comments r,
   day_number r, start_of_new_day r).

(** ** Example diaries *)

(** A record with a status and timestamps and no other property. *)
Definition plain_record (st : string) (s e : option Z) : DiaryStandardRecord :=
  mkRecord st s e None None None None None None None None None.

Definition hour : Z := 60 * 60 * 1000.

(** A nap from 20:00 to 21:00 and a night from 30:00 to 38:00 (hours since
    the epoch): the pass puts both in day 1. *)
Definition nap : DiaryStandardRecord :=
  plain_record "asleep" (Some (20 * hour)%Z) (Some (21 * hour)%Z).

Definition night : DiaryStandardRecord :=
  plain_record "asleep" (Some (30 * hour)%Z) (Some (38 * hour)%Z).

(** The nap, as a diary that was converted from a format with its own
    flag for the main sleep brings it: [is_primary_sleep] is there. *)
Definition flagged_nap : DiaryStandardRecord :=
  set_is_primary_sleep (Some true) nap.

Definition no_settings : FileSettings := mkFileSettings None None.

(** The nap, as a record that brings the day number [d]. *)
Definition numbered_nap (d : N) : DiaryStandardRecord :=
  set_day_number (Some d) nap.

(** Two records that bring their own [day_number], the later one a lower
    number. *)
Definition numbered_five : DiaryStandardRecord :=
  set_day_number (Some 5%N) (plain_record "awake" (Some (1 * hour)%Z) (Some (2 * hour)%Z)).

Definition numbered_three : DiaryStandardRecord :=
  set_day_number (Some 3%N) (plain_record "awake" (Some (3 * hour)%Z) (Some (4 * hour)%Z)).

(** The record found by a lookup that is known to succeed. *)
Definition returned_record (o : option DiaryStandardRecord) : DiaryStandardRecord :=
  default (plain_record "" None None) o.

(** A record the callback would leave as it is: nothing to delete, to
    default or to wrap, and the fields the pass derives are there. *)
Definition is_settled (r : DiaryStandardRecord) : Prop :=
  (duration r = None → JS.sub (end_ r) (start r) = None) ∧
  tags r ≠ Some [] ∧
  (comments r = None ∨ ∃ c cs, comments r = Some (CommentsArray (c :: cs))) ∧
  is_Some (start_of_new_day r) ∧ is_Some (day_number r).

(** A sleep whose start was not logged, ending at 32:00, during a wake
    period logged from 9:00 to 33:00. *)
Definition open_sleep : DiaryStandardRecord :=
  plain_record "asleep" None (Some (32 * hour)%Z).

Definition long_wake : DiaryStandardRecord :=
  plain_record "awake" (Some (9 * hour)%Z) (Some (33 * hour)%Z).

(** A wake period whose start the file has as [null], ending at 10:00,
    and a sleep from 1:00 to 2:00. *)
Definition null_start_wake : ContentsRecord :=
  mkContentsRecord (plain_record "awake" None (Some (10 * hour)%Z)) true false.

Definition early_sleep : ContentsRecord :=
  mkContentsRecord (plain_record "asleep" (Some (1 * hour)%Z) (Some (2 * hour)%Z))
    false false.

(** Four nights, falling asleep at 23:55, 00:05, 23:55 and 00:05. *)
Definition minute : Z := 60 * 1000.

Definition midnight_diary : DiaryStandard :=
  new_DiaryStandard
    [plain_record "asleep" (Some (23 * hour + 55 * minute)%Z) (Some (32 * hour)%Z);
     plain_record "asleep" (Some (48 * hour + 5 * minute)%Z) (Some (56 * hour)%Z);
     plain_record "asleep" (Some (71 * hour + 55 * minute)%Z) (Some (80 * hour)%Z);
     plain_record "asleep" (Some (96 * hour + 5 * minute)%Z) (Some (104 * hour)%Z)]
    no_settings.

(** A sleep logged in Paris from [s] to [e], with its flag for the main
    sleep. *)
Definition paris_sleep (primary : bool) (s e : Z) : DiaryStandardRecord :=
  mkRecord "asleep" (Some s) (Some e) (Some "Europe/Paris") (Some "Europe/Paris")
    (Some (e - s)%Z) None None None None (Some primary) None.

(** Three nights in Paris, an hour ahead of UTC, falling asleep at 23:55,
    00:05 and 23:55 local time, and a nap at noon that is no primary
    sleep.  The times are in UTC. *)
Definition paris_diary : DiaryStandard :=
  mkDiary
    [paris_sleep true (22 * hour + 55 * minute)%Z (30 * hour)%Z;
     paris_sleep false (35 * hour)%Z (36 * hour)%Z;
     paris_sleep true (47 * hour + 5 * minute)%Z (54 * hour)%Z;
     paris_sleep true (70 * hour + 55 * minute)%Z (78 * hour)%Z]
    (default_settings no_settings).

(** A calendar provider that knows every zone by the name it is asked for
    and gives all of them the offset 0. *)
Definition utc_zone (name : string) : option (Z → Z) := Some (λ _, 0%Z).

(** A calendar provider that knows [Etc/UTC] and [Europe/Paris], an hour
    ahead of UTC (as in winter), and no other zone. *)
Definition paris_zone (name : string) : option (Z → Z) :=
  if decide (name = "Etc/UTC") then Some (λ _, 0%Z)
  else if decide (name = "Europe/Paris") then Some (λ _, 60%Z)
  else None.

(** A comparison of doubles that goes to the early statistics whenever
    the exact deviations are equal. *)
Definition ties_early (e l : DiaryStandardStatistics) : bool := true.

(** The times the claim speaks of: the timezone-adjusted times [key]
    ([start] or [end]) of the primary sleeps among [recs], in their order.
    A record counts when its [is_primary_sleep] is true and it has the
    time, other than 0; its time is adjusted by the offset, in minutes, of
    its own zone [key_timezone], or of the default zone [timezone] when it
    names none. *)
Inductive adjusted_times (zone : string → option (Z → Z))
    (key : DiaryStandardRecord → option Z)
    (key_timezone : DiaryStandardRecord → option string) (timezone : string)
  : list DiaryStandardRecord → list Z → Prop :=
| adjusted_nil : adjusted_times zone key key_timezone timezone [] []
| adjusted_other r recs times :
    is_primary_sleep r ≠ Some true ∨ key r = None ∨ key r = Some 0%Z →
    adjusted_times zone key key_timezone timezone recs times →
    adjusted_times zone key key_timezone timezone (r :: recs) times
| adjusted_primary r recs times t offset :
    is_primary_sleep r = Some true → key r = Some t → t ≠ 0%Z →
    date_offset zone t (timezone_or (key_timezone r) timezone) = JS.Normal offset →
    adjusted_times zone key key_timezone timezone recs times →
    adjusted_times zone key key_timezone timezone (r :: recs)
      ((t + offset * 60000)%Z :: times).

(** The late statistics [l] as the claim has them returned: four numbers
    shifted back by half the day length modulo the day length, three
    arrays taken from the early statistics [e]. *)
Definition shifted_back (day_length : Z) (l e r : DiaryStandardStatistics) : Prop :=
  let back (x : Q) : Q :=
    JS.rem (x + inject_Z day_length / 2) (inject_Z day_length) in
  average r = back (average l) ∧ mean r = back (mean l) ∧
  interquartile_mean r = back (interquartile_mean l) ∧
  median r = back (median l) ∧
  durations r = durations e ∧
  interquartile_durations r = interquartile_durations e ∧
  rolling_average r = rolling_average e ∧
  standard_deviation_squared r = standard_deviation_squared l.

(** How [summarise_schedule] chooses the statistics of one quantity, as
    the claim words it: the early series holds each time modulo the day
    length, the late series each time shifted by half the day length,
    modulo the day length; both are summarised with the day length as
    circular period; the series with the lower standard deviation is
    returned, the late one shifted back.  Where the two deviations are
    equal, it is one of the two.  Without times there are no
    statistics. *)
Definition schedule_choice (day_length : Z) (times : list Z)
    (result : option DiaryStandardStatistics) : Prop :=
  let early :=
    (λ t, Some (Some (JS.rem (inject_Z t) (inject_Z day_length)), Some t))
      <$> times in
  let late :=
    (λ t, Some (Some (JS.rem (inject_Z t + inject_Z day_length / 2)
                             (inject_Z day_length)), Some t)) <$> times in
  match summarise early (Some day_length), summarise late (Some day_length) with
  | JS.Normal (Some e), JS.Normal (Some l) =>
      ((standard_deviation_squared e < standard_deviation_squared l)%Q →
       result = Some e) ∧
      ((standard_deviation_squared l < standard_deviation_squared e)%Q →
       ∃ r, result = Some r ∧ shifted_back day_length l e r) ∧
      (result = Some e ∨ ∃ r, result = Some r ∧ shifted_back day_length l e r)
  | JS.Normal None, JS.Normal None => result = None
  | _, _ => False
  end.

(** ** Times of day around midnight *)

(** The local time [t] is, as a time of day, within [delta] of midnight,
    before or after it. *)
Definition near_midnight (day_length delta t : Z) : Prop :=
  (0 ≤ t)%Z ∧
  (t `mod` day_length ≤ delta ∨ day_length - delta ≤ t `mod` day_length)%Z.

Global Instance near_midnight_dec (day_length delta t : Z) :
  Decision (near_midnight day_length delta t).
Proof. unfold near_midnight. apply _. Defined.

(** The same for a number the engine reports: it is a time of day within
    [delta] of midnight. *)
Definition reported_near_midnight (day_length delta : Z) (x : Q) : Prop :=
  (0 <= x)%Q ∧ (x < inject_Z day_length)%Q ∧
  ((x <= inject_Z delta)%Q ∨ (inject_Z day_length - inject_Z delta <= x)%Q).

(** The time of day of [t], and 1 when it is before midnight, 0 after. *)
Definition time_of_day (day_length t : Z) : Q := inject_Z (t `mod` day_length).

Definition before_midnight (day_length delta t : Z) : Q :=
  if decide (t `mod` day_length ≤ delta)%Z then 0%Q else 1%Q.

(** ** [merge]

    [other.to(this.file_format())] is [other] itself when [other] is a
    [DiaryStandard] ([DiaryBase.to] returns [this] for the format of the
    object); the embedding takes such a diary. *)

(** An element of [[x, y, z].join()] when it is a timestamp: the digits of
    the integer, and nothing for [undefined].  JavaScript prints exactly
    these digits for an integer up to 2^53; what the properties of
    [merge] rest on is that different numbers print differently and
    without a comma, which holds of every number. *)
Definition join_item (x : option Z) : string :=
  match x with
  | Some t => pretty.pretty t
  | None => ""
  end.

(** [[ r.start, r.end, r.status ].join()]. *)
Definition merge_key (r : DiaryStandardRecord) : string :=
  join_item (start r) +:+ "," +:+ join_item (end_ r) +:+ "," +:+ status r.

(** [o[key] = v] on an object used as a map, for keys that are not array
    indices (a key of [merge] holds two commas): the properties are
    enumerated in the order they were created, and writing an existing
    property keeps its place. *)
Fixpoint object_set {A} (key : string) (v : A) (o : list (string * A))
  : list (string * A) :=
  match o with
  | [] => [(key, v)]
  | (k, w) :: o' =>
      if decide (k = key) then (k, v) :: o' else (k, w) :: object_set key v o'
  end.

(** [Object.values(o)]. *)
Definition object_values {A} (o : list (string * A)) : list A := o.*2.

(** The object [records] of [merge] after the two [forEach]. *)
Definition merge_records (recs : list DiaryStandardRecord)
  : list (string * DiaryStandardRecord) :=
  foldl (λ o r, object_set (merge_key r) r o) [] recs.

(** [this.merge(other)]: the diary [this] as the call leaves it (the
    method returns [this]). *)
Definition merge (this other : DiaryStandard) : DiaryStandard :=
  mkDiary
    (JS.sort start_end_after
       (object_values (merge_records (records this ++ records other))))
    (settings this).

(** ** Utility functions of [DiaryBase] *)

(** The loop [for ( let m = ...; m > n; m /= 10 ) zeros += '0'] of
    [zero_pad], for at most [fuel] tests of its condition; [None] when the
    loop is still running after them. *)
Fixpoint zero_pad_loop (fuel : nat) (m : Q) (n : Z) (zeros : string)
  : option string :=
  match fuel with
  | 0 => None
  | S fuel' =>
      if JS.gt_num m (inject_Z n)
      then zero_pad_loop fuel' (m / 10)%Q n (zeros +:+ "0")
      else Some zeros
  end.

(** The loop [for ( let m=1; m<(length||2); ++m ) zeros += '0']. *)
Fixpoint zeros_string (k : nat) : string :=
  match k with
  | 0 => ""
  | S k' => zeros_string k' +:+ "0"
  end.

(** [DiaryBase.zero_pad(n, length)] for an integer [n]; [zeros + n]
    appends the digits of [n]. *)
Definition zero_pad (fuel : nat) (n : Z) (length : option Z) : option string :=
  let len := JS.or_default length 2 in
  let zeros :=
    if bool_decide (n ≠ 0%Z)
    then zero_pad_loop fuel (10 ^ (len - 1))%Q n ""
    else Some (zeros_string (Z.to_nat (len - 1))) in
  (λ zeros, zeros +:+ pretty.pretty n) <$> zeros.

(** The own properties of [list1_ids] after
    [list1.forEach( l => list1_ids[unique_id(l)] = 1 )].  The assignment
    [list1_ids["__proto__"] = 1] runs the setter [Object.prototype] has
    for that name, which ignores a value that is not an object: it makes
    no own property. *)
Definition list1_ids {A} (unique_id : A → string) (list1 : list A) : gset string :=
  foldl (λ ids l,
           if decide (unique_id l = "__proto__") then ids
           else {[unique_id l]} ∪ ids)
        ∅ list1.

(** [DiaryBase.unique(list1, list2, unique_id)] for a function
    [unique_id], whose result is taken as the property key it is used as.
    The callback of [filter] calls [list1_ids.hasOwnProperty]: when
    [list1] made an own property of that name, the call is a call of its
    value [1], a [TypeError]. *)
Definition unique {A} (list1 list2 : list A) (unique_id : A → string)
  : JS.completion (list A) :=
  let ids := list1_ids unique_id list1 in
  match list2 with
  | [] => JS.Normal []
  | _ =>
      if decide ("hasOwnProperty" ∈ ids) then JS.Throw
      else JS.Normal (List.filter (λ l, bool_decide (unique_id l ∉ ids)) list2)
  end.

(** ** Notions used to state further properties *)

(** What the user logged of a record: the constructor copies it. *)
Definition logged (r : DiaryStandardRecord)
  : string * option Z * option Z * option string * option string :=
  (status r, start r, end_ r, start_timezone r, end_timezone r).

(** [a] starts no later than [b], both start times being known. *)
Definition starts_before (a b : DiaryStandardRecord) : Prop :=
  ∃ x y, start a = Some x ∧ start b = Some y ∧ (x ≤ y)%Z.

(** The record has a start time other than 0 (a truthy [start]). *)
Definition has_start (r : DiaryStandardRecord) : Prop :=
  ∃ x, start r = Some x ∧ x ≠ 0%Z.

(** The start of the last record of [l] that has [start_of_new_day] true;
    0 when there is none. *)
Definition last_new_day_start (l : list DiaryStandardRecord) : option Z :=
  foldl (λ day_start r,
           if JS.is_true (start_of_new_day r) then start r else day_start)
        (Some 0%Z) l.

(** The input record leaves [start_of_new_day] and [day_number] to the
    constructor. *)
Definition days_derived (r : DiaryStandardRecord) : Prop :=
  start_of_new_day r = None ∧ day_number r = None.

(** Three nights, from 20:00 to 04:00, a day apart. *)
Definition three_nights : list DiaryStandardRecord :=
  [plain_record "asleep" (Some (20 * hour)%Z) (Some (28 * hour)%Z);
   plain_record "asleep" (Some (44 * hour)%Z) (Some (52 * hour)%Z);
   plain_record "asleep" (Some (68 * hour)%Z) (Some (76 * hour)%Z)].

(** The number of records of [recs] with [day_number] [m] that the record
    filter of [total_per_day] lets through. *)
Definition matching_on_day (record_filter : option (DiaryStandardRecord → bool))
    (recs : list DiaryStandardRecord) (m : nat) : Z :=
  Z.of_nat
    (length
       (List.filter
          (λ r, bool_decide (day_number r = Some (N.of_nat m)) &&
                match record_filter with Some p => p r | None => true end)
          recs)).

(** The number [x] is a time of day: at least 0 and less than the day
    length. *)
Definition is_time_of_day (day_length : Z) (x : Q) : Prop :=
  (0 <= x)%Q ∧ (x < inject_Z day_length)%Q.

(** The record counts for [key] ([start] or [end]) in
    [summarise_schedule]: it is a primary sleep and the time is there and
    not 0. *)
Definition scheduled (key : DiaryStandardRecord → option Z)
    (r : DiaryStandardRecord) : bool :=
  JS.is_true (is_primary_sleep r) && JS.truthy (key r).

(** The calendar provider can make a date in the zone [tz]: it knows
    [Etc/UTC], and it knows [tz] unless the name is empty (the date then
    stays in [Etc/UTC]). *)
Definition zone_known (zone : string → option (Z → Z)) (tz : string) : Prop :=
  is_Some (zone "Etc/UTC") ∧ (tz = "" ∨ is_Some (zone tz)).

(** The zones of the times [summarise_schedule] uses of a record are known
    to the provider; [timezone] is the default zone of the call. *)
Definition zones_known (zone : string → option (Z → Z)) (timezone : string)
    (r : DiaryStandardRecord) : Prop :=
  (scheduled start r = true →
   zone_known zone (timezone_or (start_timezone r) timezone)) ∧
  (scheduled end_ r = true →
   zone_known zone (timezone_or (end_timezone r) timezone)).

(** The characters of [s] are all accepted by [P]. *)
Fixpoint string_Forall (P : Ascii.ascii → Prop) (s : string) : Prop :=
  match s with
  | EmptyString => True
  | String c s' => P c ∧ string_Forall P s'
  end.

(** The character [,]. *)
Definition comma : Ascii.ascii := Eval compute in Ascii.ascii_of_nat 44.

(** A piece of a key that holds no comma. *)
Definition no_comma (s : string) : Prop :=
  string_Forall (λ c, c ≠ comma) s.

(** * Properties *)

(** ** [latest_sleep_status] *)

Section LatestSleepStatus.

Implicit Types (recs : list DiaryStandardRecord) (r : DiaryStandardRecord).

Lemma is_sleep_wake_true r :
  is_sleep_wake r = true ↔ status r = "awake" ∨ status r = "asleep".
Proof.
  unfold is_sleep_wake. rewrite orb_true_iff, !bool_decide_eq_true. done.
Qed.

Lemma is_sleep_wake_false r :
  is_sleep_wake r = false ↔ ¬ (status r = "awake" ∨ status r = "asleep").
Proof. rewrite <- is_sleep_wake_true. destruct (is_sleep_wake r); naive_solver. Qed.

(** The loop that still has the indices below [n] to visit answers for
    the first [n] records. *)
Lemma latest_sleep_status_loop_take recs n :
  n ≤ length recs →
  latest_sleep_status_loop recs n =
    default "" (status <$> list.last
      (filter (λ r, status r = "awake" ∨ status r = "asleep") (take n recs))).
Proof.
  induction n as [|n IH]; intros Hn; simpl.
  - done.
  - destruct (lookup_lt_is_Some_2 recs n) as [r Hr]; [lia|].
    rewrite Hr, (take_S_r _ _ _ Hr), list.filter_app, filter_cons, filter_nil.
    destruct (is_sleep_wake r) eqn:Hsw.
    + apply is_sleep_wake_true in Hsw. rewrite decide_True by done.
      by rewrite last_snoc.
    + apply is_sleep_wake_false in Hsw. rewrite decide_False by done.
      rewrite app_nil_r. apply IH. lia.
Qed.

End LatestSleepStatus.

(** C10.  [latest_sleep_status()] returns the [status] of the last record of
    the stored list whose status is ["awake"] or ["asleep"], and the empty
    string when there is no such record (so also for an empty diary). *)
Theorem latest_sleep_status_last (d : DiaryStandard) :
  latest_sleep_status d =
    default "" (status <$> list.last
      (filter (λ r, status r = "awake" ∨ status r = "asleep") (records d))).
Proof.
  unfold latest_sleep_status.
  rewrite latest_sleep_status_loop_take by done. by rewrite firstn_all.
Qed.

(** ** Numbers and sorting *)

Section Numbers.

Lemma lt_num_spec (x y : Q) : JS.lt_num x y = true ↔ (x < y)%Q.
Proof.
  unfold JS.lt_num. rewrite negb_true_iff.
  destruct (Qle_bool y x) eqn:E.
  - apply Qle_bool_iff in E. split; [done|]. intros H.
    exfalso. by apply (Qlt_not_le x y).
  - split; [intros _|done]. apply Qnot_le_lt. intros H.
    apply Qle_bool_iff in H. congruence.
Qed.

Lemma lt_num_false (x y : Q) : JS.lt_num x y = false ↔ (y <= x)%Q.
Proof.
  unfold JS.lt_num. rewrite negb_false_iff. apply Qle_bool_iff.
Qed.

Lemma gt_num_spec (x y : Q) : JS.gt_num x y = true ↔ (y < x)%Q.
Proof. apply lt_num_spec. Qed.

Lemma foldl_Qplus (a : Q) (l : list Q) : (foldl Qplus a l == a + Qsum l)%Q.
Proof.
  revert a. induction l as [|x l IH]; intros a; simpl.
  - ring.
  - rewrite IH. ring.
Qed.

Lemma reduce_a_plus_b_sum (x : Q) (l : list Q) :
  (foldl Qplus x l == Qsum (x :: l))%Q.
Proof. rewrite foldl_Qplus. reflexivity. Qed.

Lemma Qsum_app (l k : list Q) : (Qsum (l ++ k) == Qsum l + Qsum k)%Q.
Proof.
  induction l as [|x l IH]; simpl; [ring|]. rewrite IH. ring.
Qed.

Lemma Qsum_Permutation (l k : list Q) : l ≡ₚ k → (Qsum l == Qsum k)%Q.
Proof.
  induction 1; simpl.
  - reflexivity.
  - by rewrite IHPermutation.
  - ring.
  - etransitivity; eassumption.
Qed.

(** [Math.round(n*0.25)] and [Math.round(n*0.75)] in integer arithmetic. *)
Lemma Math_round_quarter (n : Z) :
  JS.Math_round (inject_Z n * (1 # 4)) = ((n + 2) `div` 4)%Z.
Proof.
  unfold JS.Math_round, Qfloor, inject_Z, Qmult, Qplus; simpl.
  change (Z.pos (1 * 4 * 2)) with (4 * 2)%Z. change (Z.pos (1 * 4)) with 4%Z.
  replace (n * 1 * 2 + 1 * 4)%Z with ((n + 2) * 2)%Z by lia.
  by rewrite Z.div_mul_cancel_r.
Qed.

Lemma Math_round_three_quarters (n : Z) :
  JS.Math_round (inject_Z n * (3 # 4)) = ((3 * n + 2) `div` 4)%Z.
Proof.
  unfold JS.Math_round, Qfloor, inject_Z, Qmult, Qplus; simpl.
  change (Z.pos (1 * 4 * 2)) with (4 * 2)%Z. change (Z.pos (1 * 4)) with 4%Z.
  replace (n * 3 * 2 + 1 * 4)%Z with ((3 * n + 2) * 2)%Z by lia.
  by rewrite Z.div_mul_cancel_r.
Qed.

Lemma Math_floor_half (n : Z) :
  JS.Math_floor (inject_Z n / 2) = (n `div` 2)%Z.
Proof.
  unfold JS.Math_floor, Qfloor, inject_Z, Qdiv, Qmult, Qinv; simpl.
  change (Z.pos (1 * 2)) with 2%Z. by rewrite Z.mul_1_r.
Qed.

End Numbers.

Section Sorting.
Context {A : Type} (after : A → A → bool).

Lemma sort_insert_Permutation (x : A) (l : list A) :
  JS.sort_insert after x l ≡ₚ x :: l.
Proof.
  induction l as [|y l IH]; simpl; [done|].
  destruct (after x y); [|done].
  rewrite IH. apply perm_swap.
Qed.

Lemma sort_Permutation (l : list A) : JS.sort after l ≡ₚ l.
Proof.
  induction l as [|x l IH]; simpl; [done|].
  by rewrite sort_insert_Permutation, IH.
Qed.

Lemma sort_length (l : list A) : length (JS.sort after l) = length l.
Proof. by rewrite sort_Permutation. Qed.

Lemma in_place_cons (x : A) (l : list A) :
  in_place after (x :: l) ↔ (∀ y, head l = Some y → after x y = false) ∧ in_place after l.
Proof.
  split.
  - intros H. split.
    + intros y Hy. apply (H 0 x y); [done|]. by destruct l; simplify_eq/=.
    + intros i a b Ha Hb. by apply (H (S i) a b).
  - intros [H1 H2] [|i] a b Ha Hb; simplify_eq/=.
    + apply H1. by destruct l; simplify_eq/=.
    + by apply (H2 i a b).
Qed.

Lemma sort_insert_in_place_head (x : A) (l : list A) :
  (∀ y, head l = Some y → after x y = false) →
  JS.sort_insert after x l = x :: l.
Proof.
  destruct l as [|y l]; simpl; [done|]. intros H. by rewrite (H y).
Qed.

(** Sorting a list that is in place changes nothing. *)
Lemma sort_in_place (l : list A) : in_place after l → JS.sort after l = l.
Proof.
  induction l as [|x l IH]; simpl; [done|].
  rewrite in_place_cons. intros [H1 H2].
  rewrite IH by done. by apply sort_insert_in_place_head.
Qed.

(** The comparators of the engine are differences: when [x] goes after
    [y], [y] does not go after [x]. *)
Hypothesis after_asym : ∀ x y, after x y = true → after y x = false.

Lemma sort_insert_head (x : A) (l : list A) (z : A) :
  head (JS.sort_insert after x l) = Some z → z = x ∨ head l = Some z.
Proof.
  destruct l as [|y l]; simpl; [naive_solver|].
  destruct (after x y); simpl; naive_solver.
Qed.

Lemma sort_insert_in_place (x : A) (l : list A) :
  in_place after l → in_place after (JS.sort_insert after x l).
Proof.
  induction l as [|y l IH]; simpl; intros Hl.
  - intros [|i] a b Ha Hb; simplify_eq/=.
  - destruct (after x y) eqn:E.
    + apply in_place_cons in Hl as [H1 H2].
      apply in_place_cons. split; [|by apply IH].
      intros z Hz. apply sort_insert_head in Hz as [->|Hz]; [|by apply H1].
      by apply after_asym.
    + apply in_place_cons. split; [|done].
      intros z Hz. by simplify_eq/=.
Qed.

Lemma sort_is_in_place (l : list A) : in_place after (JS.sort after l).
Proof.
  induction l as [|x l IH]; simpl.
  - intros i a b Ha; simplify_eq/=.
  - by apply sort_insert_in_place.
Qed.

End Sorting.

Section StableSort.

Context {A : Type} (after : A → A → bool) (P : A → Prop).
Hypothesis after_consistent : consistent after P.

Local Abbreviation le := (λ x y : A, after x y = false).

Lemma same_rank_refl x : P x → same_rank after x x = true.
Proof.
  intros Hx. destruct after_consistent as (Hr & _ & _).
  unfold same_rank. by rewrite Hr.
Qed.

Lemma same_rank_after x a y :
  P x → P a → P y →
  same_rank after x a = true → after a y = true → same_rank after x y = false.
Proof.
  intros Hx Ha Hy Hxa Hay. destruct after_consistent as (Hr & Has & Htr).
  unfold same_rank in *. apply andb_true_iff in Hxa as [H1 H2].
  apply negb_true_iff in H1, H2.
  destruct (after x y) eqn:E1; [done|]. simpl.
  pose proof (Htr a x y Ha Hx Hy H2 E1). congruence.
Qed.

(** The insertion passes elements of a lower rank only. *)
Lemma sort_insert_filter x a l :
  P x → P a → Forall P l →
  List.filter (same_rank after x) (JS.sort_insert after a l)
  = List.filter (same_rank after x) (a :: l).
Proof.
  intros Hx Ha Hl. induction Hl as [|y l Hy Hl IH]; [done|].
  cbn [JS.sort_insert]. destruct (after a y) eqn:E; [|done].
  cbn [List.filter] in *. rewrite IH.
  destruct (same_rank after x a) eqn:Exa; [|done].
  by rewrite (same_rank_after x a y).
Qed.

Lemma sort_filter x l :
  P x → Forall P l →
  List.filter (same_rank after x) (JS.sort after l)
  = List.filter (same_rank after x) l.
Proof.
  intros Hx Hl. induction Hl as [|a l Ha Hl IH]; [done|].
  cbn [JS.sort foldr]. fold (JS.sort after l).
  rewrite sort_insert_filter; [|done|done|by rewrite sort_Permutation].
  cbn [List.filter]. by rewrite IH.
Qed.

Lemma sort_insert_sorted a l :
  P a → Forall P l → StronglySorted le l →
  StronglySorted le (JS.sort_insert after a l).
Proof.
  intros Ha HP Hl. destruct after_consistent as (Hr & Has & Htr).
  induction Hl as [|y l Hl IH Hy]; simpl.
  - repeat constructor.
  - apply list.Forall_cons in HP as [Py HP].
    destruct (after a y) eqn:E.
    + constructor; [by apply IH|].
      rewrite sort_insert_Permutation. constructor; [by apply Has|done].
    + constructor; [by constructor|]. constructor; [done|].
      rewrite Forall_forall in Hy. rewrite Forall_forall in HP.
      apply Forall_forall. intros z Hz.
      apply (Htr a y z); [done|done|by apply HP|done|by apply Hy].
Qed.

Lemma sort_sorted l : Forall P l → StronglySorted le (JS.sort after l).
Proof.
  induction 1 as [|a l Ha Hl IH]; simpl; [constructor|].
  apply sort_insert_sorted; [done| |done]. by rewrite sort_Permutation.
Qed.

(** The insertion sort gives a result the standard allows. *)
Lemma sort_sorted_stably l :
  Forall P l → sorted_stably after l (JS.sort after l).
Proof.
  intros Hl. split; [apply sort_Permutation|]. split; [by apply sort_sorted|].
  intros x Hx. apply sort_filter; [|done]. rewrite Forall_forall in Hl.
  by apply Hl, list_elem_of_In.
Qed.

Lemma filter_same_rank_cons x a l :
  same_rank after x a = true →
  List.filter (same_rank after x) (a :: l) = a :: List.filter (same_rank after x) l.
Proof. intros H. cbn [List.filter]. by rewrite H. Qed.

(** Two sorted lists with the same elements of each rank, in the same
    order, are equal. *)
Lemma sorted_same_ranks l1 l2 :
  Forall P l1 → l1 ≡ₚ l2 →
  StronglySorted le l1 → StronglySorted le l2 →
  (∀ x, x ∈ l1 →
     List.filter (same_rank after x) l1 = List.filter (same_rank after x) l2) →
  l1 = l2.
Proof.
  intros H1. revert l2. destruct after_consistent as (Hr & Has & Htr).
  induction H1 as [|a l1 Pa H1 IH]; intros l2 Hp S1 S2 Hf.
  { symmetry. by apply Permutation_nil. }
  destruct l2 as [|b l2]; [symmetry in Hp; by apply Permutation_nil_cons in Hp|].
  apply StronglySorted_inv in S1 as [S1 La].
  apply StronglySorted_inv in S2 as [S2 Lb].
  rewrite Forall_forall in La, Lb.
  pose proof (Hf a ltac:(by left)) as E.
  rewrite (filter_same_rank_cons a a l1) in E by (by apply same_rank_refl).
  assert (Hab : same_rank after a b = true).
  { destruct (same_rank after a b) eqn:Eab; [done|]. exfalso.
    cbn [List.filter] in E. rewrite Eab in E.
    assert (Ha2 : In a l2).
    { eapply (proj1 (filter_In _ _ _)). rewrite <- E. by left. }
    pose proof (Lb a Ha2) as Hba.
    assert (Hb1 : b ∈ a :: l1) by (rewrite Hp; by left).
    assert (Hab : after a b = false).
    { apply elem_of_cons in Hb1 as [->|Hb1]; [by apply Hr|].
      by apply La, list_elem_of_In. }
    unfold same_rank in Eab. by rewrite Hba, Hab in Eab. }
  rewrite (filter_same_rank_cons a b l2) in E by done.
  injection E as <- E. f_equal. apply IH; [|done|done|].
  - by apply Permutation_cons_inv in Hp.
  - intros x Hx. pose proof (Hf x ltac:(by right)) as Ex.
    cbn [List.filter] in Ex. destruct (same_rank after x a); [|done].
    by injection Ex.
Qed.

(** For a consistent comparator the result of the sort is determined:
    every result the standard allows is the one of the insertion sort. *)
Lemma sort_determined l l' :
  Forall P l → sorted_stably after l l' → l' = JS.sort after l.
Proof.
  intros Hl (Hp & Hs & Hf).
  destruct (sort_sorted_stably l Hl) as (Hp' & Hs' & Hf').
  apply sorted_same_ranks; [by rewrite Hp|by rewrite Hp, Hp'|done|done|].
  intros x Hx. rewrite Hp in Hx. by rewrite Hf, Hf'.
Qed.

(** A list in order is what every sort the standard allows makes of
    it. *)
Lemma sorted_stably_fixed l l' :
  Forall P l → StronglySorted le l → sorted_stably after l l' → l' = l.
Proof.
  intros Hl Hs (Hp & Hs' & Hf).
  apply sorted_same_ranks; [by rewrite Hp|done|done|done|].
  intros x Hx. rewrite Hp in Hx. by apply Hf.
Qed.

End StableSort.

(** ** The statistics engine *)

Section Summarise.

Implicit Types (arr : list (option entry)) (l : list Q).

Lemma a_minus_b_after_true (a b : Q) : a_minus_b_after a b = true ↔ (b < a)%Q.
Proof. unfold a_minus_b_after. rewrite gt_num_spec. split; intros; lra. Qed.

Lemma a_minus_b_after_false (a b : Q) : a_minus_b_after a b = false ↔ (a <= b)%Q.
Proof.
  unfold a_minus_b_after, JS.gt_num. rewrite lt_num_false. split; intros; lra.
Qed.

Lemma sort_insert_ascending (x : Q) l :
  StronglySorted Qle l → StronglySorted Qle (JS.sort_insert a_minus_b_after x l).
Proof.
  induction 1 as [|y l Hl IH Hy]; simpl.
  - repeat constructor.
  - destruct (a_minus_b_after x y) eqn:E.
    + apply a_minus_b_after_true in E. constructor; [done|].
      rewrite sort_insert_Permutation. constructor; [lra|done].
    + apply a_minus_b_after_false in E. constructor.
      * by constructor.
      * constructor; [done|]. eapply Forall_impl; [|exact Hy].
        intros z Hz. simpl in Hz. lra.
Qed.

Lemma sort_ascending l : StronglySorted Qle (JS.sort a_minus_b_after l).
Proof.
  induction l as [|x l IH]; simpl; [constructor|].
  by apply sort_insert_ascending.
Qed.

Lemma slice_length {A} (from to : Z) (k : list A) :
  (0 ≤ from)%Z → (from ≤ to)%Z → (to ≤ Z.of_nat (length k))%Z →
  length (JS.slice from to k) = Z.to_nat (to - from).
Proof.
  intros. unfold JS.slice. rewrite length_take, length_drop. lia.
Qed.

(** The interquartile slice of at least one value is not empty. *)
Lemma interquartile_slice_length {A} (k : list A) :
  k ≠ [] →
  0 < length (JS.slice
                (JS.Math_round (inject_Z (Z.of_nat (length k)) * (1 # 4)))
                (JS.Math_round (inject_Z (Z.of_nat (length k)) * (3 # 4))) k).
Proof.
  intros Hk. rewrite Math_round_quarter, Math_round_three_quarters.
  assert (0 < length k) by (destruct k; [done|simpl; lia]).
  set (n := Z.of_nat (length k)). assert (1 ≤ n)%Z by lia.
  rewrite slice_length.
  - assert ((n + 2) `div` 4 + 1 ≤ (3 * n + 2) `div` 4)%Z; [|lia].
    Z.div_mod_to_equations. lia.
  - Z.div_mod_to_equations. lia.
  - Z.div_mod_to_equations. lia.
  - fold n. Z.div_mod_to_equations. lia.
Qed.

Lemma defined_values_length_0 arr :
  length (defined_values arr) = 0 ↔ Forall (λ e : option entry, e ≫= fst = None) arr.
Proof.
  unfold defined_values. induction arr as [|e arr IH]; simpl.
  - split; [constructor|done].
  - rewrite list.Forall_cons. destruct (e ≫= fst) eqn:E; simpl.
    + split; [lia|]. intros [? _]. congruence.
    + split; [intros H; split; [done|by apply IH]|intros [_ H]; by apply IH].
Qed.

(** [summarise] on an array with a defined value: the statistics it
    returns, field by field. *)
Lemma summarise_defined arr rolling_average_max :
  defined_values arr ≠ [] →
  let sorted := JS.sort a_minus_b_after (defined_values arr) in
  let quartiles :=
    JS.slice (JS.Math_round (inject_Z (Z.of_nat (length sorted)) * (1 # 4)))
             (JS.Math_round (inject_Z (Z.of_nat (length sorted)) * (3 # 4)))
             sorted in
  ∃ s, summarise arr rolling_average_max = JS.Normal (Some s) ∧
    (mean s == Qsum sorted / inject_Z (Z.of_nat (length sorted)))%Q ∧
    average s = mean s ∧
    (interquartile_mean s == arithmetic_mean quartiles)%Q ∧
    median s = nth (Z.to_nat (JS.Math_floor (inject_Z (Z.of_nat (length sorted)) / 2)))
                   sorted 0%Q ∧
    interquartile_range s =
      (nth (length quartiles - 1) quartiles 0 - nth 0 quartiles 0)%Q ∧
    interquartile_durations s = quartiles ∧
    rolling_average s =
      map_index (rolling_average_callback rolling_average_max arr) arr ∧
    (standard_deviation_squared s
     == sum_of_squares (mean s) sorted / inject_Z (Z.of_nat (length sorted)))%Q.
Proof.
  intros Hne sorted quartiles. unfold summarise.
  assert (length (defined_values arr) ≠ 0) by (destruct (defined_values arr); done).
  rewrite decide_False by done.
  fold a_minus_b_after. fold sorted. fold quartiles.
  assert (Hs : sorted ≠ []).
  { intros E. apply (f_equal length) in E. unfold sorted in E.
    rewrite sort_length in E. done. }
  pose proof (interquartile_slice_length sorted Hs) as Hq. fold quartiles in Hq.
  destruct sorted as [|x sorted'] eqn:Es; [done|].
  destruct quartiles as [|y quartiles'] eqn:Eq; [simpl in Hq; lia|].
  assert (El : length (defined_values arr) = length (x :: sorted')).
  { by rewrite <- Es; unfold sorted; rewrite sort_length. }
  cbn [JS.reduce_a_plus_b]. eexists. split; [reflexivity|]. cbn [mean average
    interquartile_mean median interquartile_range interquartile_durations
    rolling_average standard_deviation_squared].
  rewrite El. repeat split.
  - by rewrite reduce_a_plus_b_sum.
  - unfold arithmetic_mean. by rewrite reduce_a_plus_b_sum.
Qed.

End Summarise.

Section SummaryStatistics.

Implicit Types (arr : list (option entry)) (l : list Q).

(** [summarise] never throws: its two [reduce] calls without an initial
    value are made on arrays that are not empty. *)
Lemma summarise_never_throws arr rolling_average_max :
  summarise arr rolling_average_max ≠ JS.Throw.
Proof.
  destruct (decide (defined_values arr = [])) as [E|E].
  - unfold summarise. rewrite E. simpl. done.
  - destruct (summarise_defined arr rolling_average_max E) as (s & -> & _). done.
Qed.

Lemma summarise_null arr rolling_average_max :
  Forall (λ e : option entry, e ≫= fst = None) arr →
  summarise arr rolling_average_max = JS.Normal None.
Proof.
  intros H. apply defined_values_length_0 in H.
  unfold summarise. by rewrite decide_True.
Qed.

Lemma filter_none_matches {A} (f : A → bool) (k : list A) :
  Forall (λ x, f x = false) k → List.filter f k = [].
Proof.
  induction 1 as [|x k Hx _ IH]; simpl; [done|]. by rewrite Hx.
Qed.

Lemma nth_head_last l (x : Q) :
  l ≠ [] →
  ∃ lo hi, head l = Some lo ∧ list.last l = Some hi ∧
           nth (length l - 1) l x = hi ∧ nth 0 l x = lo.
Proof.
  intros Hl. destruct l as [|lo l']; [done|].
  destruct (list.last (lo :: l')) as [hi|] eqn:E.
  - exists lo, hi. split; [done|]. split; [done|]. split; [|done].
    rewrite last_lookup in E. apply nth_lookup_Some.
    by replace (length (lo :: l') - 1) with (Init.Nat.pred (length (lo :: l'))) by (simpl; lia).
  - apply last_None in E. done.
Qed.

End SummaryStatistics.

(** C8.  When every element of the input is a hole or has an undefined
    value (in particular when the input is empty), [summarise] returns
    [null] and does not throw; so does [summarise_records] with a filter
    that no record of the diary matches. *)
Theorem summarise_no_data (arr : list (option entry)) (rolling_average_max : option Z)
    (f : DiaryStandardRecord → bool) (d : DiaryStandard) :
  Forall (λ e : option entry, e ≫= fst = None) arr →
  Forall (λ r, f r = false) (records d) →
  summarise arr rolling_average_max = JS.Normal None ∧
  (summarise_records (Some f) d).1 = JS.Normal None.
Proof.
  intros Harr Hf. split; [by apply summarise_null|].
  unfold summarise_records; simpl.
  by rewrite (filter_none_matches f _ Hf).
Qed.

Lemma summarise_no_data_witness :
  summarise [Some (None, Some 5%Z); None] None = JS.Normal None ∧
  (summarise_records (Some (λ r, bool_decide (status r = "asleep")))
     (mkDiary [mkRecord "awake" (Some 1%Z) (Some 2%Z) None None (Some 1%Z)
                        None None (Some 0%N) (Some false) None None]
              (mkSettings 57600000 115200000))).1 = JS.Normal None.
Proof.
  apply (summarise_no_data [Some (None, Some 5%Z); None] None
           (λ r, bool_decide (status r = "asleep"))
           (mkDiary [mkRecord "awake" (Some 1%Z) (Some 2%Z) None None (Some 1%Z)
                        None None (Some 0%N) (Some false) None None]
              (mkSettings 57600000 115200000))).
  - repeat constructor.
  - repeat constructor.
Defined.

(** C4.  With at least one defined value and no circular period,
    [summarise] returns statistics in which [mean] is the arithmetic mean
    of the defined values, [median] is the element at index [floor(n/2)] of
    the values sorted in ascending order, [interquartile_mean] and
    [interquartile_range] are the mean and the spread (last minus first) of
    the slice of the sorted values from index [round(n*0.25)] to index
    [round(n*0.75)] (excluded), and [average] is [mean].  For the values
    10, 20, 30, 40 the mean is 25, the median 30 and the interquartile mean
    25, over the slice [[20, 30]]. *)
Theorem summarise_statistics (arr : list (option entry)) :
  defined_values arr ≠ [] →
  (∃ s sorted,
     summarise arr None = JS.Normal (Some s) ∧
     sorted ≡ₚ defined_values arr ∧ StronglySorted Qle sorted ∧
     let n := Z.of_nat (length (defined_values arr)) in
     let quartiles :=
       JS.slice (JS.Math_round (inject_Z n * (1 # 4)))
                (JS.Math_round (inject_Z n * (3 # 4))) sorted in
     (mean s == arithmetic_mean (defined_values arr))%Q ∧
     sorted !! Z.to_nat (JS.Math_floor (inject_Z n / 2)) = Some (median s) ∧
     interquartile_durations s = quartiles ∧
     (interquartile_mean s == arithmetic_mean quartiles)%Q ∧
     (∃ lo hi, head quartiles = Some lo ∧ list.last quartiles = Some hi ∧
               interquartile_range s = (hi - lo)%Q) ∧
     average s = mean s) ∧
  (∀ t1 t2 t3 t4, ∃ s,
     summarise [Some (Some 10%Q, t1); Some (Some 20%Q, t2);
                Some (Some 30%Q, t3); Some (Some 40%Q, t4)] None
       = JS.Normal (Some s) ∧
     (mean s == 25)%Q ∧ (median s == 30)%Q ∧
     interquartile_durations s = [20%Q; 30%Q] ∧
     (interquartile_mean s == 25)%Q).
Proof.
  intros Hne. split.
  - destruct (summarise_defined arr None Hne)
      as (s & Hs & Hmean & Havg & Hiqm & Hmed & Hiqr & Hiqd & _).
    set (sorted := JS.sort a_minus_b_after (defined_values arr)) in *.
    assert (Hlen : length sorted = length (defined_values arr))
      by apply sort_length.
    rewrite Hlen in *.
    exists s, sorted. split; [done|].
    split; [apply sort_Permutation|]. split; [apply sort_ascending|].
    cbv zeta. repeat split.
    + rewrite Hmean. unfold arithmetic_mean.
      apply Qdiv_comp; [|reflexivity]. apply Qsum_Permutation, sort_Permutation.
    + rewrite Hmed. rewrite Math_floor_half.
      destruct (nth_lookup_or_length sorted
                  (Z.to_nat (Z.of_nat (length (defined_values arr)) `div` 2)) 0%Q)
        as [E|E]; [done|].
      exfalso. rewrite Hlen in E.
      assert (0 < length (defined_values arr))
        by (destruct (defined_values arr); [done|simpl; lia]).
      assert (Z.of_nat (length (defined_values arr)) `div` 2
              < Z.of_nat (length (defined_values arr)))%Z
        by (apply Z.div_lt; lia).
      lia.
    + done.
    + done.
    + assert (Hq : interquartile_durations s ≠ []).
      { rewrite Hiqd. intros E. apply (f_equal length) in E.
        assert (Hs' : sorted ≠ []).
        { intros E'. apply (f_equal length) in E'. rewrite Hlen in E'.
          destruct (defined_values arr); done. }
        pose proof (interquartile_slice_length sorted Hs') as Hpos.
        rewrite Hlen in Hpos. simpl in E. lia. }
      rewrite Hiqd in Hq.
      destruct (nth_head_last _ 0%Q Hq) as (lo & hi & Hlo & Hhi & E1 & E2).
      exists lo, hi. rewrite Hiqr, E1, E2. done.
    + done.
  - intros t1 t2 t3 t4. eexists. split; [reflexivity|].
    repeat split; vm_compute; reflexivity.
Qed.

Lemma summarise_statistics_witness :
  ∃ s sorted,
    summarise [Some (Some 30%Q, Some 7%Z); None; Some (None, Some 8%Z);
               Some (Some 10%Q, None)] None = JS.Normal (Some s) ∧
    sorted ≡ₚ [30%Q; 10%Q] ∧ (mean s == 20)%Q ∧ (median s == 30)%Q.
Proof.
  destruct (summarise_statistics
              [Some (Some 30%Q, Some 7%Z); None; Some (None, Some 8%Z);
               Some (Some 10%Q, None)]) as [(s & sorted & Hs & Hp & _) _].
  - vm_compute. discriminate.
  - exists s, sorted. split; [exact Hs|]. split; [exact Hp|].
    vm_compute in Hs. injection Hs as <-. split; vm_compute; reflexivity.
Defined.

(** ** Rolling averages *)

Section RollingAverage.

Implicit Types (arr : list (option entry)) (l : list Q).

Lemma value_at_ge arr j : length arr ≤ j → value_at arr j = None.
Proof. intros H. unfold value_at. by rewrite lookup_ge_None_2. Qed.

Lemma omap_value_at_ge arr f c :
  length arr ≤ f → omap (value_at arr) (seq f c) = [].
Proof.
  revert f. induction c as [|c IH]; intros f Hf; simpl; [done|].
  rewrite value_at_ge by done. apply IH. lia.
Qed.

Lemma defined_values_take_drop arr f c :
  defined_values (take c (drop f arr)) = omap (value_at arr) (seq f c).
Proof.
  revert f. induction c as [|c IH]; intros f; simpl; [done|].
  destruct (arr !! f) as [e|] eqn:E.
  - rewrite (drop_S _ _ _ E). simpl.
    assert (Ev : value_at arr f = e ≫= fst).
    { unfold value_at. rewrite E. by destruct e. }
    rewrite Ev, <- IH. unfold defined_values. simpl. done.
  - apply lookup_ge_None in E. rewrite drop_ge by done. simpl.
    rewrite value_at_ge by done. by rewrite omap_value_at_ge by lia.
Qed.

(** The window the code slices out of its argument holds the defined
    values at the indices [max(0,i-13)] to [i]. *)
Lemma rolling_window_values arr i : rolling_window arr i = window_values arr i.
Proof.
  unfold rolling_window, window_values, JS.slice, JS.Math_max.
  rewrite defined_values_take_drop. f_equal. f_equal; lia.
Qed.

Lemma map_index_lookup {A B} (f : nat → option B) (k : list (option A)) i :
  read (map_index f k) i =
    match k !! i with
    | Some (Some _) => f i
    | _ => None
    end.
Proof.
  unfold read, map_index. rewrite list_lookup_imap.
  by destruct (k !! i) as [[?|]|].
Qed.

Lemma rolling_average_plain_value arr i :
  14 ≤ i → window_values arr i ≠ [] →
  ∃ q, rolling_average_plain arr i = Some q ∧
       (q == arithmetic_mean (window_values arr i))%Q.
Proof.
  intros Hi Hw. unfold rolling_average_plain. rewrite rolling_window_values.
  destruct (window_values arr i) as [|x w] eqn:E; [done|].
  rewrite decide_True by done. eexists. split; [done|].
  unfold arithmetic_mean. by rewrite reduce_a_plus_b_sum.
Qed.

Lemma rolling_average_plain_early arr i : i < 14 → rolling_average_plain arr i = None.
Proof.
  intros Hi. unfold rolling_average_plain.
  destruct (rolling_window arr i); [done|]. rewrite decide_False; [done|lia].
Qed.

Lemma lt_num_comp (x x' y y' : Q) :
  (x == x')%Q → (y == y')%Q → JS.lt_num x y = JS.lt_num x' y'.
Proof. intros Hx Hy. unfold JS.lt_num. by rewrite Hx, Hy. Qed.

Lemma count_if_cons (f : Q → bool) (x : Q) l :
  count_if f (x :: l) = ((if f x then 1 else 0) + count_if f l)%Z.
Proof. unfold count_if. simpl. destruct (f x); simpl; lia. Qed.

Lemma quarters_apart (P d : Q) :
  (0 < P)%Q → (d < P / 4)%Q → (d <= 3 * P / 4)%Q.
Proof.
  intros HP Hd.
  assert (H1 : (P / 4 == P * (1 # 4))%Q) by field.
  assert (H2 : (3 * P / 4 == P * (3 # 4))%Q) by field.
  rewrite H1 in Hd. rewrite H2. lra.
Qed.

(** For a positive period a value cannot be in both extreme quarters, so
    the two counters of the code are the two counts of the claim. *)
Lemma extremes_counts (p : Z) l :
  (0 < p)%Z →
  extremes p l =
    (count_if (λ v, JS.lt_num v (inject_Z p / 4)) l,
     count_if (λ v, JS.gt_num v (3 * inject_Z p / 4)) l).
Proof.
  intros Hp. unfold extremes.
  assert (G : ∀ a b,
    foldl (λ (e : Z * Z) (d : Q),
             if JS.lt_num d (inject_Z p * 1 / 4)%Q then (e.1 + 1, e.2)%Z
             else if JS.gt_num d (inject_Z p * 3 / 4)%Q then (e.1, e.2 + 1)%Z
                  else e) (a, b) l
    = (a + count_if (λ v, JS.lt_num v (inject_Z p / 4)) l,
       b + count_if (λ v, JS.gt_num v (3 * inject_Z p / 4)) l)%Z).
  { induction l as [|d l IH]; intros a b; simpl.
    - unfold count_if; simpl. f_equal; lia.
    - rewrite !count_if_cons.
      assert (E1 : JS.lt_num d (inject_Z p * 1 / 4) = JS.lt_num d (inject_Z p / 4)).
      { apply lt_num_comp; [reflexivity|]. field. }
      assert (E2 : JS.gt_num d (inject_Z p * 3 / 4) = JS.gt_num d (3 * inject_Z p / 4)).
      { apply lt_num_comp; [|reflexivity]. field. }
      rewrite E1, E2.
      assert (Hpq : (0 < inject_Z p)%Q)
        by (change 0%Q with (inject_Z 0); by rewrite <- Zlt_Qlt).
      destruct (JS.lt_num d (inject_Z p / 4)) eqn:L.
      + assert (JS.gt_num d (3 * inject_Z p / 4) = false) as ->.
        { apply lt_num_spec in L. apply lt_num_false. by apply quarters_apart. }
        simpl. rewrite IH. f_equal; lia.
      + destruct (JS.gt_num d (3 * inject_Z p / 4)); simpl; rewrite IH; f_equal; lia. }
  rewrite G. f_equal; lia.
Qed.

Lemma rolling_average_circular_value (p : Z) arr i :
  (0 < p)%Z → 14 ≤ i → window_values arr i ≠ [] →
  ∃ q, rolling_average_circular p arr i = Some q ∧
       (q == circular_window_average p (window_values arr i))%Q.
Proof.
  intros Hp Hi Hw. unfold rolling_average_circular.
  rewrite decide_False by lia. rewrite rolling_window_values.
  destruct (window_values arr i) as [|x w] eqn:E; [done|].
  eexists. split; [done|].
  rewrite extremes_counts by done. cbn [fst snd].
  unfold circular_window_average.
  set (L := count_if _ (x :: w)). set (H := count_if _ (x :: w)).
  destruct (bool_decide (L < H)%Z);
    (apply Qdiv_comp; [|reflexivity]); rewrite reduce_a_plus_b_sum.
  - by rewrite inject_Z_mult.
  - rewrite inject_Z_mult, inject_Z_opp. ring.
Qed.

End RollingAverage.

Lemma summarise_rolling_average (arr : list (option entry))
    (rolling_average_max : option Z) (s : DiaryStandardStatistics) :
  summarise arr rolling_average_max = JS.Normal (Some s) →
  rolling_average s = map_index (rolling_average_callback rolling_average_max arr) arr.
Proof.
  intros Hs. destruct (decide (defined_values arr = [])) as [E|E].
  - unfold summarise in Hs. rewrite E in Hs. simpl in Hs. done.
  - destruct (summarise_defined arr rolling_average_max E)
      as (s' & Hs' & _ & _ & _ & _ & _ & _ & Hr & _).
    rewrite Hs in Hs'. by simplify_eq.
Qed.

(** C5 (as amended).  Without a circular period, [rolling_average[i]] is
    undefined when [i < 14], and also when the input array has a hole at
    index [i]; when the array has an element at index [i >= 14] (whatever
    its value) and the window holds a defined value, [rolling_average[i]]
    is the arithmetic mean of the defined values at the indices
    [max(0,i-13)] to [i]. *)
Theorem rolling_average_window (arr : list (option entry))
    (s : DiaryStandardStatistics) (i : nat) :
  summarise arr None = JS.Normal (Some s) →
  (i < 14 → read (rolling_average s) i = None) ∧
  (arr !! i = Some None → read (rolling_average s) i = None) ∧
  (∀ e, arr !! i = Some (Some e) → 14 ≤ i → window_values arr i ≠ [] →
     ∃ q, read (rolling_average s) i = Some q ∧
          (q == arithmetic_mean (window_values arr i))%Q).
Proof.
  intros Hs. rewrite (summarise_rolling_average _ _ _ Hs), map_index_lookup.
  simpl. repeat split.
  - intros Hi. destruct (arr !! i) as [[?|]|]; [|done..].
    by apply rolling_average_plain_early.
  - by intros ->.
  - intros e -> Hi Hw. by apply rolling_average_plain_value.
Qed.

Lemma rolling_average_window_witness :
  ∃ q, read (rolling_average (returned_statistics (summarise dense_example None))) 14
       = Some q ∧ (q == 2)%Q.
Proof.
  destruct (rolling_average_window dense_example
              (returned_statistics (summarise dense_example None)) 14)
    as (_ & _ & H).
  - vm_compute. reflexivity.
  - destruct (H (Some 2%Q, None)) as (q & Hq & Hm).
    + reflexivity.
    + lia.
    + vm_compute. discriminate.
    + exists q. split; [exact Hq|]. rewrite Hm. vm_compute. reflexivity.
Defined.

(** C5 as stated fails at a hole: the array [sparse_example] has defined
    values in the window of index 14, and [rolling_average[14]] is
    undefined. *)
Lemma rolling_average_hole :
  ∃ s, summarise sparse_example None = JS.Normal (Some s) ∧
       sparse_example !! 14 = Some None ∧
       arithmetic_mean (window_values sparse_example 14) = (13 # 13)%Q ∧
       read (rolling_average s) 14 = None.
Proof.
  eexists. split; [vm_compute; reflexivity|].
  repeat split; vm_compute; reflexivity.
Qed.

(** C6 (as amended).  With a circular period [p > 0], when the array has
    an element at index [i >= 14] and the window holds a defined value,
    [rolling_average[i]] is [(S + L*p)/k] if [L < H] and [(S - H*p)/k]
    otherwise, for the sum [S] and the number [k] of the defined values of
    the window, [L] of which are below [p/4] and [H] above [3p/4].  Where
    the array has a hole, [rolling_average[i]] is undefined, and so it is
    for [i < 14]. *)
Theorem rolling_average_circular_window (arr : list (option entry)) (p : Z)
    (s : DiaryStandardStatistics) (i : nat) :
  (0 < p)%Z →
  summarise arr (Some p) = JS.Normal (Some s) →
  (arr !! i = Some None → read (rolling_average s) i = None) ∧
  (i < 14 → read (rolling_average s) i = None) ∧
  (∀ e, arr !! i = Some (Some e) → 14 ≤ i → window_values arr i ≠ [] →
     ∃ q, read (rolling_average s) i = Some q ∧
          (q == circular_window_average p (window_values arr i))%Q).
Proof.
  intros Hp Hs.
  rewrite (summarise_rolling_average _ _ _ Hs), map_index_lookup.
  unfold rolling_average_callback. rewrite bool_decide_eq_true_2 by lia.
  repeat split.
  - by intros ->.
  - intros Hi. destruct (arr !! i) as [[?|]|]; [|done..].
    unfold rolling_average_circular. by rewrite decide_True.
  - intros e -> Hi Hw. by apply rolling_average_circular_value.
Qed.

Lemma rolling_average_circular_window_witness :
  ∃ q, read (rolling_average
               (returned_statistics (summarise dense_example (Some 8%Z)))) 14
       = Some q ∧ (q == 2)%Q.
Proof.
  destruct (rolling_average_circular_window dense_example 8
              (returned_statistics (summarise dense_example (Some 8%Z))) 14)
    as (_ & _ & H).
  - lia.
  - vm_compute. reflexivity.
  - destruct (H (Some 2%Q, None)) as (q & Hq & Hm).
    + reflexivity.
    + lia.
    + vm_compute. discriminate.
    + exists q. split; [exact Hq|]. rewrite Hm. vm_compute. reflexivity.
Defined.

(** C6 as stated fails at a hole, like C5: with the period of a day,
    [rolling_average[14]] of [sparse_example] is undefined although its
    window holds defined values. *)
Lemma rolling_average_circular_hole :
  ∃ s, summarise sparse_example (Some 86400000%Z) = JS.Normal (Some s) ∧
       sparse_example !! 14 = Some None ∧
       circular_window_average 86400000 (window_values sparse_example 14)
         = (13 # 13)%Q ∧
       read (rolling_average s) 14 = None.
Proof.
  eexists. split; [vm_compute; reflexivity|].
  repeat split; vm_compute; reflexivity.
Qed.

(** ** The derivation pass *)

Section Fields.

Implicit Types (r p n : DiaryStandardRecord) (l : list DiaryStandardRecord).

Lemma timing_wrap_comments r : timing (wrap_comments r) = timing r.
Proof. unfold wrap_comments. by repeat case_match. Qed.

Lemma timing_note_missing_record n p : timing (note_missing_record n p) = timing p.
Proof. unfold note_missing_record. by case_match. Qed.

Lemma timing_mark_primary_sleep r : timing (mark_primary_sleep r) = timing r.
Proof. unfold mark_primary_sleep. by case_match. Qed.

Lemma timing_derive_fields cfg acc r : timing (derive_fields cfg acc r).1 = timing r.
Proof.
  unfold derive_fields, derive_day_number, derive_start_of_new_day,
    default_duration, delete_empty.
  by repeat (case_match; simpl in *; simplify_eq).
Qed.

Lemma timing_derive_record cfg acc r : timing (derive_record cfg acc r) = timing r.
Proof. unfold derive_record. by rewrite timing_wrap_comments, timing_derive_fields. Qed.

Lemma timing_status r r' : timing r = timing r' → status r = status r'.
Proof. unfold timing. congruence. Qed.

Lemma timing_is_sleep_wake r r' : timing r = timing r' → is_sleep_wake r = is_sleep_wake r'.
Proof. intros H. unfold is_sleep_wake. by rewrite (timing_status _ _ H). Qed.

Lemma sleep_view_wrap_comments r : sleep_view (wrap_comments r) = sleep_view r.
Proof. unfold wrap_comments. by repeat case_match. Qed.

Lemma sleep_view_note_missing_record n p :
  sleep_view (note_missing_record n p) = sleep_view p.
Proof. unfold note_missing_record. by case_match. Qed.

Lemma sleep_view_mark_primary_sleep r : sleep_view (mark_primary_sleep r) = sleep_view r.
Proof. unfold mark_primary_sleep. by case_match. Qed.

Lemma sleep_view_missing_after r later : sleep_view (missing_after r later) = sleep_view r.
Proof.
  unfold missing_after. repeat case_match; auto using sleep_view_note_missing_record.
Qed.

Lemma timing_missing_after r later : timing (missing_after r later) = timing r.
Proof.
  unfold missing_after. repeat case_match; auto using timing_note_missing_record.
Qed.

End Fields.

Section SetMissing.

Implicit Types (r p n : DiaryStandardRecord) (l k : list DiaryStandardRecord).

Lemma set_missing_length l : length (set_missing l) = length l.
Proof. induction l; simpl; congruence. Qed.

Lemma set_missing_lookup l i :
  set_missing l !! i = (λ r, missing_after r (drop (S i) l)) <$> l !! i.
Proof.
  revert i. induction l as [|r l IH]; intros [|i]; simpl; done.
Qed.

Lemma find_is_sleep_wake_snoc l r :
  List.find is_sleep_wake (l ++ [r]) =
    match List.find is_sleep_wake l with
    | Some n => Some n
    | None => if is_sleep_wake r then Some r else None
    end.
Proof.
  induction l as [|x l IH]; simpl; [done|]. by destruct (is_sleep_wake x).
Qed.

Lemma last_sleep_wake_snoc l r :
  last_sleep_wake (l ++ [r]) =
    if is_sleep_wake r then Some (length l) else last_sleep_wake l.
Proof.
  induction l as [|x l IH]; simpl.
  - by destruct (is_sleep_wake r).
  - rewrite IH. destruct (is_sleep_wake r); [done|].
    by destruct (last_sleep_wake l).
Qed.

Lemma last_sleep_wake_None l :
  last_sleep_wake l = None ↔ List.find is_sleep_wake l = None.
Proof.
  induction l as [|x l IH]; simpl; [done|].
  destruct (last_sleep_wake l), (is_sleep_wake x), (List.find is_sleep_wake l);
    intuition congruence.
Qed.

Lemma last_sleep_wake_lt l j : last_sleep_wake l = Some j → j < length l.
Proof.
  revert j. induction l as [|x l IH]; intros j; simpl; [done|].
  destruct (last_sleep_wake l).
  - intros [= <-]. specialize (IH _ eq_refl). lia.
  - destruct (is_sleep_wake x); intros [= <-]. lia.
Qed.

(** What one more record changes in the records before it: the callback
    writes [missing_record_after] on the last [awake]/[asleep] record. *)
Lemma set_missing_snoc l r :
  set_missing (l ++ [r]) =
    (if is_sleep_wake r then
       match last_sleep_wake l with
       | Some j => alter (note_missing_record r) j (set_missing l)
       | None => set_missing l
       end
     else set_missing l) ++ [r].
Proof.
  induction l as [|x l IH]; simpl.
  - unfold missing_after. simpl. by repeat case_match.
  - rewrite IH. unfold missing_after. rewrite find_is_sleep_wake_snoc.
    destruct (is_sleep_wake r) eqn:Er.
    + destruct (last_sleep_wake l) as [j|] eqn:El; simpl.
      * assert (List.find is_sleep_wake l ≠ None) as Hf.
        { intros Hf. apply last_sleep_wake_None in Hf. congruence. }
        destruct (List.find is_sleep_wake l); done.
      * apply last_sleep_wake_None in El. rewrite El.
        destruct (is_sleep_wake x); done.
    + destruct (List.find is_sleep_wake l); done.
Qed.

End SetMissing.

Section DaySleeps.

Implicit Types (r : DiaryStandardRecord) (l k recs : list DiaryStandardRecord)
  (m : gmap N nat).

Lemma views_lookup recs recs' n j :
  sleep_view <$> take n recs = sleep_view <$> take n recs' →
  j < n → sleep_view <$> recs !! j = sleep_view <$> recs' !! j.
Proof.
  intros H Hj. apply (f_equal (λ x, x !! j)) in H.
  by rewrite !list_lookup_fmap, !lookup_take_lt in H by done.
Qed.

Lemma views_take recs recs' n n' :
  sleep_view <$> take n recs = sleep_view <$> take n recs' →
  n' ≤ n → sleep_view <$> take n' recs = sleep_view <$> take n' recs'.
Proof.
  intros H Hn. apply (f_equal (take n')) in H.
  rewrite <- !fmap_take, !take_take in H.
  by replace (n' `min` n) with n' in H by lia.
Qed.

Lemma duration_lt_view (b b' : option DiaryStandardRecord) (x : option Z) :
  sleep_view <$> b = sleep_view <$> b' → duration_lt b x = duration_lt b' x.
Proof.
  unfold duration_lt, sleep_view.
  destruct b as [b|], b' as [b'|], x; simpl; intros H; try done.
  injection H as _ _ ->. done.
Qed.

Lemma track_day_sleeps_ext recs recs' m i :
  sleep_view <$> take (S i) recs = sleep_view <$> take (S i) recs' →
  refers_below m (S i) →
  track_day_sleeps recs m i = track_day_sleeps recs' m i.
Proof.
  intros Hv Hm. unfold track_day_sleeps.
  pose proof (views_lookup _ _ _ i Hv ltac:(lia)) as Hi.
  destruct (recs !! i) as [r|], (recs' !! i) as [r'|]; try done.
  injection Hi as -> -> ->.
  destruct (is_asleep r'); [|done].
  destruct (day_number r') as [d|]; [|done].
  assert (duration_lt (m !! d ≫= (recs !!.)) (duration r')
          = duration_lt (m !! d ≫= (recs' !!.)) (duration r')) as ->; [|done].
  apply duration_lt_view. destruct (m !! d) as [j|] eqn:E; simpl; [|done].
  apply (views_lookup _ _ _ j Hv). by apply (Hm d).
Qed.

Lemma track_day_sleeps_refers_below recs m i :
  refers_below m i → refers_below (track_day_sleeps recs m i) (S i).
Proof.
  intros Hm d j. unfold track_day_sleeps.
  repeat case_match; try (intros H'; apply Hm in H'; lia).
  destruct (decide (n = d)) as [->|].
  - rewrite lookup_insert_eq. intros [= <-]. lia.
  - rewrite lookup_insert_ne by done. intros H'; apply Hm in H'; lia.
Qed.

Lemma fold_track_refers_below recs n :
  refers_below (foldl (track_day_sleeps recs) ∅ (seq 0 n)) n.
Proof.
  induction n as [|n IH].
  - intros d j. simpl. by rewrite lookup_empty.
  - rewrite seq_S, foldl_snoc. by apply track_day_sleeps_refers_below.
Qed.

Lemma fold_track_ext recs recs' n :
  sleep_view <$> take n recs = sleep_view <$> take n recs' →
  foldl (track_day_sleeps recs) ∅ (seq 0 n)
  = foldl (track_day_sleeps recs') ∅ (seq 0 n).
Proof.
  induction n as [|n IH]; intros Hv; [done|].
  rewrite seq_S, !foldl_snoc. simpl.
  rewrite IH by (eapply views_take; [exact Hv|lia]).
  apply track_day_sleeps_ext; [done|].
  intros d j Hj. apply fold_track_refers_below in Hj. lia.
Qed.

Lemma best_sleeps_refers_below l : refers_below (best_sleeps l) (length l).
Proof. apply fold_track_refers_below. Qed.

(** [day_sleeps] after one more record. *)
Lemma best_sleeps_snoc l r :
  best_sleeps (l ++ [r]) = track_day_sleeps (l ++ [r]) (best_sleeps l) (length l).
Proof.
  unfold best_sleeps. rewrite length_app. simpl.
  replace (length l + 1) with (S (length l)) by lia.
  rewrite seq_S, foldl_snoc. simpl. f_equal.
  apply fold_track_ext. by rewrite take_app_length, firstn_all.
Qed.

(** [day_sleeps] only depends on what the [asleep] block reads. *)
Lemma best_sleeps_ext l k :
  sleep_view <$> l = sleep_view <$> k → best_sleeps l = best_sleeps k.
Proof.
  intros H. unfold best_sleeps.
  assert (length l = length k) as <-.
  { apply (f_equal length) in H. by rewrite !length_fmap in H. }
  apply fold_track_ext. by rewrite !fmap_take, H.
Qed.

End DaySleeps.

Section Scan.

Implicit Types (r : DiaryStandardRecord) (l recs : list DiaryStandardRecord)
  (cfg : DiaryStandardSettings) (acc : option Z * N).

Lemma derive_all_length cfg acc l : length (derive_all cfg acc l) = length l.
Proof. revert acc. induction l; intros acc; simpl; [done|]. by rewrite IHl. Qed.

Lemma derive_all_snoc cfg acc l r :
  derive_all cfg acc (l ++ [r])
  = derive_all cfg acc l ++ [derive_record cfg (derive_acc cfg acc l) r].
Proof.
  revert acc. induction l as [|x l IH]; intros acc; simpl; [done|].
  by rewrite IH.
Qed.

Lemma derive_acc_snoc cfg acc l r :
  derive_acc cfg acc (l ++ [r]) = (derive_fields cfg (derive_acc cfg acc l) r).2.
Proof. unfold derive_acc. by rewrite foldl_snoc. Qed.

Lemma derive_all_lookup cfg acc l i :
  derive_all cfg acc l !! i
  = derive_record cfg (derive_acc cfg acc (take i l)) <$> l !! i.
Proof.
  revert acc i. induction l as [|x l IH]; intros acc [|i]; simpl; done.
Qed.

Lemma note_missing_record_status r r' p :
  status r = status r' → note_missing_record r p = note_missing_record r' p.
Proof. intros H. unfold note_missing_record. by rewrite H. Qed.

Lemma alter_pointwise {A} (f g : A → A) (j : nat) (xs : list A) :
  (∀ x, f x = g x) → alter f j xs = alter g j xs.
Proof.
  intros Hfg. by apply list_alter_ext.
Qed.

(** The loop agrees with the fold: the state after the callback ran on the
    first [k] records. *)
Lemma scan_upto_fold cfg l k :
  k ≤ length l →
  scan_upto cfg l k =
    mkScan (set_missing (derive_all cfg scan_start (take k l)) ++ drop k l)
           (derive_acc cfg scan_start (take k l)).1
           (derive_acc cfg scan_start (take k l)).2
           (best_sleeps (derive_all cfg scan_start (take k l)))
           (last_sleep_wake (derive_all cfg scan_start (take k l))).
Proof.
  induction k as [|k IH]; intros Hk.
  - done.
  - unfold scan_upto in *. rewrite seq_S, foldl_snoc, IH by lia. simpl.
    destruct (lookup_lt_is_Some_2 l k) as [r Hr]; [lia|].
    rewrite (take_S_r _ _ _ Hr), derive_all_snoc, derive_acc_snoc.
    set (P := derive_all cfg scan_start (take k l)).
    set (acc := derive_acc cfg scan_start (take k l)).
    assert (HP : length (set_missing P) = k).
    { unfold P. rewrite set_missing_length, derive_all_length, length_take. lia. }
    assert (HP' : length P = k) by (by rewrite set_missing_length in HP).
    unfold forEach_record; simpl.
    rewrite lookup_app_r by lia. rewrite HP, Nat.sub_diag.
    rewrite (drop_S _ _ _ Hr). simpl.
    replace (acc.1, acc.2) with acc by (by destruct acc).
    destruct (derive_fields cfg acc r) as [r' [day_start counter]] eqn:Ef.
    assert (Er' : derive_record cfg acc r = wrap_comments r')
      by (unfold derive_record; by rewrite Ef).
    rewrite Er'. simpl.
    assert (Hins : <[k:=r']> (set_missing P ++ r :: drop (S k) l)
                   = set_missing P ++ r' :: drop (S k) l).
    { rewrite insert_app_r_alt by lia. by rewrite HP, Nat.sub_diag. }
    rewrite Hins. unfold track_sleep_wake.
    rewrite lookup_app_r by lia. rewrite HP, Nat.sub_diag. simpl.
    rewrite set_missing_snoc, last_sleep_wake_snoc.
    rewrite (timing_is_sleep_wake _ _ (timing_wrap_comments r')).
    assert (Hrest : ∀ X : list DiaryStandardRecord, length X = k →
      sleep_view <$> X = sleep_view <$> P →
      let recs := X ++ r' :: drop (S k) l in
      alter wrap_comments k recs = (X ++ [wrap_comments r']) ++ drop (S k) l ∧
      track_day_sleeps recs (best_sleeps P) k = best_sleeps (P ++ [wrap_comments r'])).
    { intros X HX HXv recs. split.
      - unfold recs. rewrite alter_app_r_alt by lia.
        rewrite HX, Nat.sub_diag. simpl. by rewrite <- app_assoc.
      - rewrite best_sleeps_snoc, HP'. apply track_day_sleeps_ext.
        + unfold recs. rewrite !take_app_ge by lia.
          rewrite HX, HP'. replace (S k - k) with 1 by lia. simpl. rewrite take_0.
          by rewrite !fmap_app, HXv; simpl; rewrite sleep_view_wrap_comments.
        + intros d j Hj. apply best_sleeps_refers_below in Hj. lia. }
    assert (Hsm : sleep_view <$> set_missing P = sleep_view <$> P).
    { apply list_eq. intros i. rewrite !list_lookup_fmap, set_missing_lookup.
      destruct (P !! i); simpl; [|done]. by rewrite sleep_view_missing_after. }
    destruct (is_sleep_wake r') eqn:Esw.
    + destruct (last_sleep_wake P) as [j|] eqn:Ej; simpl.
      * assert (j < k) by (apply last_sleep_wake_lt in Ej; lia).
        rewrite alter_app_l by lia.
        destruct (Hrest (alter (note_missing_record r') j (set_missing P))) as [-> ->].
        { by rewrite length_alter. }
        { rewrite <- Hsm. apply list_eq. intros i.
          rewrite !list_lookup_fmap, list_lookup_alter.
          case_decide; [subst i|done].
          destruct (set_missing P !! j); simpl; [|done].
          by rewrite sleep_view_note_missing_record. }
        rewrite HP'. f_equal. f_equal. f_equal.
        apply alter_pointwise. intros p. apply note_missing_record_status.
        symmetry. apply timing_status, timing_wrap_comments.
      * destruct (Hrest (set_missing P)) as [-> ->]; [done..|]. by rewrite HP'.
    + destruct (Hrest (set_missing P)) as [-> ->]; [done..|]. done.
Qed.

End Scan.

Section PrimarySleep.

Implicit Types (r : DiaryStandardRecord) (l recs : list DiaryStandardRecord)
  (m : gmap N nat).

Lemma mark_primary_sleep_idemp r :
  mark_primary_sleep (mark_primary_sleep r) = mark_primary_sleep r.
Proof. unfold mark_primary_sleep. by destruct (is_primary_sleep r) eqn:E; simpl; rewrite ?E. Qed.

Lemma alter_entries_lookup (f : DiaryStandardRecord → DiaryStandardRecord)
    (es : list (N * nat)) recs i :
  (∀ r, f (f r) = f r) →
  foldr (λ entry acc, alter f entry.2 acc) recs es !! i
  = if decide (i ∈ es.*2) then f <$> recs !! i else recs !! i.
Proof.
  intros Hf. induction es as [|[d j] es IH]; simpl.
  - done.
  - change (list_fmap (N * nat)%type nat snd es) with (es.*2).
    rewrite list_lookup_alter. destruct (decide (j = i)) as [->|Hji].
    + rewrite IH. rewrite (decide_True (P := i ∈ i :: es.*2)) by apply list_elem_of_here.
      destruct (decide (i ∈ es.*2)); [|done].
      destruct (recs !! i); simpl; by rewrite ?Hf.
    + rewrite IH. destruct (decide (i ∈ es.*2)) as [Hi|Hi].
      * rewrite decide_True; [done|]. by apply list_elem_of_further.
      * rewrite decide_False; [done|]. rewrite elem_of_cons. intros [?|?]; done.
Qed.

Lemma elem_of_day_sleeps m i : i ∈ (map_to_list m).*2 ↔ ∃ d, m !! d = Some i.
Proof.
  rewrite list_elem_of_fmap. split.
  - intros ([d j] & -> & H). exists d. by apply elem_of_map_to_list.
  - intros [d H]. exists (d, i). split; [done|]. by apply elem_of_map_to_list.
Qed.

Lemma elem_of_array_elements m i :
  i ∈ (map_to_list (array_elements m)).*2
  ↔ ∃ d, (d < 4294967295)%N ∧ m !! d = Some i.
Proof.
  rewrite elem_of_day_sleeps. unfold array_elements. split.
  - intros [d H]. apply map_lookup_filter_Some in H as [H Hd]. by exists d.
  - intros (d & Hd & H). exists d. by apply map_lookup_filter_Some.
Qed.

(** The last loop marks the records the elements of [day_sleeps] refer
    to, and only those. *)
Lemma mark_day_sleeps_lookup m recs i :
  mark_day_sleeps m recs !! i
  = if decide (i ∈ (map_to_list (array_elements m)).*2)
    then mark_primary_sleep <$> recs !! i else recs !! i.
Proof. apply alter_entries_lookup, mark_primary_sleep_idemp. Qed.

Lemma mark_day_sleeps_length m recs : length (mark_day_sleeps m recs) = length recs.
Proof.
  unfold mark_day_sleeps.
  induction (map_to_list (array_elements m)) as [|e es IH]; simpl; [done|].
  by rewrite length_alter.
Qed.

(** The records of a new diary, by the fold. *)
Lemma new_DiaryStandard_records (contents_records : list DiaryStandardRecord)
    (contents_settings : FileSettings) :
  records (new_DiaryStandard contents_records contents_settings) =
    let derived := derive_all (default_settings contents_settings) scan_start
                     (sorted_records contents_records) in
    mark_day_sleeps (best_sleeps derived) (set_missing derived).
Proof.
  unfold new_DiaryStandard. simpl. rewrite scan_upto_fold by done. simpl.
  by rewrite firstn_all, drop_all, app_nil_r.
Qed.

Lemma longest_sleep_unique l d j j' :
  longest_sleep l d j → longest_sleep l d j' → j = j'.
Proof.
  intros (r & x & Hr & Ha & Hd & Hx & Hmax) (r' & x' & Hr' & Ha' & Hd' & Hx' & Hmax').
  destruct (Hmax _ _ _ Hr' Ha' Hd' Hx') as [H1 H2].
  destruct (Hmax' _ _ _ Hr Ha Hd Hx) as [H3 H4].
  assert (x = x') by lia. subst. specialize (H2 eq_refl). specialize (H4 eq_refl). lia.
Qed.

Lemma lookup_snoc_inv l r j r' :
  (l ++ [r]) !! j = Some r' → l !! j = Some r' ∨ (j = length l ∧ r' = r).
Proof.
  intros H. destruct (decide (j < length l)) as [Hj|Hj].
  - left. by rewrite lookup_app_l in H.
  - right. rewrite lookup_app_r in H by lia.
    destruct (j - length l) as [|q] eqn:E; simpl in H; [|by destruct q].
    split; [lia|congruence].
Qed.

(** A record that is not a sleep of day [d] with a duration, or whose
    duration does not exceed the one of the longest sleep so far, changes
    nothing for day [d]. *)
Lemma day_sleep_right_keep l r (o : option nat) d :
  day_sleep_right l o d →
  (is_asleep r = true → day_number r = Some d →
   ∀ x, duration r = Some x →
        ∃ j b y, o = Some j ∧ l !! j = Some b ∧ duration b = Some y ∧ (x ≤ y)%Z) →
  day_sleep_right (l ++ [r]) o d.
Proof.
  intros Ho Hr. destruct o as [j|]; simpl in *.
  - destruct Ho as (b & y & Hb & Ha & Hd & Hy & Hmax).
    exists b, y. split; [by apply lookup_app_l_Some|].
    split; [done|]. split; [done|]. split; [done|].
    intros j' r' x' Hj' Ha' Hd' Hx'.
    apply lookup_snoc_inv in Hj' as [Hj'|[-> ->]].
    + by apply (Hmax j' r' x').
    + destruct (Hr Ha' Hd' _ Hx') as (j0 & b0 & y0 & ? & ? & ? & ?). simplify_eq.
      apply lookup_lt_Some in Hb. lia.
  - intros j b Hb Ha Hd. apply lookup_snoc_inv in Hb as [Hb|[-> ->]].
    + by eapply Ho.
    + destruct (duration r) as [x|] eqn:Ex; [|done].
      destruct (Hr Ha Hd _ eq_refl) as (j0 & ? & ? & ? & _). congruence.
Qed.

(** A sleep longer than every sleep of day [d] so far becomes the longest
    sleep of the day. *)
Lemma day_sleep_right_new l r (o : option nat) d x :
  day_sleep_right l o d →
  is_asleep r = true → day_number r = Some d → duration r = Some x →
  (∀ j b y, o = Some j → l !! j = Some b → duration b = Some y → (y < x)%Z) →
  day_sleep_right (l ++ [r]) (Some (length l)) d.
Proof.
  intros Ho Ha Hd Hx Hlt. exists r, x.
  split; [by apply list_lookup_middle|].
  split; [done|]. split; [done|]. split; [done|].
  intros j' r' x' Hj' Ha' Hd' Hx'.
  apply lookup_snoc_inv in Hj' as [Hj'|[-> ->]].
  - destruct o as [j|]; simpl in Ho.
    + destruct Ho as (b & y & Hb & _ & _ & Hy & Hmax).
      destruct (Hmax _ _ _ Hj' Ha' Hd' Hx') as [Hle _].
      specialize (Hlt j b y eq_refl Hb Hy). lia.
    + specialize (Ho _ _ Hj' Ha' Hd'). congruence.
  - simplify_eq. lia.
Qed.

(** [day_sleeps] is right after the [asleep] block ran on every record. *)
Lemma best_sleeps_right l d : day_sleep_right l (best_sleeps l !! d) d.
Proof.
  revert d. induction l as [|r l IH] using rev_ind; intros d.
  - unfold best_sleeps. simpl. rewrite lookup_empty. by intros [|j] ?.
  - rewrite best_sleeps_snoc. unfold track_day_sleeps.
    rewrite list_lookup_middle by done.
    destruct (is_asleep r) eqn:Ha.
    2: { apply day_sleep_right_keep; [apply IH|congruence]. }
    destruct (day_number r) as [d0|] eqn:Hd.
    2: { apply day_sleep_right_keep; [apply IH|congruence]. }
    destruct (duration r) as [x|] eqn:Hx.
    2: { simpl. apply day_sleep_right_keep; [apply IH|congruence]. }
    pose proof (IH d0) as IH0.
    destruct (best_sleeps l !! d0) as [j|] eqn:Ej; simpl.
    + pose proof (best_sleeps_refers_below l _ _ Ej) as Hjl.
      rewrite lookup_app_l by done.
      simpl in IH0. destruct IH0 as (b & y & Hb & Hab & Hdb & Hy & Hmax).
      rewrite Hb. simpl. rewrite Hy.
      destruct (bool_decide (y < x)%Z) eqn:Hyx.
      * apply bool_decide_eq_true in Hyx.
        destruct (decide (d = d0)) as [->|Hne].
        -- rewrite lookup_insert_eq.
           apply (day_sleep_right_new l r (Some j) d0 x); try done.
           ++ exists b, y. done.
           ++ intros ? ? ? [= <-] ? ?. simplify_eq. done.
        -- rewrite lookup_insert_ne by done.
           apply day_sleep_right_keep; [apply IH|]. intros _ ?. congruence.
      * apply bool_decide_eq_false in Hyx.
        apply day_sleep_right_keep; [apply IH|].
        intros _ Hd' x' Hx'. simplify_eq. exists j, b, y. rewrite Ej.
        repeat split; try done. lia.
    + destruct (decide (d = d0)) as [->|Hne].
      * rewrite lookup_insert_eq.
        apply (day_sleep_right_new l r None d0 x); done.
      * rewrite lookup_insert_ne by done.
        apply day_sleep_right_keep; [apply IH|]. intros _ ?. congruence.
Qed.

Lemma best_sleeps_longest l d j :
  best_sleeps l !! d = Some j ↔ longest_sleep l d j.
Proof.
  pose proof (best_sleeps_right l d) as H. split.
  - intros E. by rewrite E in H.
  - intros Hj. destruct (best_sleeps l !! d) as [j'|]; simpl in H.
    + f_equal. by apply (longest_sleep_unique l d).
    + destruct Hj as (r & x & Hr & Ha & Hd & Hx & _).
      specialize (H _ _ Hr Ha Hd). congruence.
Qed.

End PrimarySleep.

Section Derived.

Implicit Types (r : DiaryStandardRecord) (l recs : list DiaryStandardRecord)
  (cfg : DiaryStandardSettings) (acc : option Z * N).

Lemma settled_fields_missing_after r later :
  settled_fields (missing_after r later) = settled_fields r.
Proof. unfold missing_after, note_missing_record. by repeat case_match. Qed.

Lemma settled_fields_mark_primary_sleep r :
  settled_fields (mark_primary_sleep r) = settled_fields r.
Proof. unfold mark_primary_sleep. by case_match. Qed.

Lemma is_primary_sleep_missing_after r later :
  is_primary_sleep (missing_after r later) = is_primary_sleep r.
Proof. unfold missing_after, note_missing_record. by repeat case_match. Qed.

Lemma is_primary_sleep_derive_record cfg acc r :
  is_primary_sleep (derive_record cfg acc r) = is_primary_sleep r.
Proof.
  unfold derive_record, wrap_comments, derive_fields, derive_day_number,
    derive_start_of_new_day, default_duration, delete_empty.
  by repeat (case_match; simpl in *; simplify_eq).
Qed.

Lemma missing_record_after_mark_primary_sleep r :
  missing_record_after (mark_primary_sleep r) = missing_record_after r.
Proof. unfold mark_primary_sleep. by case_match. Qed.

Lemma settled_sleep_view r r' :
  settled_fields r = settled_fields r' → sleep_view r = sleep_view r'.
Proof.
  unfold settled_fields, sleep_view, timing, is_asleep. intros H.
  injection H as Hs _ _ _ _ Hd _ _ Hn _. by rewrite Hs, Hd, Hn.
Qed.

(** The record a new diary has at index [i]: the derived record, with the
    two fields that are written later. *)
Lemma new_DiaryStandard_lookup (contents_records : list DiaryStandardRecord)
    (contents_settings : FileSettings) i :
  let derived := derive_all (default_settings contents_settings) scan_start
                   (sorted_records contents_records) in
  records (new_DiaryStandard contents_records contents_settings) !! i
  = (λ p, (if decide (i ∈ (map_to_list (array_elements (best_sleeps derived))).*2)
           then mark_primary_sleep else id)
            (missing_after p (drop (S i) derived))) <$> derived !! i.
Proof.
  intros derived. rewrite new_DiaryStandard_records. fold derived. cbv zeta.
  rewrite mark_day_sleeps_lookup, set_missing_lookup.
  case_decide; [|done]. by destruct (derived !! i).
Qed.

Lemma new_DiaryStandard_settled (contents_records : list DiaryStandardRecord)
    (contents_settings : FileSettings) :
  settled_fields <$> records (new_DiaryStandard contents_records contents_settings)
  = settled_fields <$> derive_all (default_settings contents_settings) scan_start
                         (sorted_records contents_records).
Proof.
  apply list_eq. intros i.
  rewrite !list_lookup_fmap, new_DiaryStandard_lookup.
  destruct (derive_all _ _ _ !! i) as [p|]; simpl; [|done].
  case_decide; simpl;
    by rewrite ?settled_fields_mark_primary_sleep, settled_fields_missing_after.
Qed.

Lemma fmap_settled_sleep_view l l' :
  settled_fields <$> l = settled_fields <$> l' → sleep_view <$> l = sleep_view <$> l'.
Proof.
  intros H. apply list_eq. intros i. apply (f_equal (λ x, x !! i)) in H.
  rewrite !list_lookup_fmap in *.
  destruct (l !! i) as [a|], (l' !! i) as [b|]; simpl in *; try done.
  f_equal. apply settled_sleep_view. congruence.
Qed.

Lemma sleep_view_at l l' i a :
  sleep_view <$> l = sleep_view <$> l' → l !! i = Some a →
  ∃ b, l' !! i = Some b ∧ is_asleep b = is_asleep a ∧
       day_number b = day_number a ∧ duration b = duration a.
Proof.
  intros H Ha. apply (f_equal (λ x, x !! i)) in H.
  rewrite !list_lookup_fmap, Ha in H.
  destruct (l' !! i) as [b|]; simpl in H; [|done].
  exists b. unfold sleep_view in H. injection H as -> -> ->. done.
Qed.

Lemma longest_sleep_ext l l' d j :
  sleep_view <$> l = sleep_view <$> l' → longest_sleep l d j → longest_sleep l' d j.
Proof.
  intros H (r & x & Hr & Ha & Hd & Hx & Hmax).
  destruct (sleep_view_at _ _ _ _ H Hr) as (a & Hlj & E1 & E2 & E3).
  exists a, x. split; [done|]. split; [congruence|].
  split; [congruence|]. split; [congruence|].
  intros j' r' x' Hj' Ha' Hd' Hx'.
  destruct (sleep_view_at _ _ _ _ (eq_sym H) Hj') as (b & Hb & E4 & E5 & E6).
  apply (Hmax j' b x'); congruence.
Qed.

End Derived.

Section PrimarySleepClaim.

Implicit Types (r : DiaryStandardRecord) (l recs : list DiaryStandardRecord).

Lemma sorted_records_Forall (P : DiaryStandardRecord → Prop) l :
  Forall P l → Forall P (sorted_records l).
Proof. intros H. unfold sorted_records. by rewrite sort_Permutation. Qed.

Lemma derive_all_is_primary_sleep cfg acc l i p :
  Forall (λ r, is_primary_sleep r = None) l →
  derive_all cfg acc l !! i = Some p → is_primary_sleep p = None.
Proof.
  intros Hl. rewrite derive_all_lookup.
  destruct (l !! i) as [r|] eqn:Er; simpl; [|done]. intros [= <-].
  rewrite is_primary_sleep_derive_record.
  by apply (Forall_lookup_1 _ _ _ _ Hl Er).
Qed.

(** What the pass leaves in [is_primary_sleep] of the record at index
    [i]: the value the input record brings, if any; otherwise [true] for
    the longest sleep of a day whose number is an array index, and nothing
    for any other record. *)
Lemma new_DiaryStandard_is_primary_sleep (contents_records : list DiaryStandardRecord)
    (contents_settings : FileSettings) (i : nat) (r_in r : DiaryStandardRecord) :
  let recs := records (new_DiaryStandard contents_records contents_settings) in
  sorted_records contents_records !! i = Some r_in → recs !! i = Some r →
  match is_primary_sleep r_in with
  | Some b => is_primary_sleep r = Some b
  | None =>
      (is_primary_sleep r = Some true ∧
       ∃ d, (d < 4294967295)%N ∧ longest_sleep recs d i) ∨
      (is_primary_sleep r = None ∧
       ¬ ∃ d, (d < 4294967295)%N ∧ longest_sleep recs d i)
  end.
Proof.
  intros recs Hin Hr.
  set (derived := derive_all (default_settings contents_settings) scan_start
                    (sorted_records contents_records)).
  assert (Hviews : sleep_view <$> recs = sleep_view <$> derived).
  { apply fmap_settled_sleep_view, new_DiaryStandard_settled. }
  assert (Hlong : ∀ d, best_sleeps derived !! d = Some i ↔ longest_sleep recs d i).
  { intros d. rewrite best_sleeps_longest. split; apply longest_sleep_ext; done. }
  unfold recs in Hr. rewrite new_DiaryStandard_lookup in Hr. cbv zeta in Hr.
  rewrite derive_all_lookup, Hin in Hr. simpl in Hr. fold derived in Hr.
  injection Hr as <-.
  assert (Hp : ∀ f, is_primary_sleep
                      (missing_after
                         (derive_record (default_settings contents_settings) f r_in)
                         (drop (S i) derived))
                    = is_primary_sleep r_in).
  { intros f. by rewrite is_primary_sleep_missing_after, is_primary_sleep_derive_record. }
  case_decide as Hk; rewrite elem_of_array_elements in Hk.
  - unfold mark_primary_sleep. rewrite Hp.
    destruct (is_primary_sleep r_in) as [b|] eqn:Eb.
    + by rewrite Hp.
    + left. split; [done|]. destruct Hk as (d & Hd & Hk). exists d.
      split; [done|]. by apply Hlong.
  - simpl. rewrite Hp. destruct (is_primary_sleep r_in) as [b|]; [done|].
    right. split; [done|]. intros (d & Hd & Hl). apply Hk. exists d.
    split; [done|]. by apply Hlong.
Qed.

End PrimarySleepClaim.

(** C1 (as amended).  A record that brings [is_primary_sleep] keeps its
    value; a record that does not gets [is_primary_sleep = true] exactly
    when it is the longest sleep of a day whose number is an array index
    (below [2^32 - 1]): an [asleep] record of the day whose duration is
    maximal among them and, of those with that duration, the first in the
    sorted list.  So when no record of the input brings
    [is_primary_sleep]: for every such day number that has an [asleep]
    record with a duration, exactly one record of that day has
    [is_primary_sleep = true] after the pass, the longest sleep of the
    day. *)
Theorem primary_sleep_unique (contents_records : list DiaryStandardRecord)
    (contents_settings : FileSettings) :
  let recs := records (new_DiaryStandard contents_records contents_settings) in
  (∀ i r_in r,
     sorted_records contents_records !! i = Some r_in → recs !! i = Some r →
     match is_primary_sleep r_in with
     | Some b => is_primary_sleep r = Some b
     | None =>
         (is_primary_sleep r = Some true ∧
          ∃ d, (d < 4294967295)%N ∧ longest_sleep recs d i) ∨
         (is_primary_sleep r = None ∧
          ¬ ∃ d, (d < 4294967295)%N ∧ longest_sleep recs d i)
     end) ∧
  (Forall (λ r, is_primary_sleep r = None) contents_records →
   ∀ d, (d < 4294967295)%N →
     (∃ i r, recs !! i = Some r ∧ is_asleep r = true ∧ day_number r = Some d ∧
             is_Some (duration r)) →
     ∃ j r, recs !! j = Some r ∧ day_number r = Some d ∧
            is_primary_sleep r = Some true ∧ longest_sleep recs d j ∧
            ∀ j' r', recs !! j' = Some r' → day_number r' = Some d →
                     is_primary_sleep r' = Some true → j' = j).
Proof.
  intros recs. split.
  { intros i r_in r. apply new_DiaryStandard_is_primary_sleep. }
  intros Hin d Hd (i & ri & Hi & Hai & Hdi & [xi Hxi]).
  set (derived := derive_all (default_settings contents_settings) scan_start
                    (sorted_records contents_records)).
  assert (Hviews : sleep_view <$> recs = sleep_view <$> derived).
  { apply fmap_settled_sleep_view, new_DiaryStandard_settled. }
  assert (Hlen : length recs = length (sorted_records contents_records)).
  { apply (f_equal length) in Hviews. rewrite !length_fmap in Hviews.
    rewrite Hviews. unfold derived. apply derive_all_length. }
  assert (Hout : ∀ k r, recs !! k = Some r →
            is_primary_sleep r = Some true ↔
            ∃ d', (d' < 4294967295)%N ∧ longest_sleep recs d' k).
  { intros k r Hk.
    destruct (lookup_lt_is_Some_2 (sorted_records contents_records) k) as [r_in Ek].
    { rewrite <- Hlen. by apply lookup_lt_Some in Hk. }
    pose proof (new_DiaryStandard_is_primary_sleep contents_records
                  contents_settings k r_in r Ek Hk) as H.
    assert (is_primary_sleep r_in = None) as Hnone.
    { apply (Forall_lookup_1 _ _ _ _ (sorted_records_Forall _ _ Hin) Ek). }
    rewrite Hnone in H. fold recs in H.
    destruct H as [[H1 H2]|[H1 H2]]; [done|]. rewrite H1. split; [done|].
    intros H. by destruct H2. }
  destruct (sleep_view_at _ _ _ _ Hviews Hi) as (pi & Hpi & E1 & E2 & E3).
  pose proof (best_sleeps_right derived d) as Hright.
  destruct (best_sleeps derived !! d) as [j|] eqn:Ej; simpl in Hright.
  2: { specialize (Hright _ _ Hpi). rewrite E1, E2, E3 in Hright.
       specialize (Hright Hai Hdi). congruence. }
  pose proof (longest_sleep_ext _ _ _ _ (eq_sym Hviews) Hright) as Hlong.
  pose proof Hlong as (r & x & Hr & Ha & Hdr & Hx & Hmax).
  exists j, r. split; [done|]. split; [done|].
  split; [apply (Hout j r Hr); by exists d|].
  split; [done|].
  intros j' r' Hj' Hd' Hp'.
  apply (Hout j' r' Hj') in Hp' as (d' & _ & Hl).
  pose proof Hl as (p' & x' & Hp' & _ & Hdp & _).
  assert (d' = d) by congruence. subst d'.
  by apply (longest_sleep_unique recs d).
Qed.

Lemma primary_sleep_unique_witness :
  ∃ j r, records (new_DiaryStandard [nap; night] no_settings) !! j = Some r ∧
         day_number r = Some 1%N ∧ is_primary_sleep r = Some true ∧ j = 1.
Proof.
  destruct (primary_sleep_unique [nap; night] no_settings) as [_ H].
  destruct (H ltac:(repeat constructor) 1%N)
    as (j & r & Hr & Hd & Hp & Hl & _).
  - reflexivity.
  - exists 0. eexists. vm_compute. repeat split. by eexists.
  - exists j, r. repeat split; try done.
    destruct Hl as (r' & x & Hr' & _ & _ & Hx & Hmax).
    destruct j as [|[|j]]; [|done|by vm_compute in Hr].
    exfalso. vm_compute in Hr'. injection Hr' as <-. vm_compute in Hx.
    injection Hx as <-.
    destruct (Hmax 1 (set_is_primary_sleep (Some true)
                        (set_start_of_new_day (Some false)
                           (set_day_number (Some 1%N)
                              (set_duration (Some (8 * hour)%Z) night))))
                     (8 * hour)%Z) as [Hle _]; try (vm_compute; reflexivity).
    vm_compute in Hle. by apply Hle.
Defined.

(** C1 as stated fails when a record brings [is_primary_sleep] itself: the
    pass leaves the property of [flagged_nap] alone and marks [night], the
    longest sleep of the same day, so two records of day 1 have
    [is_primary_sleep = true]. *)
Lemma primary_sleep_twice :
  ∃ a b, records (new_DiaryStandard [flagged_nap; night] no_settings) = [a; b] ∧
         is_asleep a = true ∧ is_Some (duration a) ∧
         day_number a = Some 1%N ∧ day_number b = Some 1%N ∧
         is_primary_sleep a = Some true ∧ is_primary_sleep b = Some true.
Proof.
  eexists _, _. split; [vm_compute; reflexivity|].
  repeat split; try (vm_compute; reflexivity). by eexists.
Qed.

(** The last array index and the number after it: the only sleep of day
    [2^32 - 2] is marked, the only sleep of day [2^32 - 1] is not. *)
Lemma primary_sleep_beyond_array :
  (∃ r, records (new_DiaryStandard [numbered_nap 4294967294] no_settings) = [r] ∧
        is_primary_sleep r = Some true) ∧
  (∃ r, records (new_DiaryStandard [numbered_nap 4294967295] no_settings) = [r] ∧
        is_asleep r = true ∧ is_Some (duration r) ∧
        day_number r = Some 4294967295%N ∧ is_primary_sleep r = None).
Proof.
  split; eexists; (split; [vm_compute; reflexivity|]).
  - reflexivity.
  - repeat split; try reflexivity. by eexists.
Qed.

Section DayNumber.

Implicit Types (r : DiaryStandardRecord) (l recs : list DiaryStandardRecord)
  (cfg : DiaryStandardSettings) (acc : option Z * N).

(** The counter holds the [day_number] of the record the callback was
    last called on. *)
Lemma derive_fields_counter cfg acc r :
  day_number (derive_fields cfg acc r).1 = Some (derive_fields cfg acc r).2.2.
Proof.
  unfold derive_fields, derive_day_number.
  destruct (derive_start_of_new_day _ _ _) as [r' ds].
  destruct (day_number r') eqn:E; simpl; [done|]. by case_match.
Qed.

Lemma day_number_wrap_comments r : day_number (wrap_comments r) = day_number r.
Proof. unfold wrap_comments. by repeat case_match. Qed.

Lemma start_of_new_day_wrap_comments r :
  start_of_new_day (wrap_comments r) = start_of_new_day r.
Proof. unfold wrap_comments. by repeat case_match. Qed.

Lemma start_wrap_comments r : start (wrap_comments r) = start r.
Proof. unfold wrap_comments. by repeat case_match. Qed.

Lemma derive_acc_counter cfg l i :
  i ≤ length l →
  (derive_acc cfg scan_start (take i l)).2
  = day_number_before (derive_all cfg scan_start l) i.
Proof.
  destruct i as [|i]; simpl; [done|]. intros Hi.
  destruct (lookup_lt_is_Some_2 l i) as [r Er]; [lia|].
  rewrite (take_S_r _ _ _ Er), derive_acc_snoc, derive_all_lookup, Er. simpl.
  unfold derive_record. by rewrite day_number_wrap_comments, derive_fields_counter.
Qed.

(** The [day_number] block, for a record that brings no [day_number]. *)
Lemma derive_fields_day_number cfg acc r :
  day_number r = None →
  let out := (derive_fields cfg acc r).1 in
  let tracked := (derive_start_of_new_day (minimum_day_duration cfg) acc.1
                    (default_duration (delete_empty r))).2 in
  (start_of_new_day out = Some true →
   day_number out =
     Some (acc.2 + if JS.gt (start out) (JS.add tracked (maximum_day_duration cfg))
                   then 2 else 1)%N) ∧
  (start_of_new_day out ≠ Some true → day_number out = Some acc.2).
Proof.
  intros Hr. cbv zeta. unfold derive_fields.
  assert (Hd : day_number (default_duration (delete_empty r)) = None).
  { unfold default_duration, delete_empty. by repeat (case_match; simpl). }
  assert (Hs : start (default_duration (delete_empty r)) = start r).
  { unfold default_duration, delete_empty. by repeat (case_match; simpl). }
  revert Hd Hs. generalize (default_duration (delete_empty r)). intros r1 Hd Hs.
  unfold derive_start_of_new_day, derive_day_number.
  destruct (start_of_new_day r1) as [[|]|] eqn:E; simpl; rewrite ?Hd, ?E; simpl.
  - split; [intros _|by rewrite E]. by destruct (JS.gt _ _).
  - split; [by rewrite E|done].
  - destruct (is_asleep r1 && JS.gt (start r1) (JS.add acc.1 (minimum_day_duration cfg)));
      simpl.
    + split; [intros _|done]. by destruct (JS.gt _ _).
    + split; [done|]. done.
Qed.

(** The [day_number] block, for a record that brings its [day_number]. *)
Lemma derive_fields_day_number_kept cfg acc r n :
  day_number r = Some n → day_number (derive_fields cfg acc r).1 = Some n.
Proof.
  intros Hr. unfold derive_fields.
  assert (Hd : day_number (default_duration (delete_empty r)) = Some n).
  { unfold default_duration, delete_empty. by repeat (case_match; simpl). }
  revert Hd. generalize (default_duration (delete_empty r)). intros r1 Hd.
  unfold derive_start_of_new_day, derive_day_number.
  destruct (start_of_new_day r1); simpl; by rewrite Hd.
Qed.

End DayNumber.




Section Idempotence.

Implicit Types (r : DiaryStandardRecord) (l recs : list DiaryStandardRecord)
  (cfg : DiaryStandardSettings) (acc : option Z * N).

Lemma start_end_after_asym a b :
  start_end_after a b = true → start_end_after b a = false.
Proof.
  unfold start_end_after, compare_start_end, JS.or, JS.truthy, JS.sub, JS.positive.
  destruct (start a), (start b), (end_ a), (end_ b); simpl;
    repeat (case_bool_decide; simpl); try done; try lia.
Qed.

Lemma start_end_after_timing a a' b b' :
  timing a = timing a' → timing b = timing b' →
  start_end_after a b = start_end_after a' b'.
Proof.
  unfold timing, start_end_after, compare_start_end.
  intros [= _ -> ->] [= _ -> ->]. done.
Qed.

Lemma in_place_timing l l' :
  timing <$> l = timing <$> l' →
  in_place start_end_after l → in_place start_end_after l'.
Proof.
  intros H Hl i x y Hx Hy.
  assert (Hlk : ∀ j a, l' !! j = Some a → ∃ b, l !! j = Some b ∧ timing b = timing a).
  { intros j a Ha. apply (f_equal (λ x, x !! j)) in H.
    rewrite !list_lookup_fmap, Ha in H. destruct (l !! j) as [b|]; simpl in H; [|done].
    exists b. split; [done|]. congruence. }
  destruct (Hlk _ _ Hx) as (x' & Hx' & Ex), (Hlk _ _ Hy) as (y' & Hy' & Ey).
  rewrite <- (start_end_after_timing _ _ _ _ Ex Ey). by apply (Hl i).
Qed.

Lemma delete_empty_tags r : tags (delete_empty r) ≠ Some [].
Proof.
  unfold delete_empty.
  destruct (tags r) as [[|t ts]|] eqn:E; case_decide; simpl; by rewrite ?E.
Qed.

Lemma delete_empty_comments r :
  comments (delete_empty r) = None ∨
  comments_length (comments (delete_empty r)) ≠ 0.
Proof.
  unfold delete_empty.
  destruct (tags r) as [[|t ts]|]; case_decide; simpl; auto.
Qed.

Lemma wrap_comments_comments r :
  comments r = None ∨ comments_length (comments r) ≠ 0 →
  comments (wrap_comments r) = None ∨
  ∃ c cs, comments (wrap_comments r) = Some (CommentsArray (c :: cs)).
Proof.
  unfold wrap_comments.
  destruct (comments r) as [[c|[|c cs]]|] eqn:E; simpl; rewrite ?E.
  - eauto.
  - intros [?|?]; done.
  - eauto.
  - auto.
Qed.

Lemma default_duration_duration r :
  duration (default_duration r) = None → JS.sub (end_ r) (start r) = None.
Proof. unfold default_duration. by destruct (duration r) eqn:E; simpl; rewrite ?E. Qed.

Lemma derive_start_of_new_day_is_Some min_day day_start r :
  is_Some (start_of_new_day (derive_start_of_new_day min_day day_start r).1).
Proof.
  unfold derive_start_of_new_day.
  destruct (start_of_new_day r) eqn:E; simpl; [by rewrite E|done].
Qed.

Lemma derive_day_number_is_Some max_day day_start counter r :
  is_Some (day_number (derive_day_number max_day day_start counter r).1).
Proof.
  unfold derive_day_number.
  destruct (day_number r) eqn:E; simpl; [by rewrite E|].
  by destruct (JS.is_true (start_of_new_day r)).
Qed.

(** What the steps after a step leave alone. *)
Lemma derive_start_of_new_day_keeps min_day day_start r :
  let r' := (derive_start_of_new_day min_day day_start r).1 in
  timing r' = timing r ∧ duration r' = duration r ∧ tags r' = tags r ∧
  comments r' = comments r ∧ day_number r' = day_number r.
Proof. unfold derive_start_of_new_day. by destruct (start_of_new_day r). Qed.

Lemma derive_day_number_keeps max_day day_start counter r :
  let r' := (derive_day_number max_day day_start counter r).1 in
  timing r' = timing r ∧ duration r' = duration r ∧ tags r' = tags r ∧
  comments r' = comments r ∧ start_of_new_day r' = start_of_new_day r.
Proof.
  unfold derive_day_number. destruct (day_number r); [done|].
  by destruct (JS.is_true (start_of_new_day r)).
Qed.

Lemma default_duration_keeps r :
  timing (default_duration r) = timing r ∧ tags (default_duration r) = tags r ∧
  comments (default_duration r) = comments r.
Proof. unfold default_duration. by destruct (duration r). Qed.

Lemma delete_empty_keeps r : timing (delete_empty r) = timing r.
Proof. unfold delete_empty. destruct (tags r) as [[|]|]; by case_decide. Qed.

Lemma wrap_comments_keeps r :
  timing (wrap_comments r) = timing r ∧ duration (wrap_comments r) = duration r ∧
  tags (wrap_comments r) = tags r ∧ day_number (wrap_comments r) = day_number r ∧
  start_of_new_day (wrap_comments r) = start_of_new_day r.
Proof. unfold wrap_comments. by destruct (comments r) as [[|]|]. Qed.

Lemma derive_record_is_settled cfg acc r : is_settled (derive_record cfg acc r).
Proof.
  unfold derive_record, derive_fields.
  set (r1 := delete_empty r). set (r2 := default_duration r1).
  destruct (derive_start_of_new_day (minimum_day_duration cfg) acc.1 r2)
    as [r3 day_start] eqn:E3.
  set (r4 := (derive_day_number (maximum_day_duration cfg) day_start acc.2 r3).1).
  assert (Er3 : r3 = (derive_start_of_new_day (minimum_day_duration cfg) acc.1 r2).1)
    by (by rewrite E3).
  destruct (wrap_comments_keeps r4) as (T5 & D5 & G5 & N5 & S5).
  destruct (derive_day_number_keeps (maximum_day_duration cfg) day_start acc.2 r3)
    as (T4 & D4 & G4 & C4 & S4).
  destruct (derive_start_of_new_day_keeps (minimum_day_duration cfg) acc.1 r2)
    as (T3 & D3 & G3 & C3 & N3).
  destruct (default_duration_keeps r1) as (T2 & G2 & C2).
  rewrite <- Er3 in T3, D3, G3, C3, N3. fold r4 in T4, D4, G4, C4, S4.
  fold r2 in T2, G2, C2.
  unfold is_settled. repeat split.
  - intros Hd. rewrite D5, D4, D3 in Hd. unfold r2 in Hd.
    apply default_duration_duration in Hd.
    assert (Ht : timing (wrap_comments r4) = timing r1) by congruence.
    unfold timing in Ht. injection Ht as _ -> ->. done.
  - rewrite G5, G4, G3, G2. apply delete_empty_tags.
  - apply wrap_comments_comments. rewrite C4, C3, C2. apply delete_empty_comments.
  - rewrite S5, S4, Er3. apply derive_start_of_new_day_is_Some.
  - rewrite N5. apply derive_day_number_is_Some.
Qed.

Lemma is_settled_fixed cfg acc r : is_settled r → derive_record cfg acc r = r.
Proof.
  destruct r as [st s e stz etz du tg co dn sn ps mr].
  unfold is_settled. simpl. intros (Hdu & Htg & Hco & [sn' ->] & [dn' ->]).
  unfold derive_record, wrap_comments, derive_fields,
    derive_day_number, derive_start_of_new_day, default_duration, delete_empty.
  destruct tg as [[|t tg]|]; [done|..];
    (destruct Hco as [->|(c & cs & ->)];
     destruct du as [du|]; simpl; rewrite ?Hdu by done; done).
Qed.

Lemma is_settled_ext r r' :
  settled_fields r = settled_fields r' → is_settled r → is_settled r'.
Proof.
  unfold settled_fields, timing, is_settled.
  intros [= _ <- <- _ _ <- <- <- <- <-]. done.
Qed.

Lemma derive_all_settled cfg acc l :
  Forall is_settled l → derive_all cfg acc l = l.
Proof.
  intros H. revert acc. induction H as [|r l Hr _ IH]; intros acc; simpl; [done|].
  by rewrite (is_settled_fixed _ _ _ Hr), IH.
Qed.

Lemma derive_all_is_settled cfg acc l : Forall is_settled (derive_all cfg acc l).
Proof.
  revert acc. induction l as [|r l IH]; intros acc; simpl; constructor; [|done].
  apply derive_record_is_settled.
Qed.

End Idempotence.

Section Rerun.

Implicit Types (r p : DiaryStandardRecord) (l recs : list DiaryStandardRecord)
  (cfg : DiaryStandardSettings) (acc : option Z * N).

Lemma settled_timing r r' : settled_fields r = settled_fields r' → timing r = timing r'.
Proof. unfold settled_fields. congruence. Qed.

Lemma fmap_settled_timing l l' :
  settled_fields <$> l = settled_fields <$> l' → timing <$> l = timing <$> l'.
Proof.
  intros H. apply list_eq. intros i. apply (f_equal (λ x, x !! i)) in H.
  rewrite !list_lookup_fmap in *.
  destruct (l !! i) as [a|], (l' !! i) as [b|]; simpl in *; try done.
  f_equal. apply settled_timing. congruence.
Qed.

Lemma find_is_sleep_wake_timing l l' :
  timing <$> l = timing <$> l' →
  List.find is_sleep_wake l = None ↔ List.find is_sleep_wake l' = None.
Proof.
  revert l'. induction l as [|a l IH]; intros [|b l'] H; try done.
  rewrite !fmap_cons in H.
  assert (Hab : timing a = timing b).
  { apply (f_equal head) in H. simpl in H. congruence. }
  assert (H' : timing <$> l = timing <$> l') by (by apply (f_equal tail) in H).
  simpl. rewrite (timing_is_sleep_wake _ _ Hab). destruct (is_sleep_wake b); [done|].
  by apply IH.
Qed.

Lemma note_missing_record_has n p :
  missing_record_after p ≠ None → note_missing_record n p = p.
Proof. unfold note_missing_record. by destruct (missing_record_after p). Qed.

Lemma note_missing_record_sets n p :
  missing_record_after (note_missing_record n p) ≠ None.
Proof. unfold note_missing_record. by destruct (missing_record_after p) eqn:E; simpl; rewrite ?E. Qed.

(** Once [missing_record_after] was written, the same block on the same
    records writes nothing. *)
Lemma missing_after_again (f : DiaryStandardRecord → DiaryStandardRecord)
    p later later' :
  (∀ r, timing (f r) = timing r) →
  (∀ r, missing_record_after (f r) = missing_record_after r) →
  (List.find is_sleep_wake later = None ↔ List.find is_sleep_wake later' = None) →
  missing_after (f (missing_after p later)) later' = f (missing_after p later).
Proof.
  intros Ht Hm Hf. unfold missing_after at 1.
  rewrite (timing_is_sleep_wake _ _ (Ht _)),
    (timing_is_sleep_wake _ _ (timing_missing_after _ _)).
  destruct (is_sleep_wake p) eqn:Ep; [|done].
  destruct (List.find is_sleep_wake later') as [n'|] eqn:E'; [|done].
  apply note_missing_record_has. rewrite Hm. unfold missing_after. rewrite Ep.
  destruct (List.find is_sleep_wake later) as [n|] eqn:E.
  - apply note_missing_record_sets.
  - destruct Hf as [Hf _]. specialize (Hf eq_refl). congruence.
Qed.

Lemma new_DiaryStandard_is_settled (contents_records : list DiaryStandardRecord)
    (contents_settings : FileSettings) :
  Forall is_settled (records (new_DiaryStandard contents_records contents_settings)).
Proof.
  apply Forall_lookup_2. intros i r Hr.
  pose proof (new_DiaryStandard_settled contents_records contents_settings) as H.
  apply (f_equal (λ x, x !! i)) in H. rewrite !list_lookup_fmap, Hr in H.
  destruct (derive_all _ _ _ !! i) as [p|] eqn:Ep; simpl in H; [|done].
  apply (is_settled_ext p); [congruence|].
  eapply Forall_lookup_1; [apply derive_all_is_settled|exact Ep].
Qed.

Lemma new_DiaryStandard_in_place (contents_records : list DiaryStandardRecord)
    (contents_settings : FileSettings) :
  in_place start_end_after
    (records (new_DiaryStandard contents_records contents_settings)).
Proof.
  apply (in_place_timing (sorted_records contents_records)).
  - symmetry. etransitivity.
    + apply fmap_settled_timing, new_DiaryStandard_settled.
    + apply list_eq. intros i. rewrite !list_lookup_fmap, derive_all_lookup.
      destruct (sorted_records contents_records !! i); simpl; [|done].
      by rewrite timing_derive_record.
  - apply sort_is_in_place, start_end_after_asym.
Qed.

Lemma new_DiaryStandard_set_missing (contents_records : list DiaryStandardRecord)
    (contents_settings : FileSettings) :
  set_missing (records (new_DiaryStandard contents_records contents_settings))
  = records (new_DiaryStandard contents_records contents_settings).
Proof.
  apply list_eq. intros i. rewrite set_missing_lookup.
  pose proof (new_DiaryStandard_lookup contents_records contents_settings i) as Hl.
  cbv zeta in Hl. rewrite Hl. clear Hl.
  set (recs := records (new_DiaryStandard contents_records contents_settings)).
  set (derived := derive_all (default_settings contents_settings) scan_start
                    (sorted_records contents_records)).
  assert (Ht : timing <$> recs = timing <$> derived)
    by apply fmap_settled_timing, new_DiaryStandard_settled.
  destruct (derived !! i) as [p|]; simpl; [|done]. f_equal.
  assert (Hf : List.find is_sleep_wake (drop (S i) derived) = None
               ↔ List.find is_sleep_wake (drop (S i) recs) = None).
  { apply find_is_sleep_wake_timing. by rewrite !fmap_drop, Ht. }
  case_decide.
  - apply (missing_after_again mark_primary_sleep); [| |done].
    + apply timing_mark_primary_sleep.
    + apply missing_record_after_mark_primary_sleep.
  - by apply (missing_after_again id).
Qed.

Lemma mark_day_sleeps_idemp (m : gmap N nat) recs :
  mark_day_sleeps m (mark_day_sleeps m recs) = mark_day_sleeps m recs.
Proof.
  apply list_eq. intros i. rewrite !mark_day_sleeps_lookup.
  case_decide; [|done]. destruct (recs !! i); simpl; [|done].
  by rewrite mark_primary_sleep_idemp.
Qed.

Lemma default_settings_again (f : FileSettings) :
  default_settings
    (mkFileSettings (Some (minimum_day_duration (default_settings f)))
                    (Some (maximum_day_duration (default_settings f))))
  = default_settings f.
Proof.
  unfold default_settings, JS.or_default. simpl.
  destruct (file_minimum_day_duration f) as [x|], (file_maximum_day_duration f) as [y|];
    repeat (case_bool_decide; simpl); try done; try lia.
Qed.

End Rerun.

Section RerunOrder.

Implicit Types (r p : DiaryStandardRecord) (l : list DiaryStandardRecord).

Lemma StronglySorted_fmap_eq {B} (f : DiaryStandardRecord → B)
    (R : DiaryStandardRecord → DiaryStandardRecord → Prop) l l' :
  (∀ a a' b b', f a = f a' → f b = f b' → R a b → R a' b') →
  f <$> l = f <$> l' → StronglySorted R l → StronglySorted R l'.
Proof.
  intros HR H Hl. revert l' H.
  induction Hl as [|a l Hl IH Ha]; intros [|a' l'] H; try done; [constructor|].
  rewrite !fmap_cons in H.
  assert (Ea : f a = f a') by (apply (f_equal head) in H; simpl in H; congruence).
  assert (El : f <$> l = f <$> l') by (by apply (f_equal tail) in H).
  constructor; [by apply IH|].
  apply Forall_lookup_2. intros i b' Hb'.
  apply (f_equal (λ x, x !! i)) in El. rewrite !list_lookup_fmap, Hb' in El.
  destruct (l !! i) as [b|] eqn:Eb; simpl in El; [|done].
  apply (HR a a' b b'); [done|congruence|].
  by apply (Forall_lookup_1 _ _ _ _ Ha Eb).
Qed.

(** On records with both times the comparator of the constructor is the
    order by start and then by end. *)
Lemma start_end_after_times a b :
  has_times a → has_times b →
  ∃ sa ea sb eb, start a = Some sa ∧ end_ a = Some ea ∧
                 start b = Some sb ∧ end_ b = Some eb ∧
                 (start_end_after a b = true ↔
                  (sb < sa ∨ (sb = sa ∧ eb < ea))%Z).
Proof.
  intros [[sa Ha] [ea Ha']] [[sb Hb] [eb Hb']].
  exists sa, ea, sb, eb. repeat (split; [done|]).
  unfold start_end_after, compare_start_end, JS.or, JS.truthy, JS.sub, JS.positive.
  rewrite Ha, Ha', Hb, Hb'. simpl.
  repeat (case_bool_decide; simpl); split; intros; try done; lia.
Qed.

Lemma start_end_after_consistent : consistent start_end_after has_times.
Proof.
  split; [|split].
  - intros x Hx. destruct (start_end_after_times x x Hx Hx)
      as (sa & ea & sb & eb & E1 & E2 & E3 & E4 & H).
    destruct (start_end_after x x); [|done]. exfalso.
    assert (Ht : true = true) by done. apply H in Ht. simplify_eq. lia.
  - intros x y Hx Hy E.
    destruct (start_end_after_times x y Hx Hy)
      as (sa & ea & sb & eb & E1 & E2 & E3 & E4 & H).
    destruct (start_end_after_times y x Hy Hx)
      as (sa' & ea' & sb' & eb' & E1' & E2' & E3' & E4' & H').
    simplify_eq. apply H in E.
    destruct (start_end_after y x); [|done]. exfalso.
    assert (Ht : true = true) by done. apply H' in Ht. lia.
  - intros x y z Hx Hy Hz Exy Eyz.
    destruct (start_end_after_times x y Hx Hy)
      as (sx & ex & sy & ey & E1 & E2 & E3 & E4 & Hxy).
    destruct (start_end_after_times y z Hy Hz)
      as (sy' & ey' & sz & ez & E1' & E2' & E3' & E4' & Hyz).
    destruct (start_end_after_times x z Hx Hz)
      as (sx' & ex' & sz' & ez' & E1'' & E2'' & E3'' & E4'' & Hxz).
    simplify_eq.
    destruct (start_end_after x z); [|done]. exfalso.
    assert (Ht : true = true) by done. apply Hxz in Ht.
    assert (¬ (sy < sx ∨ sy = sx ∧ ey < ex)%Z) by (rewrite <- Hxy; congruence).
    assert (¬ (sz < sy ∨ sz = sy ∧ ez < ey)%Z) by (rewrite <- Hyz; congruence).
    lia.
Qed.

Lemma has_times_timing a b : timing a = timing b → has_times a → has_times b.
Proof. unfold timing, has_times. intros [= _ <- <-]. done. Qed.

Lemma new_DiaryStandard_timing (contents_records : list DiaryStandardRecord)
    (contents_settings : FileSettings) :
  timing <$> sorted_records contents_records
  = timing <$> records (new_DiaryStandard contents_records contents_settings).
Proof.
  symmetry. etransitivity.
  - apply fmap_settled_timing, new_DiaryStandard_settled.
  - apply list_eq. intros i. rewrite !list_lookup_fmap, derive_all_lookup.
    destruct (sorted_records contents_records !! i); simpl; [|done].
    by rewrite timing_derive_record.
Qed.

Lemma new_DiaryStandard_has_times (contents_records : list DiaryStandardRecord)
    (contents_settings : FileSettings) :
  Forall has_times contents_records →
  Forall has_times (records (new_DiaryStandard contents_records contents_settings)).
Proof.
  intros H. apply Forall_lookup_2. intros i r Hr.
  pose proof (new_DiaryStandard_timing contents_records contents_settings) as Ht.
  apply (f_equal (λ x, x !! i)) in Ht. rewrite !list_lookup_fmap, Hr in Ht.
  destruct (sorted_records contents_records !! i) as [p|] eqn:Ep; simpl in Ht; [|done].
  apply (has_times_timing p); [congruence|].
  apply (Forall_lookup_1 _ _ _ _ (sorted_records_Forall _ _ H) Ep).
Qed.

(** With both times on every record, the stored list is in the order of
    the comparator. *)
Lemma new_DiaryStandard_sorted (contents_records : list DiaryStandardRecord)
    (contents_settings : FileSettings) :
  Forall has_times contents_records →
  StronglySorted (λ a b, start_end_after a b = false)
    (records (new_DiaryStandard contents_records contents_settings)).
Proof.
  intros H.
  apply (StronglySorted_fmap_eq timing _ (sorted_records contents_records)).
  - intros a a' b b' Ha Hb. by rewrite (start_end_after_timing a a' b b').
  - apply new_DiaryStandard_timing.
  - by apply (sort_sorted start_end_after has_times start_end_after_consistent).
Qed.

(** The sort of a list of records with both times that is in order. *)
Lemma sort_sorted_records l :
  Forall has_times l → StronglySorted (λ a b, start_end_after a b = false) l →
  JS.sort start_end_after l = l.
Proof.
  intros Hl Hs.
  apply (sorted_stably_fixed start_end_after has_times start_end_after_consistent);
    [done|done|].
  by apply (sort_sorted_stably start_end_after has_times start_end_after_consistent).
Qed.

(** The sort commutes with a map that the comparator does not see. *)
Lemma sort_fmap {A B} (f : A → B) (after : A → A → bool) (after' : B → B → bool)
    (k : list A) :
  (∀ a b, after' (f a) (f b) = after a b) →
  JS.sort after' (f <$> k) = f <$> JS.sort after k.
Proof.
  intros H. induction k as [|x k IH]; [done|].
  rewrite fmap_cons. cbn [JS.sort foldr]. fold (JS.sort after' (f <$> k)).
  fold (JS.sort after k). rewrite IH. generalize (JS.sort after k). intros s.
  induction s as [|y s IHs]; [done|]. rewrite fmap_cons. cbn [JS.sort_insert].
  rewrite H. destruct (after x y); [|done]. by rewrite IHs, fmap_cons.
Qed.

(** For records without a [null] time the two embeddings of the
    constructor agree. *)
Lemma new_DiaryStandard_contents_plain (contents_records : list DiaryStandardRecord)
    (contents_settings : FileSettings) :
  new_DiaryStandard_contents
    ((λ r, mkContentsRecord r false false) <$> contents_records) contents_settings
  = new_DiaryStandard contents_records contents_settings.
Proof.
  unfold new_DiaryStandard_contents, new_DiaryStandard, sorted_records.
  rewrite (sort_fmap _ start_end_after).
  2: { intros a b.
       unfold start_end_after, compare_contents, compare_start_end, contents_number.
       simpl. by destruct (start a), (start b), (end_ a), (end_ b). }
  rewrite <- list_fmap_compose.
  assert (E : ∀ k : list DiaryStandardRecord,
            (properties ∘ (λ r, mkContentsRecord r false false)) <$> k = k).
  { intros k. induction k as [|x k IH]; [done|]. by rewrite fmap_cons, IH. }
  by rewrite E.
Qed.

End RerunOrder.




(** ** The analytics methods and the store *)

(** The four summaries return the diary object as they found it. *)
Lemma summaries_leave_diary (f g : option (DiaryStandardRecord → bool))
    (zone : string → option (Z → Z)) (system_timezone : string)
    (rounded_lower : DiaryStandardStatistics → DiaryStandardStatistics → bool)
    (day_length : option Z) (timezone : option string) (this : DiaryStandard) :
  (summarise_records f this).2 = this ∧
  (summarise_days f this).2 = this ∧
  (total_per_day f g this).2 = this ∧
  (summarise_schedule zone system_timezone rounded_lower f day_length timezone
     this).2 = this.
Proof. done. Qed.

(** C3 fails for [daily_activities]: the diary the constructor builds from
    [open_sleep] and [long_wake] stores them in this order; the sort at the
    start of [daily_activities] swaps them, and [latest_sleep_status]
    answers differently afterwards. *)
Theorem daily_activities_reorders :
  let d := new_DiaryStandard [open_sleep; long_wake] no_settings in
  ∃ a b, records d = [a; b] ∧ a ≠ b ∧
         records (daily_activities_effect d) = [b; a] ∧
         latest_sleep_status d = "awake" ∧
         latest_sleep_status (daily_activities_effect d) = "asleep".
Proof.
  eexists _, _. split; [vm_compute; reflexivity|].
  split; [discriminate|]. repeat split; vm_compute; reflexivity.
Qed.

Section Remainder.

Lemma Qfloor_unique (x : Q) (k : Z) :
  (inject_Z k <= x)%Q → (x < inject_Z (k + 1))%Q → Qfloor x = k.
Proof.
  intros H1 H2.
  pose proof (Qfloor_le x) as F1. pose proof (Qlt_floor x) as F2.
  assert (Qfloor x < k + 1)%Z.
  { rewrite Zlt_Qlt. eapply Qle_lt_trans; eassumption. }
  assert (k < Qfloor x + 1)%Z.
  { rewrite Zlt_Qlt. eapply Qle_lt_trans; eassumption. }
  lia.
Qed.

(** [a % b] for a dividend that is [k] times the divisor plus a rest
    below the divisor. *)
Lemma rem_unique (a b r : Q) (k : Z) :
  (0 < b)%Q → (0 ≤ k)%Z → (0 <= r)%Q → (r < b)%Q →
  (a == b * inject_Z k + r)%Q → (JS.rem a b == r)%Q.
Proof.
  intros Hb Hk Hr0 Hrb Ha. unfold JS.rem.
  assert (Hq : (a / b == inject_Z k + r / b)%Q).
  { rewrite Ha. field. intros E. rewrite E in Hb. by apply Qlt_irrefl in Hb. }
  assert (Hk' : (0 <= inject_Z k)%Q) by (change 0%Q with (inject_Z 0); by rewrite <- Zle_Qle).
  assert (Hrb0 : (0 <= r / b)%Q).
  { apply Qle_shift_div_l; [done|]. by rewrite Qmult_0_l. }
  assert (Hrb1 : (r / b < 1)%Q).
  { apply Qlt_shift_div_r; [done|]. by rewrite Qmult_1_l. }
  assert (Ht : JS.trunc (a / b) = k).
  { unfold JS.trunc.
    assert (JS.lt_num (a / b) 0 = false) as ->.
    { apply lt_num_false. rewrite Hq. lra. }
    apply Qfloor_unique; rewrite Hq.
    - lra.
    - rewrite inject_Z_plus. change (inject_Z 1) with 1%Q. lra. }
  rewrite Ht, Ha. ring.
Qed.

End Remainder.

Section Variance.

Implicit Types (l : list Q) (m : Q).

Lemma inject_Z_length_cons {A} (x : A) (k : list A) :
  (inject_Z (Z.of_nat (length (x :: k))) == inject_Z (Z.of_nat (length k)) + 1)%Q.
Proof.
  simpl length. rewrite Nat2Z.inj_succ, <- Z.add_1_r, inject_Z_plus. reflexivity.
Qed.

Lemma sum_of_squares_expand m l :
  (sum_of_squares m l ==
   Qsum ((λ x, x * x) <$> l) - 2 * m * Qsum l
   + inject_Z (Z.of_nat (length l)) * m * m)%Q.
Proof.
  unfold sum_of_squares.
  assert (G : ∀ a,
    (foldl (λ a r, a + (r - m) ^ 2) a l ==
     a + (Qsum ((λ x, x * x) <$> l) - 2 * m * Qsum l
          + inject_Z (Z.of_nat (length l)) * m * m))%Q).
  { induction l as [|x l IH]; intros a.
    - simpl. ring.
    - change (foldl (λ a r, a + (r - m) ^ 2)%Q a (x :: l))
        with (foldl (λ a r, a + (r - m) ^ 2)%Q (a + (x - m) ^ 2)%Q l).
      rewrite IH, inject_Z_length_cons, fmap_cons.
      change (Qsum ((x * x)%Q :: ((λ x, x * x)%Q <$> l)))
        with (x * x + Qsum ((λ x, x * x) <$> l))%Q.
      change (Qsum (x :: l)) with (x + Qsum l)%Q.
      change ((x - m) ^ 2)%Q with ((x - m) * (x - m))%Q. ring. }
  rewrite G. ring.
Qed.

Lemma Qsum_fmap_Permutation (f : Q → Q) l k :
  l ≡ₚ k → (Qsum (f <$> l) == Qsum (f <$> k))%Q.
Proof. intros H. apply Qsum_Permutation. by apply fmap_Permutation. Qed.

(** The square of the standard deviation, times the square of the number
    of values: [n * sum of squares - square of the sum]. *)
Lemma variance_scaled (arr : list (option entry)) (p : option Z)
    (s : DiaryStandardStatistics) :
  summarise arr p = JS.Normal (Some s) →
  let v := defined_values arr in
  let n := inject_Z (Z.of_nat (length v)) in
  (0 < n)%Q ∧
  (mean s * n == Qsum v)%Q ∧
  (standard_deviation_squared s * n * n
   == n * Qsum ((λ x, x * x) <$> v) - Qsum v * Qsum v)%Q.
Proof.
  intros Hs v n.
  destruct (decide (defined_values arr = [])) as [E|E].
  { unfold summarise in Hs. rewrite E in Hs. simpl in Hs. done. }
  destruct (summarise_defined arr p E)
    as (s' & Hs' & Hmean & _ & _ & _ & _ & _ & _ & Hsd).
  rewrite Hs in Hs'. injection Hs' as <-.
  set (sorted := JS.sort a_minus_b_after (defined_values arr)) in *.
  assert (Hperm : sorted ≡ₚ v) by apply sort_Permutation.
  assert (Hlen : length sorted = length v) by apply sort_length.
  rewrite Hlen in Hmean, Hsd. fold n in Hmean, Hsd.
  assert (Hn : (0 < n)%Q).
  { unfold n. change 0%Q with (inject_Z 0). rewrite <- Zlt_Qlt.
    fold v in E. destruct v; [done|simpl; lia]. }
  assert (Hn0 : ¬ (n == 0)%Q) by (intros E0; rewrite E0 in Hn; by apply Qlt_irrefl in Hn).
  rewrite (Qsum_Permutation _ _ Hperm) in Hmean.
  rewrite sum_of_squares_expand, Hlen in Hsd. fold n in Hsd.
  rewrite (Qsum_Permutation _ _ Hperm), (Qsum_fmap_Permutation _ _ _ Hperm) in Hsd.
  split; [done|]. split.
  - rewrite Hmean. by field.
  - rewrite Hsd, Hmean. by field.
Qed.

End Variance.

Section AroundMidnight.

Variables day_length delta : Z.
Variable rounded_lower : DiaryStandardStatistics → DiaryStandardStatistics → bool.
Hypothesis day_length_pos : (0 < day_length)%Z.
Hypothesis delta_nonneg : (0 ≤ delta)%Z.
Hypothesis delta_quarter : (4 * delta < day_length)%Z.

Local Abbreviation D := (inject_Z day_length).
Local Abbreviation half := (inject_Z day_length / 2)%Q.
Local Abbreviation e := (time_of_day day_length).
Local Abbreviation h := (before_midnight day_length delta).

Lemma D_pos : (0 < D)%Q.
Proof. change 0%Q with (inject_Z 0). by rewrite <- Zlt_Qlt. Qed.

Lemma half_twice : (half + half == D)%Q.
Proof. field. Qed.

Lemma delta_strict : (4 * inject_Z delta < D)%Q.
Proof. change 4%Q with (inject_Z 4). rewrite <- inject_Z_mult. by rewrite <- Zlt_Qlt. Qed.

Lemma delta_facts : (0 <= inject_Z delta)%Q ∧ (4 * inject_Z delta <= D)%Q.
Proof.
  split.
  - change 0%Q with (inject_Z 0). by rewrite <- Zle_Qle.
  - apply Qlt_le_weak, delta_strict.
Qed.

Lemma time_of_day_range t : (0 <= e t)%Q ∧ (e t < D)%Q.
Proof.
  unfold time_of_day. pose proof (Z.mod_pos_bound t day_length day_length_pos) as [H1 H2].
  split.
  - change 0%Q with (inject_Z 0). by rewrite <- Zle_Qle.
  - by rewrite <- Zlt_Qlt.
Qed.

Lemma time_of_day_side t :
  near_midnight day_length delta t →
  (h t == 0 ∧ e t <= inject_Z delta)%Q ∨
  (h t == 1 ∧ D - inject_Z delta <= e t)%Q.
Proof.
  intros [_ Ht]. unfold before_midnight, time_of_day.
  destruct (decide (t `mod` day_length ≤ delta)%Z) as [Hle|Hgt].
  - left. split; [reflexivity|]. by rewrite <- Zle_Qle.
  - right. split; [reflexivity|]. destruct Ht as [?|Ht]; [lia|].
    unfold Qminus. rewrite <- inject_Z_opp, <- inject_Z_plus. by rewrite <- Zle_Qle.
Qed.

(** The value of the early series. *)
Lemma early_value_time_of_day t :
  (0 ≤ t)%Z → (JS.rem (inject_Z t) D == e t)%Q.
Proof.
  intros Ht. pose proof (time_of_day_range t) as [H1 H2].
  apply (rem_unique _ _ _ (t `div` day_length)); try done.
  - apply D_pos.
  - by apply Z.div_pos.
  - unfold time_of_day. rewrite <- inject_Z_mult, <- inject_Z_plus.
    by rewrite <- Z.div_mod by lia.
Qed.

(** The value of the late series: half a day later for a time after
    midnight, half a day earlier for a time before it. *)
Lemma late_value_time_of_day t :
  near_midnight day_length delta t →
  (JS.rem (inject_Z t + half) D == e t + half - D * h t)%Q.
Proof.
  intros Hn. pose proof Hn as [Ht _].
  pose proof (time_of_day_range t) as [H1 H2].
  pose proof D_pos as HD. pose proof half_twice as Hh.
  pose proof delta_facts as [Hd0 Hd4].
  assert (Hdiv : (inject_Z t == D * inject_Z (t `div` day_length) + e t)%Q).
  { unfold time_of_day. rewrite <- inject_Z_mult, <- inject_Z_plus.
    by rewrite <- Z.div_mod by lia. }
  assert (Hk : (0 ≤ t `div` day_length)%Z) by (by apply Z.div_pos).
  destruct (time_of_day_side t Hn) as [[Eh Hlow]|[Eh Hhigh]]; rewrite Eh.
  - apply (rem_unique _ _ _ (t `div` day_length)); try done.
    + revert H1 Hh HD. generalize half. intros x. lra.
    + revert H1 Hh HD Hlow Hd4. generalize half. intros x. lra.
    + rewrite Hdiv. ring.
  - apply (rem_unique _ _ _ (t `div` day_length + 1)); try lia.
    + done.
    + revert H1 Hh HD Hhigh Hd0 Hd4. generalize half. intros x. lra.
    + revert H2 Hh HD. generalize half. intros x. lra.
    + rewrite Hdiv, inject_Z_plus. change (inject_Z 1) with 1%Q. ring.
Qed.


Lemma Qsum_fmap_ext (f g : Z → Q) (times : list Z) :
  Forall (λ t, f t == g t)%Q times → (Qsum (f <$> times) == Qsum (g <$> times))%Q.
Proof.
  induction 1 as [|t times Ht _ IH]; [reflexivity|].
  rewrite !fmap_cons.
  change (Qsum (f t :: (f <$> times))) with (f t + Qsum (f <$> times))%Q.
  change (Qsum (g t :: (g <$> times))) with (g t + Qsum (g <$> times))%Q.
  by rewrite Ht, IH.
Qed.

Lemma Qsum_fmap_cons (f : Z → Q) (t : Z) (times : list Z) :
  Qsum (f <$> t :: times) = (f t + Qsum (f <$> times))%Q.
Proof. reflexivity. Qed.

(** The sums over the late series, from the sums over the times of
    day. *)
Lemma late_sums (times : list Z) :
  Forall (near_midnight day_length delta) times →
  let n := inject_Z (Z.of_nat (length times)) in
  let A := Qsum (e <$> times) in
  let B := Qsum ((λ t, e t * e t)%Q <$> times) in
  let H := Qsum (h <$> times) in
  let Sh := Qsum ((λ t, e t * h t)%Q <$> times) in
  (Qsum ((λ t, e t + half - D * h t)%Q <$> times) == A + n * half - D * H)%Q ∧
  (Qsum ((λ t, (e t + half - D * h t) * (e t + half - D * h t))%Q <$> times)
   == B + n * half * half + D * A - 2 * D * Sh)%Q.
Proof.
  cbv zeta. induction 1 as [|t times Ht _ [IH1 IH2]].
  - simpl. split; ring.
  - rewrite !Qsum_fmap_cons, inject_Z_length_cons, IH1, IH2.
    pose proof half_twice as Hh.
    assert (Hhh : (h t * h t == h t)%Q).
    { destruct (time_of_day_side t Ht) as [[-> _]|[-> _]]; ring. }
    split; [ring|].
    assert (Hx : ((e t + half - D * h t) * (e t + half - D * h t)
                  == e t * e t + half * half + D * e t - 2 * D * (e t * h t))%Q).
    { transitivity (e t * e t + half * half + (half + half) * e t
                    - (half + half) * D * h t - 2 * D * (e t * h t)
                    + D * D * (h t * h t))%Q; [ring|].
      rewrite Hhh, Hh. ring. }
    rewrite Hx. ring.
Qed.

(** What the times of day add up to on each side of midnight. *)
Lemma side_sums (times : list Z) :
  Forall (near_midnight day_length delta) times →
  let n := inject_Z (Z.of_nat (length times)) in
  let A := Qsum (e <$> times) in
  let H := Qsum (h <$> times) in
  let Sh := Qsum ((λ t, e t * h t)%Q <$> times) in
  (0 <= H)%Q ∧ (H <= n)%Q ∧
  ((D - inject_Z delta) * H <= Sh)%Q ∧ (Sh <= D * H)%Q ∧
  (0 <= A - Sh)%Q ∧ (A - Sh <= inject_Z delta * (n - H))%Q.
Proof.
  cbv zeta. induction 1 as [|t times Ht _ IH].
  - simpl. change (inject_Z (Z.of_nat 0)) with 0%Q.
    generalize D (inject_Z delta). intros d dl. repeat split; lra.
  - rewrite !Qsum_fmap_cons, inject_Z_length_cons.
    destruct IH as (I1 & I2 & I3 & I4 & I5 & I6).
    pose proof (time_of_day_range t) as [R1 R2].
    pose proof delta_facts as [Hd0 Hd4]. pose proof D_pos as HD.
    destruct (time_of_day_side t Ht) as [[-> Hlow]|[-> Hhigh]];
      revert I1 I2 I3 I4 I5 I6 R1 R2 Hd0 Hd4 HD; try revert Hlow; try revert Hhigh;
      generalize (Qsum (e <$> times)) (Qsum (h <$> times))
        (Qsum ((λ t, e t * h t)%Q <$> times)) (inject_Z (Z.of_nat (length times)))
        (e t) D (inject_Z delta);
      intros A H Sh n x d dl; intros; repeat split; nra.
Qed.


(** With every time within a quarter of a day of midnight, the late
    series is not more spread than the early one. *)
Lemma late_spread_le (n A B H Sh d dl hf : Q) :
  (hf + hf == d)%Q → (0 < d)%Q → (0 <= dl)%Q → (4 * dl <= d)%Q →
  (0 <= H)%Q → (H <= n)%Q → ((d - dl) * H <= Sh)%Q →
  (0 <= A - Sh)%Q → (A - Sh <= dl * (n - H))%Q →
  (n * (B + n * hf * hf + d * A - 2 * d * Sh)
   - (A + n * hf - d * H) * (A + n * hf - d * H)
   <= n * B - A * A)%Q.
Proof.
  intros Hh Hd Hdl Hq H0 Hn HSh HA0 HA.
  set (X := (n - H)%Q). set (Y := (Sh - (d - dl) * H)%Q).
  set (W := (dl * (n - H) - (A - Sh))%Q).
  assert (HX : (0 <= X)%Q) by (unfold X; lra).
  assert (HY : (0 <= Y)%Q) by (unfold Y; lra).
  assert (HW : (0 <= W)%Q) by (unfold W; lra).
  assert (P1 : (0 <= d * (X * Y))%Q).
  { apply Qmult_le_0_compat; [lra|]. by apply Qmult_le_0_compat. }
  assert (P2 : (0 <= d * ((d - 4 * dl) * (X * H)))%Q).
  { apply Qmult_le_0_compat; [lra|]. apply Qmult_le_0_compat; [lra|].
    by apply Qmult_le_0_compat. }
  assert (P3 : (0 <= d * (H * W))%Q).
  { apply Qmult_le_0_compat; [lra|]. by apply Qmult_le_0_compat. }
  assert (E : (n * B - A * A
               - (n * (B + n * hf * hf + d * A - 2 * d * Sh)
                  - (A + n * hf - d * H) * (A + n * hf - d * H))
               == 2 * (d * (X * Y)) + d * ((d - 4 * dl) * (X * H))
                  + 2 * (d * (H * W)))%Q).
  { unfold X, Y, W. rewrite <- Hh. ring. }
  apply Qle_minus_iff. unfold Qminus in E. rewrite E. lra.
Qed.


(** The two series are equally spread only when the times are all on
    one side of midnight. *)
Lemma late_spread_tie (n A B H Sh d dl hf : Q) :
  (hf + hf == d)%Q → (0 < d)%Q → (0 <= dl)%Q → (4 * dl < d)%Q →
  (0 <= H)%Q → (H <= n)%Q → ((d - dl) * H <= Sh)%Q →
  (0 <= A - Sh)%Q → (A - Sh <= dl * (n - H))%Q →
  (n * (B + n * hf * hf + d * A - 2 * d * Sh)
   - (A + n * hf - d * H) * (A + n * hf - d * H)
   == n * B - A * A)%Q →
  (H == 0)%Q ∨ (H == n)%Q.
Proof.
  intros Hh Hd Hdl Hq H0 Hn HSh HA0 HA Htie.
  set (X := (n - H)%Q). set (Y := (Sh - (d - dl) * H)%Q).
  set (W := (dl * (n - H) - (A - Sh))%Q).
  assert (HX : (0 <= X)%Q) by (unfold X; lra).
  assert (HY : (0 <= Y)%Q) by (unfold Y; lra).
  assert (HW : (0 <= W)%Q) by (unfold W; lra).
  assert (P1 : (0 <= d * (X * Y))%Q).
  { apply Qmult_le_0_compat; [lra|]. by apply Qmult_le_0_compat. }
  assert (P2 : (0 <= d * ((d - 4 * dl) * (X * H)))%Q).
  { apply Qmult_le_0_compat; [lra|]. apply Qmult_le_0_compat; [lra|].
    by apply Qmult_le_0_compat. }
  assert (P3 : (0 <= d * (H * W))%Q).
  { apply Qmult_le_0_compat; [lra|]. by apply Qmult_le_0_compat. }
  assert (E : (n * B - A * A
               - (n * (B + n * hf * hf + d * A - 2 * d * Sh)
                  - (A + n * hf - d * H) * (A + n * hf - d * H))
               == 2 * (d * (X * Y)) + d * ((d - 4 * dl) * (X * H))
                  + 2 * (d * (H * W)))%Q).
  { unfold X, Y, W. rewrite <- Hh. ring. }
  assert (Z2 : (d * ((d - 4 * dl) * (X * H)) == 0)%Q).
  { rewrite Htie in E. revert E P1 P2 P3.
    generalize (d * (X * Y))%Q (d * ((d - 4 * dl) * (X * H)))%Q (d * (H * W))%Q
      (n * B - A * A)%Q.
    intros p1 p2 p3 v E; intros. lra. }
  apply Qmult_integral in Z2 as [Z2|Z2]; [lra|].
  apply Qmult_integral in Z2 as [Z2|Z2]; [lra|].
  apply Qmult_integral in Z2 as [Z2|Z2]; [right; unfold X in Z2; lra|by left].
Qed.

(** The times of day add up to less than as many days. *)
Lemma time_of_day_sum (times : list Z) :
  (Qsum (e <$> times) <= (D - 1) * inject_Z (Z.of_nat (length times)))%Q.
Proof.
  induction times as [|t times IH].
  - simpl. change (inject_Z (Z.of_nat 0)) with 0%Q. lra.
  - rewrite Qsum_fmap_cons, inject_Z_length_cons.
    assert (Ht : (e t <= D - 1)%Q).
    { unfold time_of_day. change 1%Q with (inject_Z 1).
      unfold Qminus. rewrite <- inject_Z_opp, <- inject_Z_plus, <- Zle_Qle.
      pose proof (Z.mod_pos_bound t day_length day_length_pos). lia. }
    revert IH Ht. generalize (Qsum (e <$> times)) (e t) D
      (inject_Z (Z.of_nat (length times))). intros a x d n; intros. lra.
Qed.

Lemma series_early_values (times : list Z) :
  defined_values (series_early day_length times)
  = (λ t, JS.rem (inject_Z t) D) <$> times.
Proof.
  unfold series_early, defined_values.
  induction times as [|t times IH]; [done|]. simpl. by f_equal.
Qed.

Lemma series_late_values (times : list Z) :
  defined_values (series_late day_length times)
  = (λ t, JS.rem (inject_Z t + half) D) <$> times.
Proof.
  unfold series_late, defined_values.
  induction times as [|t times IH]; [done|]. simpl. by f_equal.
Qed.

Lemma Qsum_squares_fmap (f : Z → Q) (times : list Z) :
  Qsum ((λ x, x * x)%Q <$> (f <$> times)) = Qsum ((λ t, f t * f t)%Q <$> times).
Proof. by rewrite <- list_fmap_compose. Qed.

(** The statistics [summarise_schedule] reports for times of day that are
    all within [delta] of midnight: the average is within [delta] of
    midnight too, whichever way a comparison of equal deviations goes. *)
Lemma schedule_statistics_around_midnight (times : list Z) :
  times ≠ [] → Forall (near_midnight day_length delta) times →
  ∃ stats, schedule_statistics rounded_lower day_length times
             = JS.Normal (Some stats) ∧
           reported_near_midnight day_length delta (average stats).
Proof.
  intros Hne Hnear.
  assert (Hpos : Forall (λ t, (0 ≤ t)%Z) times).
  { eapply Forall_impl; [|exact Hnear]. by intros t [? _]. }
  unfold schedule_statistics.
  destruct (summarise_defined (series_early day_length times) (Some day_length))
    as (se & Hse & _ & Havge & _); [rewrite series_early_values; by destruct times|].
  destruct (summarise_defined (series_late day_length times) (Some day_length))
    as (sl & Hsl & _ & Havg & _); [rewrite series_late_values; by destruct times|].
  rewrite Hse, Hsl. cbn [rephase].
  destruct (variance_scaled _ _ _ Hse) as (Hn & Hme & Hve).
  destruct (variance_scaled _ _ _ Hsl) as (_ & Hml & Hvl).
  rewrite series_early_values, length_fmap in Hn, Hme, Hve.
  rewrite series_late_values, length_fmap in Hml, Hvl.
  rewrite Qsum_squares_fmap in Hve, Hvl.
  pose proof (time_of_day_sum times) as Hbelow.
  set (n := inject_Z (Z.of_nat (length times))) in *.
  destruct (late_sums times Hnear) as [L1 L2].
  destruct (side_sums times Hnear) as (S1 & S2 & S3 & S4 & S5 & S6).
  fold n in L1, L2, S2, S6.
  assert (E1 : (Qsum ((λ t, JS.rem (inject_Z t) D) <$> times) == Qsum (e <$> times))%Q).
  { apply Qsum_fmap_ext. eapply Forall_impl; [|exact Hpos].
    intros t Ht. by apply early_value_time_of_day. }
  assert (E2 : (Qsum ((λ t, JS.rem (inject_Z t) D * JS.rem (inject_Z t) D)%Q <$> times)
                == Qsum ((λ t, e t * e t)%Q <$> times))%Q).
  { apply Qsum_fmap_ext. eapply Forall_impl; [|exact Hpos].
    intros t Ht. simpl. by rewrite early_value_time_of_day. }
  assert (E3 : (Qsum ((λ t, JS.rem (inject_Z t + half) D) <$> times)
                == Qsum ((λ t, e t + half - D * h t)%Q <$> times))%Q).
  { apply Qsum_fmap_ext. eapply Forall_impl; [|exact Hnear].
    intros t Ht. by apply late_value_time_of_day. }
  assert (E4 : (Qsum ((λ t, JS.rem (inject_Z t + half) D
                            * JS.rem (inject_Z t + half) D)%Q <$> times)
                == Qsum ((λ t, (e t + half - D * h t) * (e t + half - D * h t))%Q
                           <$> times))%Q).
  { apply Qsum_fmap_ext. eapply Forall_impl; [|exact Hnear].
    intros t Ht. simpl. by rewrite late_value_time_of_day. }
  rewrite E1, E2 in Hve. rewrite E1 in Hme.
  rewrite E3, E4, L1, L2 in Hvl. rewrite E3, L1 in Hml.
  pose proof half_twice as Hh. pose proof D_pos as HD.
  pose proof delta_facts as [Hd0 Hd4]. pose proof delta_strict as Hd4'.
  pose proof (late_spread_le n _ (Qsum ((λ t, e t * e t)%Q <$> times)) _ _ _ _ _
                Hh HD Hd0 Hd4 S1 S2 S3 S5 S6) as Hspread.
  pose proof (late_spread_tie n _ (Qsum ((λ t, e t * e t)%Q <$> times)) _ _ _ _ _
                Hh HD Hd0 Hd4' S1 S2 S3 S5 S6) as Htie.
  rewrite <- Hvl, <- Hve in Hspread, Htie.
  assert (Hn0 : ¬ (n * n == 0)%Q).
  { intros E0. apply Qmult_integral in E0 as [E0|E0]; rewrite E0 in Hn;
      by apply Qlt_irrefl in Hn. }
  assert (Hle : (standard_deviation_squared sl <= standard_deviation_squared se)%Q).
  { apply (Qmult_le_r _ _ (n * n)); [by apply Qmult_lt_0_compat|].
    by rewrite !Qmult_assoc. }
  (* the late statistics, shifted back *)
  assert (Hlate : reported_near_midnight day_length delta
                    (JS.rem (average sl + half) D)).
  { rewrite Havg.
    set (m := mean sl) in *.
    assert (Hm1 : (half - inject_Z delta <= m)%Q).
    { apply (Qmult_le_r _ _ n); [done|]. rewrite Hml.
      revert Hh HD Hd0 Hd4 S1 S2 S3 S4 S5 S6 Hn.
      generalize (Qsum (e <$> times)) (Qsum (h <$> times))
        (Qsum ((λ t, e t * h t)%Q <$> times)) half D (inject_Z delta) n.
      intros A H Sh hf d dl k; intros. nra. }
    assert (Hm2 : (m <= half + inject_Z delta)%Q).
    { apply (Qmult_le_r _ _ n); [done|]. rewrite Hml.
      revert Hh HD Hd0 Hd4 S1 S2 S3 S4 S5 S6 Hn.
      generalize (Qsum (e <$> times)) (Qsum (h <$> times))
        (Qsum ((λ t, e t * h t)%Q <$> times)) half D (inject_Z delta) n.
      intros A H Sh hf d dl k; intros. nra. }
    unfold reported_near_midnight.
    destruct (Qlt_le_dec (m + half) D) as [Hlt|Hge].
    - assert (Er : (JS.rem (m + half) D == m + half)%Q).
      { apply (rem_unique _ _ _ 0); try done.
        - revert Hm1 Hh HD Hd0 Hd4. generalize half D (inject_Z delta).
          intros hf d dl; intros. lra.
        - change (inject_Z 0) with 0%Q. ring. }
      rewrite Er. revert Hm1 Hlt Hh HD Hd0 Hd4. generalize half D (inject_Z delta).
      intros hf d dl; intros. repeat split; lra.
    - assert (Er : (JS.rem (m + half) D == m + half - D)%Q).
      { apply (rem_unique _ _ _ 1); try done.
        - lra.
        - revert Hm2 Hh HD Hd0 Hd4. generalize half D (inject_Z delta).
          intros hf d dl; intros. lra.
        - change (inject_Z 1) with 1%Q. ring. }
      rewrite Er. revert Hm2 Hge Hh HD Hd0 Hd4. generalize half D (inject_Z delta).
      intros hf d dl; intros. repeat split; lra. }
  (* the early statistics, when the two series are equally spread *)
  assert (Hearly : (standard_deviation_squared se <= standard_deviation_squared sl)%Q →
                   reported_near_midnight day_length delta (average se)).
  { intros Hge. rewrite Havge.
    assert (Heq : (standard_deviation_squared sl * n * n
                   == standard_deviation_squared se * n * n)%Q).
    { assert (Hsd : (standard_deviation_squared sl == standard_deviation_squared se)%Q)
        by (by apply Qle_antisym).
      by rewrite Hsd. }
    specialize (Htie Heq).
    set (m := mean se) in *. unfold reported_near_midnight.
    destruct Htie as [H0|Hall].
    - assert (Hm1 : (0 <= m)%Q).
      { apply (Qmult_le_r _ _ n); [done|]. rewrite Hme.
        revert H0 HD Hd0 Hd4 S1 S2 S3 S4 S5 S6 Hn.
        generalize (Qsum (e <$> times)) (Qsum (h <$> times))
          (Qsum ((λ t, e t * h t)%Q <$> times)) D (inject_Z delta) n.
        intros A H Sh d dl k; intros. nra. }
      assert (Hm2 : (m <= inject_Z delta)%Q).
      { apply (Qmult_le_r _ _ n); [done|]. rewrite Hme.
        revert H0 HD Hd0 Hd4 S1 S2 S3 S4 S5 S6 Hn.
        generalize (Qsum (e <$> times)) (Qsum (h <$> times))
          (Qsum ((λ t, e t * h t)%Q <$> times)) D (inject_Z delta) n.
        intros A H Sh d dl k; intros. nra. }
      revert Hm1 Hm2 HD Hd0 Hd4. generalize D (inject_Z delta).
      intros d dl; intros. repeat split; lra.
    - assert (Hm1 : (D - inject_Z delta <= m)%Q).
      { apply (Qmult_le_r _ _ n); [done|]. rewrite Hme.
        revert Hall HD Hd0 Hd4 S1 S2 S3 S4 S5 S6 Hn.
        generalize (Qsum (e <$> times)) (Qsum (h <$> times))
          (Qsum ((λ t, e t * h t)%Q <$> times)) D (inject_Z delta) n.
        intros A H Sh d dl k; intros. nra. }
      assert (Hm2 : (m <= D - 1)%Q).
      { apply (Qmult_le_r _ _ n); [done|]. by rewrite Hme. }
      revert Hm1 Hm2 HD Hd0 Hd4. generalize D (inject_Z delta).
      intros d dl; intros. repeat split; lra. }
  unfold lower_deviation, deviation_lt. cbn [standard_deviation_squared].
  assert (JS.lt_num (standard_deviation_squared se) (standard_deviation_squared sl)
          = false) as -> by (by apply lt_num_false).
  destruct (JS.lt_num (standard_deviation_squared sl) (standard_deviation_squared se))
    eqn:Hlt.
  - eexists. split; [reflexivity|done].
  - apply lt_num_false in Hlt.
    destruct (rounded_lower _ _); eexists; (split; [reflexivity|]).
    + by apply Hearly.
    + done.
Qed.

End AroundMidnight.
(** ** [summarise_schedule] *)

Section ScheduleProperties.

Variable zone : string → option (Z → Z).
Variable system_timezone : string.
Variable rounded_lower : DiaryStandardStatistics → DiaryStandardStatistics → bool.

Lemma series_defined_values_length (day_length : Z) (times : list Z) :
  length (defined_values (series_early day_length times)) = length times ∧
  length (defined_values (series_late day_length times)) = length times.
Proof.
  unfold series_early, series_late, defined_values.
  induction times as [|t times [IH1 IH2]]; simpl; [done|]. split; by f_equal.
Qed.

(** The choice between the two series, for one quantity. *)
Lemma schedule_statistics_choice (day_length : Z) (times : list Z) :
  ∃ result, schedule_statistics rounded_lower day_length times = JS.Normal result ∧
            schedule_choice day_length times result.
Proof.
  unfold schedule_statistics, schedule_choice. cbv zeta.
  fold (series_early day_length times). fold (series_late day_length times).
  destruct (series_defined_values_length day_length times) as [He Hl].
  destruct times as [|t times].
  - simpl. eexists. split; done.
  - destruct (summarise_defined (series_early day_length (t :: times)) (Some day_length))
      as (e & -> & _); [by destruct (defined_values _)|].
    destruct (summarise_defined (series_late day_length (t :: times)) (Some day_length))
      as (l & -> & _); [by destruct (defined_values _)|].
    cbn [rephase]. unfold lower_deviation, deviation_lt.
    cbn [standard_deviation_squared].
    set (shifted := mkStatistics _ _ _ _ _ _ _ _ _ _ _).
    assert (Hshifted : shifted_back day_length l e shifted) by (by repeat split).
    destruct (JS.lt_num (standard_deviation_squared e) (standard_deviation_squared l))
      eqn:E1; [|destruct (JS.lt_num (standard_deviation_squared l)
                            (standard_deviation_squared e)) eqn:E2].
    + apply lt_num_spec in E1. eexists. split; [done|].
      split; [done|]. split; [|by left].
      intros H. exfalso. by apply (Qlt_irrefl (standard_deviation_squared e)),
        (Qlt_trans _ (standard_deviation_squared l)).
    + apply lt_num_spec in E2. eexists. split; [done|].
      split; [|split; [|right]]; [|by exists shifted..].
      intros H. exfalso. by apply (Qlt_irrefl (standard_deviation_squared e)),
        (Qlt_trans _ (standard_deviation_squared l)).
    + apply lt_num_false in E1, E2.
      destruct (rounded_lower e shifted); eexists; (split; [done|]).
      * split; [done|]. split; [|by left]. intros H. exfalso.
        by apply (Qlt_not_le _ _ H).
      * split; [|split; [|right]]; [|by exists shifted..].
        intros H. exfalso. by apply (Qlt_not_le _ _ H).
Qed.

(** The times the loop pushes are the adjusted times of the primary
    sleeps. *)
Lemma schedule_times_adjusted (key : DiaryStandardRecord → option Z)
    (key_timezone : DiaryStandardRecord → option string) (timezone : string)
    (recs : list DiaryStandardRecord) (times : list Z) :
  adjusted_times zone key key_timezone timezone recs times →
  schedule_times zone key key_timezone timezone recs = JS.Normal times.
Proof.
  induction 1 as [|r recs times Hr _ IH|r recs times t offset Hp Hk Ht Ho _ IH];
    cbn [schedule_times].
  - done.
  - assert (JS.is_true (is_primary_sleep r) && JS.truthy (key r) = false) as ->; [|done].
    destruct Hr as [Hr|[Hr|Hr]].
    + destruct (is_primary_sleep r) as [[|]|]; done.
    + rewrite Hr. by rewrite andb_false_r.
    + rewrite Hr. by rewrite andb_false_r.
  - rewrite Hp, Hk. cbn [JS.is_true JS.truthy andb].
    rewrite bool_decide_eq_true_2 by done.
    change (default 0%Z (Some t)) with t.
    unfold local_time. by rewrite Ho, IH.
Qed.

End ScheduleProperties.



(** In numbers: for [midnight_diary], whose primary sleeps start at 23:55
    and 00:05 in turn, the reported average is 0, midnight, where the
    plain mean of the times of day is 12:00. *)
Lemma midnight_diary_average :
  ∃ result stats early,
    (summarise_schedule utc_zone "Etc/GMT" ties_early None None None
       midnight_diary).1 = JS.Normal result ∧
    sleep result = Some stats ∧ (average stats == 0)%Q ∧
    summarise
      ((λ t, Some (Some (inject_Z (t `mod` (24 * hour))), Some t))
         <$> [(23 * hour + 55 * minute)%Z; (48 * hour + 5 * minute)%Z;
              (71 * hour + 55 * minute)%Z; (96 * hour + 5 * minute)%Z])
      (Some (24 * hour)%Z)
      = JS.Normal (Some early) ∧
    (mean early == inject_Z (12 * hour))%Q.
Proof.
  eexists _, _, _. split; [vm_compute; reflexivity|].
  split; [reflexivity|]. split; [vm_compute; reflexivity|].
  split; vm_compute; reflexivity.
Qed.
(** * Further properties of the engine *)

(** ** The constructor *)

Section Constructor.

Implicit Types (r p : DiaryStandardRecord) (l : list DiaryStandardRecord).

Lemma logged_timing r r' : logged r = logged r' → timing r = timing r'.
Proof. unfold logged, timing. congruence. Qed.

Lemma logged_settled r r' : settled_fields r = settled_fields r' → logged r = logged r'.
Proof. unfold settled_fields, timing, logged. congruence. Qed.

Lemma logged_derive_record cfg acc r : logged (derive_record cfg acc r) = logged r.
Proof.
  unfold derive_record, wrap_comments, derive_fields, derive_day_number,
    derive_start_of_new_day, default_duration, delete_empty.
  by repeat (case_match; simpl in *; simplify_eq).
Qed.

Lemma missing_record_after_derive_record cfg acc r :
  missing_record_after (derive_record cfg acc r) = missing_record_after r.
Proof.
  unfold derive_record, wrap_comments, derive_fields, derive_day_number,
    derive_start_of_new_day, default_duration, delete_empty.
  by repeat (case_match; simpl in *; simplify_eq).
Qed.

(** The stored records are the sorted input records, index by index, as
    far as the logged fields go. *)
Lemma stored_logged (contents_records : list DiaryStandardRecord)
    (contents_settings : FileSettings) :
  logged <$> records (new_DiaryStandard contents_records contents_settings)
  = logged <$> sorted_records contents_records.
Proof.
  pose proof (new_DiaryStandard_settled contents_records contents_settings) as H.
  apply list_eq. intros i. apply (f_equal (λ x, x !! i)) in H.
  rewrite !list_lookup_fmap, derive_all_lookup in *.
  destruct (records _ !! i) as [a|], (sorted_records _ !! i) as [b|];
    simpl in *; try done.
  f_equal. rewrite <- (logged_derive_record (default_settings contents_settings)
                        (derive_acc (default_settings contents_settings) scan_start
                           (take i (sorted_records contents_records))) b).
  apply logged_settled. congruence.
Qed.

Lemma stored_timing (contents_records : list DiaryStandardRecord)
    (contents_settings : FileSettings) :
  timing <$> records (new_DiaryStandard contents_records contents_settings)
  = timing <$> sorted_records contents_records.
Proof.
  pose proof (stored_logged contents_records contents_settings) as H.
  apply list_eq. intros i. apply (f_equal (λ x, x !! i)) in H.
  rewrite !list_lookup_fmap in *.
  destruct (records _ !! i) as [a|], (sorted_records _ !! i) as [b|];
    simpl in *; try done.
  f_equal. apply logged_timing. congruence.
Qed.

End Constructor.

Section Chronological.

Context {A : Type} (after : A → A → bool) (key : A → Z) (P : A → Prop).
Hypothesis after_true : ∀ x y, P x → P y → after x y = true → (key y ≤ key x)%Z.
Hypothesis after_false : ∀ x y, P x → P y → after x y = false → (key x ≤ key y)%Z.

Lemma sort_insert_Forall (Q : A → Prop) (x : A) (l : list A) :
  Q x → Forall Q l → Forall Q (JS.sort_insert after x l).
Proof. intros Hx Hl. rewrite sort_insert_Permutation. by constructor. Qed.

Lemma sort_insert_by_key (x : A) (l : list A) :
  P x → Forall P l →
  StronglySorted (λ a b, key a ≤ key b)%Z l →
  StronglySorted (λ a b, key a ≤ key b)%Z (JS.sort_insert after x l).
Proof.
  intros Hx HP Hl. induction Hl as [|y l Hl IH Hy]; simpl.
  - repeat constructor.
  - apply list.Forall_cons in HP as [Py HP].
    destruct (after x y) eqn:E.
    + constructor; [by apply IH|].
      apply sort_insert_Forall; [|done]. by apply after_true.
    + pose proof (after_false x y Hx Py E) as Hxy.
      constructor; [by constructor|]. constructor; [done|].
      eapply List.Forall_impl; [|exact Hy]. simpl. intros. lia.
Qed.

Lemma sort_by_key (l : list A) :
  Forall P l → StronglySorted (λ a b, key a ≤ key b)%Z (JS.sort after l).
Proof.
  induction 1 as [|x l Hx Hl IH]; simpl; [constructor|].
  apply sort_insert_by_key; [done| |done].
  by rewrite sort_Permutation.
Qed.

End Chronological.

Section ConstructorOrder.

Implicit Types (r p : DiaryStandardRecord) (l : list DiaryStandardRecord).

Lemma start_end_after_starts a b x y :
  start a = Some x → start b = Some y →
  (start_end_after a b = true → (y ≤ x)%Z) ∧
  (start_end_after a b = false → (x ≤ y)%Z).
Proof.
  unfold start_end_after, compare_start_end, JS.or, JS.truthy, JS.sub, JS.positive.
  intros -> ->. destruct (end_ a), (end_ b); simpl;
    repeat (case_bool_decide; simpl); split; intros; try done; lia.
Qed.

Lemma sorted_records_starts_before l :
  Forall (λ r, is_Some (start r)) l →
  StronglySorted starts_before (sorted_records l).
Proof.
  intros Hl.
  pose proof (sort_by_key start_end_after (λ r, default 0%Z (start r))
                (λ r, is_Some (start r))) as H.
  assert (Hs : StronglySorted
                 (λ a b, default 0 (start a) ≤ default 0 (start b))%Z
                 (sorted_records l)).
  { apply H; [| |done].
    - intros a b [x Ex] [y Ey] E. rewrite Ex, Ey. simpl.
      by apply (start_end_after_starts a b x y).
    - intros a b [x Ex] [y Ey] E. rewrite Ex, Ey. simpl.
      by apply (start_end_after_starts a b x y). }
  assert (HP : Forall (λ r, is_Some (start r)) (sorted_records l))
    by (by apply sorted_records_Forall).
  clear H Hl. induction Hs as [|a k Hk IH Ha]; [constructor|].
  apply list.Forall_cons in HP as [[x Ex] HP].
  constructor; [by apply IH|].
  apply Forall_lookup_2. intros i b Hb.
  destruct (Forall_lookup_1 _ _ _ _ HP Hb) as [y Ey].
  pose proof (Forall_lookup_1 _ _ _ _ Ha Hb) as Hab. simpl in Hab.
  rewrite Ex, Ey in Hab. by exists x, y.
Qed.

End ConstructorOrder.

(** X1.  The constructor copies what was logged: the stored records carry
    the statuses, start and end times and time zones of the input
    records, each as often as the input has it (so the diary has as many
    records as the input). *)
Theorem constructor_keeps_logged (contents_records : list DiaryStandardRecord)
    (contents_settings : FileSettings) :
  logged <$> records (new_DiaryStandard contents_records contents_settings)
  ≡ₚ logged <$> contents_records.
Proof.
  rewrite stored_logged. apply fmap_Permutation.
  unfold sorted_records. apply sort_Permutation.
Qed.

(** X2.  When every input record has a start time, the constructor stores
    the records in chronological order: a record starts no later than
    every record stored after it. *)
Theorem constructor_chronological (contents_records : list DiaryStandardRecord)
    (contents_settings : FileSettings) :
  Forall (λ r, is_Some (start r)) contents_records →
  StronglySorted starts_before
    (records (new_DiaryStandard contents_records contents_settings)).
Proof.
  intros H.
  apply (StronglySorted_fmap_eq timing starts_before (sorted_records contents_records)).
  - unfold timing, starts_before. intros a a' b b' [= _ Ha _] [= _ Hb _].
    by rewrite Ha, Hb.
  - symmetry. apply stored_timing.
  - by apply sorted_records_starts_before.
Qed.

Lemma constructor_chronological_witness :
  StronglySorted starts_before (records (new_DiaryStandard [night; nap] no_settings)).
Proof.
  apply (constructor_chronological [night; nap] no_settings).
  repeat constructor; by eexists.
Defined.

Section MissingRecord.

Implicit Types (r p n : DiaryStandardRecord) (l : list DiaryStandardRecord).

Lemma find_is_sleep_wake_status l l' :
  timing <$> l = timing <$> l' →
  status <$> List.find is_sleep_wake l = status <$> List.find is_sleep_wake l'.
Proof.
  revert l'. induction l as [|a l IH]; intros [|b l'] H; try done.
  rewrite !fmap_cons in H.
  assert (Hab : timing a = timing b).
  { apply (f_equal head) in H. simpl in H. congruence. }
  assert (H' : timing <$> l = timing <$> l') by (by apply (f_equal tail) in H).
  simpl. rewrite (timing_is_sleep_wake _ _ Hab). destruct (is_sleep_wake b).
  - simpl. f_equal. by apply timing_status.
  - by apply IH.
Qed.

Lemma missing_record_after_missing_after p later :
  missing_record_after p = None →
  missing_record_after (missing_after p later)
  = if is_sleep_wake p
    then (λ n, bool_decide (status n = status p)) <$> List.find is_sleep_wake later
    else None.
Proof.
  intros Hp. unfold missing_after. destruct (is_sleep_wake p); [|done].
  destruct (List.find is_sleep_wake later) as [n|]; simpl; [|done].
  unfold note_missing_record. by rewrite Hp.
Qed.

End MissingRecord.

(** X3.  [missing_record_after], for a diary whose input records do not
    bring the property: a stored [awake] or [asleep] record that is
    followed by another [awake] or [asleep] record has
    [missing_record_after], and it is true exactly when the next such
    record has the same status; the last [awake] or [asleep] record and
    the records with any other status do not have the property. *)
Theorem constructor_missing_record_after
    (contents_records : list DiaryStandardRecord)
    (contents_settings : FileSettings) (i : nat) (r : DiaryStandardRecord) :
  Forall (λ r, missing_record_after r = None) contents_records →
  records (new_DiaryStandard contents_records contents_settings) !! i = Some r →
  missing_record_after r =
    if is_sleep_wake r
    then (λ n, bool_decide (status n = status r)) <$>
           List.find is_sleep_wake
             (drop (S i) (records (new_DiaryStandard contents_records contents_settings)))
    else None.
Proof.
  intros Hin Hr.
  pose proof (new_DiaryStandard_lookup contents_records contents_settings i) as Hl.
  cbv zeta in Hl. rewrite Hr in Hl.
  set (cfg := default_settings contents_settings) in *.
  set (derived := derive_all cfg scan_start (sorted_records contents_records)) in *.
  assert (Ht : timing <$> records (new_DiaryStandard contents_records contents_settings)
               = timing <$> derived).
  { apply fmap_settled_timing, new_DiaryStandard_settled. }
  destruct (derived !! i) as [p|] eqn:Ep; simpl in Hl; [|done].
  assert (Hp : missing_record_after p = None).
  { unfold derived in Ep. rewrite derive_all_lookup in Ep.
    destruct (sorted_records contents_records !! i) as [r0|] eqn:E0; simpl in Ep; [|done].
    injection Ep as <-. rewrite missing_record_after_derive_record.
    apply (Forall_lookup_1 _ _ _ _ (sorted_records_Forall _ _ Hin) E0). }
  set (later := drop (S i) derived) in *.
  assert (Hm : missing_record_after r = missing_record_after (missing_after p later)).
  { injection Hl as ->. case_decide; [|done].
    apply missing_record_after_mark_primary_sleep. }
  assert (Htr : timing r = timing p).
  { injection Hl as ->. case_decide; simpl;
      by rewrite ?timing_mark_primary_sleep, timing_missing_after. }
  rewrite Hm, (missing_record_after_missing_after _ _ Hp).
  rewrite (timing_is_sleep_wake _ _ Htr), (timing_status _ _ Htr).
  destruct (is_sleep_wake p); [|done].
  assert (Hf : status <$> List.find is_sleep_wake later
               = status <$> List.find is_sleep_wake
                   (drop (S i) (records (new_DiaryStandard contents_records contents_settings)))).
  { apply find_is_sleep_wake_status. unfold later. by rewrite !fmap_drop, Ht. }
  destruct (List.find is_sleep_wake later) as [n|],
    (List.find is_sleep_wake (drop (S i) _)) as [n'|]; simpl in *; try done.
  by injection Hf as ->.
Qed.

Lemma constructor_missing_record_after_witness :
  missing_record_after
    (returned_record (records (new_DiaryStandard [nap; night] no_settings) !! 0))
  = Some true.
Proof.
  etransitivity.
  - apply (constructor_missing_record_after [nap; night] no_settings 0).
    + by repeat constructor.
    + vm_compute. reflexivity.
  - vm_compute. reflexivity.
Defined.

Section NormalForm.

Implicit Types (r p n : DiaryStandardRecord) (l : list DiaryStandardRecord).

Lemma is_settled_normal r :
  is_settled r →
  is_Some (day_number r) ∧ is_Some (start_of_new_day r) ∧
  tags r ≠ Some [] ∧ comments r ≠ Some (CommentsArray []) ∧
  (∀ c, comments r ≠ Some (CommentsSingle c)) ∧
  (is_Some (start r) → is_Some (end_ r) → is_Some (duration r)).
Proof.
  intros (Hd & Ht & Hc & Hs & Hn). repeat split; try done.
  - destruct Hc as [->|(c & cs & ->)]; done.
  - intros c. destruct Hc as [->|(c' & cs & ->)]; done.
  - intros [x Ex] [y Ey]. destruct (duration r); [done|].
    specialize (Hd eq_refl). by rewrite Ex, Ey in Hd.
Qed.

End NormalForm.

(** X4.  Every record of a constructed diary is in normal form: it has a
    [day_number] and a [start_of_new_day]; [tags] is not an empty array;
    [comments] is an array with at least one element when it is there
    (never a bare comment, never empty); and a record with both a start
    and an end time has a [duration]. *)
Theorem constructor_normal_form (contents_records : list DiaryStandardRecord)
    (contents_settings : FileSettings) :
  Forall (λ r, is_Some (day_number r) ∧ is_Some (start_of_new_day r) ∧
               tags r ≠ Some [] ∧ comments r ≠ Some (CommentsArray []) ∧
               (∀ c, comments r ≠ Some (CommentsSingle c)) ∧
               (is_Some (start r) → is_Some (end_ r) → is_Some (duration r)))
    (records (new_DiaryStandard contents_records contents_settings)).
Proof.
  eapply List.Forall_impl; [|apply new_DiaryStandard_is_settled].
  apply is_settled_normal.
Qed.

Section PerRecord.

Implicit Types (r p n : DiaryStandardRecord) (l : list DiaryStandardRecord).

Lemma string_length_0 (s : string) : String.length s = 0 ↔ s = "".
Proof. destruct s; simpl; split; intros; done. Qed.

Lemma tags_delete_empty r :
  tags (delete_empty r) = match tags r with Some [] => None | t => t end.
Proof.
  unfold delete_empty. destruct (tags r) as [[|t ts]|] eqn:E;
    case_decide; simpl; by rewrite ?E.
Qed.

Lemma comments_delete_empty r :
  comments (delete_empty r)
  = if decide (comments_length (comments r) = 0) then None else comments r.
Proof.
  unfold delete_empty. destruct (tags r) as [[|t ts]|]; simpl; by case_decide.
Qed.

Lemma duration_delete_empty r : duration (delete_empty r) = duration r.
Proof. unfold delete_empty. destruct (tags r) as [[|t ts]|]; simpl; by case_decide. Qed.

Lemma duration_default_duration r :
  duration (default_duration r)
  = match duration r with Some d => Some d | None => JS.sub (end_ r) (start r) end.
Proof. unfold default_duration. by destruct (duration r) eqn:E; simpl; rewrite ?E. Qed.

Lemma comments_wrap_comments r :
  comments (wrap_comments r)
  = match comments r with
    | Some (CommentsSingle c) => Some (CommentsArray [c])
    | c => c
    end.
Proof. unfold wrap_comments. by destruct (comments r) as [[c|cs]|] eqn:E; simpl; rewrite ?E. Qed.

Lemma derive_record_fields cfg acc r :
  let r' := derive_record cfg acc r in
  tags r' = match tags r with Some [] => None | t => t end ∧
  comments r' = match comments r with
                | Some (CommentsArray (c :: cs)) => Some (CommentsArray (c :: cs))
                | Some (CommentsSingle (CommentText s)) =>
                    if decide (s = "") then None
                    else Some (CommentsArray [CommentText s])
                | _ => None
                end ∧
  duration r' = match duration r with
                | Some d => Some d
                | None => JS.sub (end_ r) (start r)
                end.
Proof.
  unfold derive_record, derive_fields.
  set (r1 := delete_empty r). set (r2 := default_duration r1).
  destruct (derive_start_of_new_day (minimum_day_duration cfg) acc.1 r2)
    as [r3 day_start] eqn:E3.
  set (r4 := (derive_day_number (maximum_day_duration cfg) day_start acc.2 r3).1).
  assert (Er3 : r3 = (derive_start_of_new_day (minimum_day_duration cfg) acc.1 r2).1)
    by (by rewrite E3).
  destruct (wrap_comments_keeps r4) as (T5 & D5 & G5 & N5 & S5).
  destruct (derive_day_number_keeps (maximum_day_duration cfg) day_start acc.2 r3)
    as (T4 & D4 & G4 & C4 & S4).
  destruct (derive_start_of_new_day_keeps (minimum_day_duration cfg) acc.1 r2)
    as (T3 & D3 & G3 & C3 & N3).
  destruct (default_duration_keeps r1) as (T2 & G2 & C2).
  rewrite <- Er3 in T3, D3, G3, C3, N3. fold r4 in T4, D4, G4, C4, S4.
  fold r2 in T2, G2, C2.
  cbv zeta. split; [|split].
  - rewrite G5, G4, G3, G2. apply tags_delete_empty.
  - rewrite comments_wrap_comments. fold r4. rewrite C4, C3, C2. unfold r1.
    rewrite comments_delete_empty.
    destruct (comments r) as [[[s|t s]|[|c cs]]|]; simpl; try done.
    destruct (decide (String.length s = 0)) as [E|E], (decide (s = "")) as [E'|E'];
      try done.
    + by apply string_length_0 in E.
    + by apply string_length_0 in E'.
  - rewrite D5. fold r4. rewrite D4, D3. unfold r2.
    rewrite duration_default_duration. unfold r1. rewrite duration_delete_empty.
    pose proof (delete_empty_keeps r) as Ht. unfold timing in Ht.
    injection Ht as _ -> ->. done.
Qed.

End PerRecord.

(** X5.  What the constructor makes of the tags, the comments and the
    duration of a record, record by record in sorted order.  An empty
    [tags] array is removed.  Of [comments], an array with elements is
    kept; a bare string is wrapped in an array unless it is empty; an
    empty array, an empty string, and also a bare [{time, text}] comment
    (an object has no [length]) are removed.  A supplied [duration] is
    kept, whatever the times say; without one, the duration is
    [end - start] when both times are there, and absent otherwise. *)
Theorem constructor_record_fields (contents_records : list DiaryStandardRecord)
    (contents_settings : FileSettings) (i : nat) (r0 : DiaryStandardRecord) :
  sorted_records contents_records !! i = Some r0 →
  ∃ r, records (new_DiaryStandard contents_records contents_settings) !! i = Some r ∧
       logged r = logged r0 ∧
       tags r = match tags r0 with Some [] => None | t => t end ∧
       comments r = match comments r0 with
                    | Some (CommentsArray (c :: cs)) => Some (CommentsArray (c :: cs))
                    | Some (CommentsSingle (CommentText s)) =>
                        if decide (s = "") then None
                        else Some (CommentsArray [CommentText s])
                    | _ => None
                    end ∧
       duration r = match duration r0 with
                    | Some d => Some d
                    | None => JS.sub (end_ r0) (start r0)
                    end.
Proof.
  intros H0.
  pose proof (new_DiaryStandard_settled contents_records contents_settings) as H.
  apply (f_equal (λ x, x !! i)) in H.
  rewrite !list_lookup_fmap, derive_all_lookup, H0 in H.
  destruct (records _ !! i) as [r|]; simpl in H; [|done].
  apply (inj Some) in H. exists r. split; [done|].
  set (p := derive_record _ _ r0) in H.
  destruct (derive_record_fields (default_settings contents_settings)
              (derive_acc (default_settings contents_settings) scan_start
                 (take i (sorted_records contents_records))) r0) as (Ht & Hc & Hd).
  fold p in Ht, Hc, Hd. split.
  - rewrite <- (logged_derive_record (default_settings contents_settings)
                 (derive_acc (default_settings contents_settings) scan_start
                    (take i (sorted_records contents_records))) r0).
    by apply logged_settled.
  - rewrite <- Ht, <- Hc, <- Hd. unfold settled_fields in H.
    repeat split; congruence.
Qed.

Lemma constructor_record_fields_witness :
  ∃ r, records (new_DiaryStandard [nap] no_settings) !! 0 = Some r ∧
       duration r = Some hour.
Proof.
  destruct (constructor_record_fields [nap] no_settings 0 nap eq_refl)
    as (r & Hr & _ & _ & _ & Hd).
  exists r. split; [exact Hr|exact Hd].
Defined.

Section StoredRecords.

Implicit Types (r p n : DiaryStandardRecord) (l : list DiaryStandardRecord).

(** A property of the input records that only depends on status and
    times holds of the stored records. *)
Lemma stored_Forall_timing (P : DiaryStandardRecord → Prop)
    (contents_records : list DiaryStandardRecord)
    (contents_settings : FileSettings) :
  (∀ a b, timing a = timing b → P a → P b) →
  Forall P contents_records →
  Forall P (records (new_DiaryStandard contents_records contents_settings)).
Proof.
  intros HP Hin. apply Forall_lookup_2. intros i r Hr.
  pose proof (stored_timing contents_records contents_settings) as H.
  apply (f_equal (λ x, x !! i)) in H. rewrite !list_lookup_fmap, Hr in H.
  destruct (sorted_records contents_records !! i) as [r0|] eqn:E0; simpl in H; [|done].
  apply (HP r0); [congruence|].
  apply (Forall_lookup_1 _ _ _ _ (sorted_records_Forall _ _ Hin) E0).
Qed.

Lemma has_start_timing a b : timing a = timing b → has_start a → has_start b.
Proof. unfold timing, has_start. intros [= _ -> _]. done. Qed.

Lemma compare_start_or_end_in_place a b :
  has_start a → has_start b → start_end_after a b = false →
  JS.positive (compare_start_or_end a b) = false.
Proof.
  intros (x & Ex & Hx) (y & Ey & Hy) H.
  apply (start_end_after_starts a b x y Ex Ey) in H.
  unfold compare_start_or_end, JS.or, JS.truthy. rewrite Ex, Ey. simpl.
  rewrite !bool_decide_true by done. simpl. apply bool_decide_false. lia.
Qed.

End StoredRecords.

(** X6.  [daily_activities] sorts the stored records in place by
    [start || end].  When every input record has a start time other than
    0, the constructor has stored the records in an order that this sort
    keeps: the call leaves the diary as it was. *)
Theorem daily_activities_keeps_chronological
    (contents_records : list DiaryStandardRecord)
    (contents_settings : FileSettings) :
  Forall has_start contents_records →
  daily_activities_effect (new_DiaryStandard contents_records contents_settings)
  = new_DiaryStandard contents_records contents_settings.
Proof.
  intros Hin. unfold daily_activities_effect.
  set (d := new_DiaryStandard contents_records contents_settings).
  assert (Hs : Forall has_start (records d)).
  { apply stored_Forall_timing; [apply has_start_timing|done]. }
  assert (Hp : in_place start_end_after (records d))
    by apply new_DiaryStandard_in_place.
  rewrite sort_in_place; [by destruct d|].
  intros i x y Hx Hy. apply compare_start_or_end_in_place.
  - apply (Forall_lookup_1 _ _ _ _ Hs Hx).
  - apply (Forall_lookup_1 _ _ _ _ Hs Hy).
  - by apply (Hp i).
Qed.

Lemma daily_activities_keeps_chronological_witness :
  daily_activities_effect (new_DiaryStandard [night; nap] no_settings)
  = new_DiaryStandard [night; nap] no_settings.
Proof.
  apply (daily_activities_keeps_chronological [night; nap] no_settings).
  repeat constructor; eexists; (split; [reflexivity|discriminate]).
Defined.

(** ** Days *)

Section Days.

Implicit Types (r p : DiaryStandardRecord) (l : list DiaryStandardRecord)
  (cfg : DiaryStandardSettings) (acc : option Z * N).

(** One call of the callback on a record that leaves the day fields to
    the constructor. *)
Lemma derive_fields_days cfg acc r :
  days_derived r →
  let b := is_asleep r && JS.gt (start r) (JS.add acc.1 (minimum_day_duration cfg)) in
  let c := if b then
             if JS.gt (start r) (JS.add acc.1 (maximum_day_duration cfg))
             then (acc.2 + 2)%N else (acc.2 + 1)%N
           else acc.2 in
  (derive_fields cfg acc r).2 = (if b then start r else acc.1, c) ∧
  start_of_new_day (derive_record cfg acc r) = Some b ∧
  day_number (derive_record cfg acc r) = Some c.
Proof.
  destruct r as [st s e stz etz du tg co dn sn ps mr].
  unfold days_derived. simpl. intros [-> ->]. destruct acc as [ds k].
  unfold derive_record, wrap_comments, derive_fields,
    derive_day_number, derive_start_of_new_day, default_duration, delete_empty.
  cbn [fst snd]. unfold is_asleep. cbn [status start].
  destruct tg as [[|t tg]|]; cbn -[JS.gt JS.add bool_decide];
    case_decide; cbn -[JS.gt JS.add bool_decide];
    destruct du; cbn -[JS.gt JS.add bool_decide];
    destruct (bool_decide (st = "asleep") && JS.gt s (JS.add ds (minimum_day_duration cfg)));
    cbn -[JS.gt JS.add bool_decide];
    try destruct (JS.gt s (JS.add ds (maximum_day_duration cfg)));
    cbn -[JS.gt JS.add bool_decide];
    repeat split; by destruct co as [[|]|].
Qed.

Lemma derive_acc_last_new_day cfg acc l :
  Forall days_derived l →
  (derive_acc cfg acc l).1
  = foldl (λ day_start r,
             if JS.is_true (start_of_new_day r) then start r else day_start)
          acc.1 (derive_all cfg acc l).
Proof.
  intros Hl. revert acc. induction Hl as [|r l Hr Hl IH]; intros acc; [done|].
  unfold derive_acc in *. simpl. rewrite IH.
  destruct (derive_fields_days cfg acc r Hr) as (E & Es & _).
  rewrite Es, E. simpl.
  pose proof (timing_derive_record cfg acc r) as Ht. unfold timing in Ht.
  injection Ht as _ -> _. done.
Qed.

Lemma last_new_day_start_settled l l' :
  settled_fields <$> l = settled_fields <$> l' →
  last_new_day_start l = last_new_day_start l'.
Proof.
  unfold last_new_day_start. generalize (Some 0%Z).
  revert l'. induction l as [|a l IH]; intros [|b l'] o H; try done.
  rewrite !fmap_cons in H.
  assert (Hab : settled_fields a = settled_fields b).
  { apply (f_equal head) in H. simpl in H. congruence. }
  assert (H' : settled_fields <$> l = settled_fields <$> l') by (by apply (f_equal tail) in H).
  simpl. rewrite (IH l' _ H'). unfold settled_fields, timing in Hab.
  assert (start a = start b) as -> by congruence.
  assert (start_of_new_day a = start_of_new_day b) as -> by congruence. done.
Qed.

(** [start_of_new_day] of the stored record at index [j], when the input
    leaves the day fields to the constructor. *)
Lemma stored_start_of_new_day (contents_records : list DiaryStandardRecord)
    (contents_settings : FileSettings) (j : nat) (rj : DiaryStandardRecord) :
  Forall days_derived contents_records →
  let d := new_DiaryStandard contents_records contents_settings in
  records d !! j = Some rj →
  start_of_new_day rj
  = Some (is_asleep rj &&
          JS.gt (start rj)
            (JS.add (last_new_day_start (take j (records d)))
               (minimum_day_duration (settings d)))).
Proof.
  intros Hin d Hj.
  pose proof (new_DiaryStandard_settled contents_records contents_settings) as H.
  fold d in H.
  set (cfg := default_settings contents_settings) in *.
  set (sorted := sorted_records contents_records) in *.
  assert (Hs : Forall days_derived sorted) by (by apply sorted_records_Forall).
  rewrite (last_new_day_start_settled (take j (records d))
             (take j (derive_all cfg scan_start sorted)))
    by (by rewrite !fmap_take, H).
  apply (f_equal (λ x, x !! j)) in H.
  rewrite !list_lookup_fmap, derive_all_lookup, Hj in H.
  destruct (sorted !! j) as [r0|] eqn:E0; simpl in H; [|done].
  apply (inj Some) in H.
  assert (Htk : take j (derive_all cfg scan_start sorted)
                = derive_all cfg scan_start (take j sorted)).
  { clear. generalize scan_start. revert j.
    induction sorted as [|x l IH]; intros [|j] acc; simpl; try done.
    by rewrite IH. }
  rewrite Htk. unfold last_new_day_start.
  change (Some 0%Z) with (scan_start.1).
  rewrite <- derive_acc_last_new_day by (by apply Forall_take).
  destruct (derive_fields_days cfg (derive_acc cfg scan_start (take j sorted)) r0)
    as (_ & Es & _); [by apply (Forall_lookup_1 _ _ _ _ Hs E0)|].
  pose proof (timing_derive_record cfg (derive_acc cfg scan_start (take j sorted)) r0)
    as Ht.
  set (p := derive_record cfg (derive_acc cfg scan_start (take j sorted)) r0) in *.
  assert (Etp : timing rj = timing p) by (unfold settled_fields in H; congruence).
  assert (Esp : start_of_new_day rj = start_of_new_day p)
    by (unfold settled_fields in H; congruence).
  rewrite Esp, Es. unfold is_asleep.
  assert (status rj = status r0) as -> by (unfold timing in *; congruence).
  assert (start rj = start r0) as -> by (unfold timing in *; congruence).
  done.
Qed.

Lemma last_new_day_start_snoc l r :
  last_new_day_start (l ++ [r])
  = if JS.is_true (start_of_new_day r) then start r else last_new_day_start l.
Proof. unfold last_new_day_start. by rewrite foldl_snoc. Qed.

(** The start of the last new day before index [j], when the record at
    index [i] starts a day and no record between [i] and [j] does. *)
Lemma last_new_day_start_between l i j ri :
  i < j → l !! i = Some ri → start_of_new_day ri = Some true →
  (∀ k rk, i < k < j → l !! k = Some rk → start_of_new_day rk ≠ Some true) →
  last_new_day_start (take j l) = start ri.
Proof.
  intros Hij Hi Hri. induction j as [|j IH]; [lia|]. intros Hk.
  destruct (l !! j) as [rj|] eqn:Ej.
  - rewrite (take_S_r _ _ _ Ej), last_new_day_start_snoc.
    destruct (decide (i = j)) as [->|Hne].
    + assert (rj = ri) as -> by congruence. by rewrite Hri.
    + assert (Hrj : start_of_new_day rj ≠ Some true) by (apply (Hk j); [lia|done]).
      destruct (start_of_new_day rj) as [[|]|]; simpl; try done;
        (apply IH; [lia|]; intros k rk ? ?; apply (Hk k); [lia|done]).
  - apply lookup_ge_None in Ej. apply lookup_lt_Some in Hi.
    rewrite take_ge by lia. rewrite <- (take_ge l j) by lia.
    apply IH; [lia|]. intros k rk ? ?. apply (Hk k); [lia|done].
Qed.

Lemma last_new_day_start_none l :
  (∀ k rk, l !! k = Some rk → start_of_new_day rk ≠ Some true) →
  last_new_day_start l = Some 0%Z.
Proof.
  induction l as [|r l IH] using rev_ind; [done|]. intros H.
  rewrite last_new_day_start_snoc.
  assert (Hr : start_of_new_day r ≠ Some true).
  { apply (H (length l)). by rewrite lookup_app_r, Nat.sub_diag by lia. }
  destruct (start_of_new_day r) as [[|]|]; simpl; try done;
    (apply IH; intros k rk Hk; apply (H k); by apply lookup_app_l_Some).
Qed.

End Days.

(** X7.  Days are more than [minimum_day_duration] apart.  In a diary
    whose input leaves [start_of_new_day] and [day_number] to the
    constructor, a record with [start_of_new_day] true is an [asleep]
    record with a start time, and this start time is more than
    [minimum_day_duration] after the start of the previous record with
    [start_of_new_day] true (after 0 when it is the first one). *)
Theorem new_days_apart (contents_records : list DiaryStandardRecord)
    (contents_settings : FileSettings) (j : nat) (rj : DiaryStandardRecord) :
  Forall days_derived contents_records →
  let d := new_DiaryStandard contents_records contents_settings in
  records d !! j = Some rj → start_of_new_day rj = Some true →
  status rj = "asleep" ∧
  ∃ sj, start rj = Some sj ∧
    ((∀ k rk, k < j → records d !! k = Some rk → start_of_new_day rk ≠ Some true) →
     (minimum_day_duration (settings d) < sj)%Z) ∧
    (∀ i ri, i < j → records d !! i = Some ri → start_of_new_day ri = Some true →
       (∀ k rk, i < k < j → records d !! k = Some rk →
                start_of_new_day rk ≠ Some true) →
       ∃ si, start ri = Some si ∧ (si + minimum_day_duration (settings d) < sj)%Z).
Proof.
  intros Hin d Hj Hs.
  pose proof (stored_start_of_new_day contents_records contents_settings j rj Hin Hj)
    as H.
  fold d in H. rewrite Hs in H. apply (inj Some) in H. symmetry in H.
  apply andb_true_iff in H as [Ha Hg].
  split; [by apply bool_decide_eq_true in Ha|].
  unfold JS.gt, JS.add in Hg.
  destruct (start rj) as [sj|]; [|done]. exists sj. split; [done|].
  destruct (last_new_day_start (take j (records d))) as [prev|] eqn:Ep; [|done].
  apply bool_decide_eq_true in Hg. split.
  - intros Hnone.
    rewrite last_new_day_start_none in Ep.
    + injection Ep as <-. lia.
    + intros k rk Hk. apply lookup_take_Some in Hk as [Hk ?]. by apply (Hnone k).
  - intros i ri Hij Hi Hri Hbetween.
    rewrite (last_new_day_start_between _ i j ri Hij Hi Hri Hbetween) in Ep.
    exists prev. split; [done|lia].
Qed.

Lemma new_days_apart_witness :
  status (returned_record (records (new_DiaryStandard [nap; night] no_settings) !! 0))
  = "asleep".
Proof.
  apply (new_days_apart [nap; night] no_settings 0).
  - by repeat constructor.
  - vm_compute. reflexivity.
  - vm_compute. reflexivity.
Defined.

Section ConsecutiveDays.

Implicit Types (r p : DiaryStandardRecord) (l : list DiaryStandardRecord)
  (cfg : DiaryStandardSettings) (acc : option Z * N).

Lemma derive_all_take cfg acc l j :
  take j (derive_all cfg acc l) = derive_all cfg acc (take j l).
Proof.
  revert acc j. induction l as [|x l IH]; intros acc [|j]; simpl; try done.
  by rewrite IH.
Qed.

(** What the counter and [day_start] are to the records before them:
    no record has a higher [day_number], and a record that starts the day
    the counter is at gave its start to [day_start]. *)
Lemma derive_acc_days cfg l :
  Forall days_derived l →
  let acc := derive_acc cfg scan_start l in
  ∀ i p, derive_all cfg scan_start l !! i = Some p →
    (∃ c, day_number p = Some c ∧ (c ≤ acc.2)%N) ∧
    (start_of_new_day p = Some true → day_number p = Some acc.2 → start p = acc.1).
Proof.
  induction l as [|r l IH] using rev_ind; [done|].
  intros Hl. apply Forall_app in Hl as [Hl Hr]. apply list.Forall_cons in Hr as [Hr _].
  specialize (IH Hl). cbv zeta in *.
  rewrite derive_acc_snoc, derive_all_snoc.
  destruct (derive_fields_days cfg (derive_acc cfg scan_start l) r Hr) as (E & Es & En).
  set (acc := derive_acc cfg scan_start l) in *.
  set (b := is_asleep r && JS.gt (start r) (JS.add acc.1 (minimum_day_duration cfg))) in *.
  set (c := if b then if JS.gt _ _ then _ else _ else acc.2) in *.
  assert (Hc : (acc.2 ≤ c)%N ∧ (b = true → (acc.2 < c)%N) ∧ (b = false → c = acc.2)).
  { unfold c. destruct b; [|done].
    destruct (JS.gt (start r) _); repeat split; try done; lia. }
  destruct Hc as (Hc1 & Hc2 & Hc3).
  rewrite E. cbn [fst snd]. intros i p Hi.
  apply lookup_app_Some in Hi as [Hi|[Hlen Hi]].
  - destruct (IH i p Hi) as [(ci & Eci & Hci) Hstart]. split.
    + exists ci. split; [done|lia].
    + intros Hnew Hday. destruct b eqn:Eb.
      * specialize (Hc2 eq_refl). rewrite Eci in Hday. injection Hday as ->. lia.
      * rewrite (Hc3 eq_refl) in Hday. by apply Hstart.
  - destruct (i - length (derive_all cfg scan_start l)) as [|i']; [|done].
    injection Hi as <-. split.
    + exists c. split; [done|lia].
    + rewrite Es. intros [= Hb] _. rewrite Hb.
      pose proof (timing_derive_record cfg acc r) as Ht. unfold timing in Ht.
      by injection Ht as _ -> _.
Qed.

(** Two records of the derived list that start consecutive days. *)
Lemma derived_consecutive_days cfg l i j pi pj c :
  Forall days_derived l →
  let derived := derive_all cfg scan_start l in
  derived !! i = Some pi → derived !! j = Some pj →
  start_of_new_day pi = Some true → start_of_new_day pj = Some true →
  day_number pi = Some c → day_number pj = Some (c + 1)%N →
  ∃ si sj, start pi = Some si ∧ start pj = Some sj ∧
           (si + minimum_day_duration cfg < sj)%Z ∧
           (sj ≤ si + maximum_day_duration cfg)%Z.
Proof.
  intros Hl derived Hi Hj Hni Hnj Hdi Hdj.
  assert (Hstep : ∀ k p, derived !! k = Some p →
            ∃ r, days_derived r ∧
                 p = derive_record cfg (derive_acc cfg scan_start (take k l)) r).
  { intros k p Hk. unfold derived in Hk. rewrite derive_all_lookup in Hk.
    destruct (l !! k) as [r|] eqn:Er; simpl in Hk; [|done].
    exists r. split; [apply (Forall_lookup_1 _ _ _ _ Hl Er)|congruence]. }
  assert (Hbefore : ∀ k k' p p', k < k' → derived !! k = Some p → derived !! k' = Some p' →
            ∃ ck ck', day_number p = Some ck ∧ day_number p' = Some ck' ∧ (ck ≤ ck')%N).
  { intros k k' p p' Hkk Hk Hk'.
    destruct (derive_acc_days cfg (take k' l) (Forall_take _ _ _ Hl) k p) as [(ck & Eck & Hck) _].
    { rewrite <- derive_all_take. rewrite lookup_take_lt by done. exact Hk. }
    destruct (Hstep k' p' Hk') as (r' & Hr' & ->).
    destruct (derive_fields_days cfg (derive_acc cfg scan_start (take k' l)) r' Hr')
      as (_ & _ & En).
    eexists _, _. split; [done|]. split; [exact En|].
    etransitivity; [exact Hck|].
    destruct (is_asleep r' && _); [|done]. destruct (JS.gt _ _); lia. }
  assert (Hij : i < j).
  { destruct (decide (i = j)) as [->|Hne]; [simplify_eq; lia|].
    destruct (decide (i < j)) as [|Hge]; [done|].
    destruct (Hbefore j i pj pi) as (ck & ck' & E1 & E2 & Hle); [lia|done|done|].
    simplify_eq. lia. }
  destruct (derive_acc_days cfg (take j l) (Forall_take _ _ _ Hl) i pi)
    as [(ci & Eci & Hci) Hstart].
  { rewrite <- derive_all_take. rewrite lookup_take_lt by done. exact Hi. }
  destruct (Hstep j pj Hj) as (r & Hr & ->).
  destruct (derive_fields_days cfg (derive_acc cfg scan_start (take j l)) r Hr)
    as (_ & Es & En).
  set (acc := derive_acc cfg scan_start (take j l)) in *.
  rewrite Hnj in Es. apply (inj Some) in Es. rewrite <- Es in En.
  symmetry in Es. apply andb_true_iff in Es as [_ Hgt].
  rewrite Hdj in En. apply (inj Some) in En.
  rewrite Hdi in Eci. apply (inj Some) in Eci. subst ci.
  pose proof (timing_derive_record cfg acc r) as Ht. unfold timing in Ht.
  injection Ht as _ Hst _. rewrite Hst.
  destruct (JS.gt (start r) (JS.add acc.1 (maximum_day_duration cfg))) eqn:Emax;
    [lia|].
  assert (Hk : acc.2 = c) by lia.
  rewrite <- Hk in Hdi. specialize (Hstart Hni Hdi).
  unfold JS.gt, JS.add in Hgt, Emax. rewrite <- Hstart in Hgt, Emax.
  destruct (start r) as [sj|]; [|by destruct (start pi)].
  destruct (start pi) as [si|]; [|done].
  apply bool_decide_eq_true in Hgt. apply bool_decide_eq_false in Emax.
  exists si, sj. repeat split; try done; lia.
Qed.

End ConsecutiveDays.

Section SummariseDays.

Implicit Types (r p : DiaryStandardRecord) (l recs : list DiaryStandardRecord).

Lemma stored_consecutive_days (contents_records : list DiaryStandardRecord)
    (contents_settings : FileSettings) ri rj c :
  Forall days_derived contents_records →
  let d := new_DiaryStandard contents_records contents_settings in
  ri ∈ records d → rj ∈ records d →
  start_of_new_day ri = Some true → start_of_new_day rj = Some true →
  day_number ri = Some c → day_number rj = Some (c + 1)%N →
  ∃ si sj, start ri = Some si ∧ start rj = Some sj ∧
           (si + minimum_day_duration (settings d) < sj)%Z ∧
           (sj ≤ si + maximum_day_duration (settings d))%Z.
Proof.
  intros Hin d Hi Hj Hni Hnj Hdi Hdj.
  apply list_elem_of_lookup in Hi as [i Hi]. apply list_elem_of_lookup in Hj as [j Hj].
  pose proof (new_DiaryStandard_settled contents_records contents_settings) as H.
  fold d in H.
  set (cfg := default_settings contents_settings) in *.
  set (sorted := sorted_records contents_records) in *.
  assert (Hs : Forall days_derived sorted) by (by apply sorted_records_Forall).
  assert (Hlk : ∀ k r, records d !! k = Some r →
            ∃ p, derive_all cfg scan_start sorted !! k = Some p ∧
                 settled_fields r = settled_fields p).
  { intros k r Hk. apply (f_equal (λ x, x !! k)) in H.
    rewrite !list_lookup_fmap, Hk in H.
    destruct (derive_all cfg scan_start sorted !! k) as [p|]; simpl in H; [|done].
    exists p. split; [done|congruence]. }
  destruct (Hlk i ri Hi) as (pi & Hpi & Ei), (Hlk j rj Hj) as (pj & Hpj & Ej).
  unfold settled_fields, timing in Ei, Ej.
  destruct (derived_consecutive_days cfg sorted i j pi pj c Hs Hpi Hpj)
    as (si & sj & Esi & Esj & Hlo & Hhi); try congruence.
  exists si, sj. repeat split; try done; congruence.
Qed.

Lemma read_array_put {A} (i : nat) (v : option A) (arr : list (option A)) (k : nat) :
  read (JS.array_put i v arr) k = if decide (k = i) then v else read arr k.
Proof.
  unfold JS.array_put, read. destruct (decide (i < length arr)) as [Hlt|Hge].
  - destruct (decide (k = i)) as [->|Hne].
    + by rewrite list_lookup_insert_eq.
    + by rewrite list_lookup_insert_ne.
  - destruct (decide (k < length arr)) as [Hk|Hk].
    + rewrite lookup_app_l by done. rewrite decide_False by lia. done.
    + rewrite lookup_app_r by lia.
      rewrite (lookup_ge_None_2 arr k) by lia.
      destruct (decide (k = i)) as [->|Hne].
      * rewrite lookup_app_r by (rewrite length_replicate; lia).
        by rewrite length_replicate, Nat.sub_diag.
      * destruct (decide (k < i)) as [Hki|Hki].
        -- rewrite lookup_app_l by (rewrite length_replicate; lia).
           rewrite lookup_replicate_2 by lia. done.
        -- rewrite lookup_app_r by (rewrite length_replicate; lia).
           rewrite length_replicate.
           destruct (k - length arr - (i - length arr)) as [|x] eqn:E; [lia|done].
Qed.

(** Every start time in the array [starts] of [summarise_days] is the
    start of a record that starts the day of that number. *)
Lemma day_starts_source recs m (s : Z) :
  read (day_starts recs) m = Some s →
  m ≠ 0 ∧ ∃ r, r ∈ recs ∧ start_of_new_day r = Some true ∧
               day_number r = Some (N.of_nat m) ∧ start r = Some s.
Proof.
  induction recs as [|r recs IH] using rev_ind; [by destruct m|].
  unfold day_starts in *. rewrite foldl_snoc.
  set (starts := foldl _ [] recs) in *.
  assert (Hold : read starts m = Some s →
            m ≠ 0 ∧ ∃ r', r' ∈ recs ++ [r] ∧ start_of_new_day r' = Some true ∧
                          day_number r' = Some (N.of_nat m) ∧ start r' = Some s).
  { intros H. destruct (IH H) as (Hm & r' & Hr' & ?). split; [done|].
    exists r'. split; [|done]. apply elem_of_app. by left. }
  destruct (day_number r) as [dn|] eqn:En; [|done].
  destruct (JS.is_true (start_of_new_day r) && bool_decide (dn ≠ 0%N)) eqn:Eb; [|done].
  rewrite read_array_put. destruct (decide (m = N.to_nat dn)) as [->|Hne]; [|done].
  apply andb_true_iff in Eb as [Hnew Hnz]. apply bool_decide_eq_true in Hnz.
  intros Hs. split; [lia|]. exists r. split; [apply elem_of_app; right; by left|].
  split; [by destruct (start_of_new_day r) as [[|]|]|].
  split; [by rewrite N2Nat.id|done].
Qed.

Lemma shift_falsy_drop (starts : list (option Z)) :
  ∃ k, shift_falsy starts = drop k starts.
Proof.
  induction starts as [|x starts [k IH]]; [by exists 0|]. simpl.
  destruct (JS.truthy x); [by exists 0|]. by exists (S k).
Qed.

Lemma read_drop {A} (arr : list (option A)) k n : read (drop k arr) n = read arr (k + n).
Proof. unfold read. by rewrite lookup_drop. Qed.

Lemma read_bind {A} (arr : list (option A)) n : read arr n = arr !! n ≫= id.
Proof. unfold read. by destruct (arr !! n). Qed.

(** Every element of the array [durations] of [summarise_days] is the
    difference of two neighbours of [starts]. *)
Lemma day_durations_source (starts : list (option Z)) n (e : entry) :
  read (day_durations starts) n = Some e →
  ∃ s s', read starts (S n) = Some s ∧ read starts n = Some s' ∧
          e = (Some (inject_Z (s - s')), Some s').
Proof.
  unfold day_durations.
  assert (Hseq : Forall (λ i, 1 ≤ i) (seq 1 (length starts - 1))).
  { apply Forall_forall. intros i Hi. apply in_seq in Hi. lia. }
  revert Hseq. generalize (seq 1 (length starts - 1)). intros ns.
  induction ns as [|i ns IH] using rev_ind; [by destruct n|].
  intros Hns. apply Forall_app in Hns as [Hns Hi].
  apply list.Forall_cons in Hi as [Hi _]. rewrite foldl_snoc.
  rewrite <- !read_bind.
  destruct (read starts i) as [s|] eqn:Es; [|by apply IH].
  destruct (read starts (i - 1)) as [s'|] eqn:Es'; [|by apply IH].
  destruct (bool_decide (s ≠ 0%Z) && bool_decide (s' ≠ 0%Z)); [|by apply IH].
  rewrite read_array_put. destruct (decide (n = i - 1)) as [->|Hne]; [|by apply IH].
  intros [= <-]. exists s, s'. replace (S (i - 1)) with i by lia. done.
Qed.

Lemma summarise_arrays (arr : list (option entry)) (rolling_average_max : option Z)
    (s : DiaryStandardStatistics) :
  summarise arr rolling_average_max = JS.Normal (Some s) →
  durations s = (λ e : option entry, e ≫= fst) <$> arr ∧
  timestamps s = (λ e : option entry, e ≫= snd) <$> arr.
Proof.
  unfold summarise. case_decide; [done|].
  destruct (JS.reduce_a_plus_b _); [|done].
  destruct (JS.reduce_a_plus_b _); [|done].
  intros [= <-]. done.
Qed.

End SummariseDays.

(** X8.  The day lengths [summarise_days] reports lie between the two
    settings.  For a diary whose input leaves [start_of_new_day] and
    [day_number] to the constructor, and for any filter, every defined
    element of [durations] in the result is greater than
    [minimum_day_duration] and at most [maximum_day_duration]. *)
Theorem summarise_days_within_settings
    (contents_records : list DiaryStandardRecord)
    (contents_settings : FileSettings)
    (f : option (DiaryStandardRecord → bool))
    (stats : DiaryStandardStatistics) (n : nat) (v : Q) :
  Forall days_derived contents_records →
  let d := new_DiaryStandard contents_records contents_settings in
  (summarise_days f d).1 = JS.Normal (Some stats) →
  durations stats !! n = Some (Some v) →
  (inject_Z (minimum_day_duration (settings d)) < v)%Q ∧
  (v <= inject_Z (maximum_day_duration (settings d)))%Q.
Proof.
  intros Hin d Hs Hv. unfold summarise_days in Hs. cbn [fst] in Hs.
  apply summarise_arrays in Hs as [Hd _]. rewrite Hd in Hv. clear Hd.
  rewrite list_lookup_fmap in Hv.
  set (recs := filter_records f (records d)) in *.
  destruct (day_durations _ !! n) as [[e|]|] eqn:En; simpl in Hv; try done.
  assert (He : read (day_durations (shift_falsy (day_starts recs))) n = Some e)
    by (unfold read; by rewrite En).
  apply day_durations_source in He as (s & s' & Hs1 & Hs2 & ->).
  destruct (shift_falsy_drop (day_starts recs)) as [k Ek].
  rewrite Ek, read_drop in Hs1, Hs2.
  apply day_starts_source in Hs1 as (_ & rj & Hrj & Hnj & Hdj & Hsj).
  apply day_starts_source in Hs2 as (_ & ri & Hri & Hni & Hdi & Hsi).
  assert (Hsub : ∀ r, r ∈ recs → r ∈ records d).
  { intros r. unfold recs, filter_records. destruct f as [p|]; [|done].
    rewrite !list_elem_of_In, filter_In. tauto. }
  destruct (stored_consecutive_days contents_records contents_settings ri rj
              (N.of_nat (k + n)) Hin (Hsub _ Hri) (Hsub _ Hrj) Hni Hnj Hdi)
    as (si & sj & Esi & Esj & Hlo & Hhi).
  { rewrite Hdj. f_equal. lia. }
  fold d in Hlo, Hhi. simpl in Hv. injection Hv as <-.
  assert (si = s') as -> by congruence. assert (sj = s) as -> by congruence.
  split.
  - rewrite <- Zlt_Qlt. lia.
  - rewrite <- Zle_Qle. lia.
Qed.

Lemma summarise_days_within_settings_witness :
  (inject_Z (minimum_day_duration
               (settings (new_DiaryStandard three_nights no_settings)))
   < inject_Z (24 * hour))%Q ∧
  (inject_Z (24 * hour)
   <= inject_Z (maximum_day_duration
                  (settings (new_DiaryStandard three_nights no_settings))))%Q.
Proof.
  apply (summarise_days_within_settings three_nights no_settings None
           (returned_statistics
              (summarise_days None (new_DiaryStandard three_nights no_settings)).1) 0).
  - by repeat constructor.
  - vm_compute. reflexivity.
  - vm_compute. reflexivity.
Defined.

(** ** The statistics engine *)

Section Statistics.

Implicit Types (arr : list (option entry)) (l : list Q).

Lemma defined_values_nil arr :
  defined_values arr = [] ↔ ∀ i, value_at arr i = None.
Proof.
  unfold defined_values, value_at. induction arr as [|e arr IH]; simpl.
  - split; [intros _ i; by destruct i|done].
  - destruct e as [[v t]|]; simpl.
    + destruct v as [x|]; simpl.
      * split; [done|]. intros H. specialize (H 0). done.
      * rewrite IH. split.
        -- intros H [|i]; [done|apply H].
        -- intros H i. apply (H (S i)).
    + rewrite IH. split.
      * intros H [|i]; [done|apply H].
      * intros H i. apply (H (S i)).
Qed.

Lemma Qsum_nonneg l : Forall (λ x, 0 <= x)%Q l → (0 <= Qsum l)%Q.
Proof.
  induction 1 as [|x l Hx _ IH]; simpl; [apply Qle_refl|].
  change (Qsum l) with (Qsum l) in IH. lra.
Qed.

Lemma Qsum_zero l :
  Forall (λ x, 0 <= x)%Q l → (Qsum l == 0)%Q → Forall (λ x, x == 0)%Q l.
Proof.
  induction 1 as [|x l Hx Hl IH]; simpl; [constructor|].
  intros H. pose proof (Qsum_nonneg l Hl) as Hs.
  constructor; [lra|]. apply IH. lra.
Qed.

Lemma Qsum_all_zero l : Forall (λ x, x == 0)%Q l → (Qsum l == 0)%Q.
Proof. induction 1 as [|x l Hx _ IH]; simpl; [reflexivity|]. lra. Qed.

Lemma sum_of_squares_Qsum (m : Q) l :
  (sum_of_squares m l == Qsum ((λ x, (x - m) * (x - m)) <$> l))%Q.
Proof.
  unfold sum_of_squares.
  assert (G : ∀ a,
    (foldl (λ a r, a + (r - m) ^ 2) a l
     == a + Qsum ((λ x, (x - m) * (x - m)) <$> l))%Q).
  { induction l as [|x l IH]; intros a.
    - simpl. ring.
    - change (foldl (λ a r, a + (r - m) ^ 2)%Q a (x :: l))
        with (foldl (λ a r, a + (r - m) ^ 2)%Q (a + (x - m) ^ 2)%Q l).
      rewrite IH, fmap_cons.
      change (Qsum (((x - m) * (x - m))%Q :: ((λ x, (x - m) * (x - m))%Q <$> l)))
        with ((x - m) * (x - m) + Qsum ((λ x, (x - m) * (x - m)) <$> l))%Q.
      change ((x - m) ^ 2)%Q with ((x - m) * (x - m))%Q. ring. }
  rewrite G. ring.
Qed.

Lemma square_nonneg (x : Q) : (0 <= x * x)%Q.
Proof. nra. Qed.

Lemma square_zero (x m : Q) : ((x - m) * (x - m) == 0)%Q ↔ (x == m)%Q.
Proof.
  split.
  - intros H. apply Qmult_integral in H. lra.
  - intros ->. ring.
Qed.

Lemma sum_of_squares_nonneg (m : Q) l : (0 <= sum_of_squares m l)%Q.
Proof.
  rewrite sum_of_squares_Qsum. apply Qsum_nonneg.
  apply Forall_fmap, Forall_forall. intros x _. apply square_nonneg.
Qed.

Lemma sum_of_squares_zero (m : Q) l :
  (sum_of_squares m l == 0)%Q ↔ Forall (λ x, x == m)%Q l.
Proof.
  rewrite sum_of_squares_Qsum. split.
  - intros H. apply Qsum_zero in H.
    + apply Forall_fmap in H. eapply List.Forall_impl; [|exact H].
      simpl. intros x Hx. by apply square_zero.
    + apply Forall_fmap, Forall_forall. intros x _. apply square_nonneg.
  - intros H. apply Qsum_all_zero, Forall_fmap.
    eapply List.Forall_impl; [|exact H]. simpl. intros x Hx. by apply square_zero.
Qed.

Lemma inject_Z_length_pos {A} (k : list A) :
  k ≠ [] → (0 < inject_Z (Z.of_nat (length k)))%Q.
Proof.
  intros Hk. change 0%Q with (inject_Z 0). rewrite <- Zlt_Qlt.
  destruct k; [done|simpl; lia].
Qed.

Lemma Qsum_between l (lo hi : Q) :
  Forall (λ x, lo <= x ∧ x <= hi)%Q l →
  (inject_Z (Z.of_nat (length l)) * lo <= Qsum l)%Q ∧
  (Qsum l <= inject_Z (Z.of_nat (length l)) * hi)%Q.
Proof.
  induction 1 as [|x l [Hx1 Hx2] _ [IH1 IH2]].
  - change (inject_Z (Z.of_nat (length (@nil Q)))) with 0%Q.
    change (Qsum []) with 0%Q. split; lra.
  - rewrite inject_Z_length_cons. change (Qsum (x :: l)) with (x + Qsum l)%Q.
    revert IH1 IH2. generalize (inject_Z (Z.of_nat (length l))) (Qsum l).
    intros n S ? ?. split; nra.
Qed.

Lemma arithmetic_mean_between l (lo hi : Q) :
  l ≠ [] → Forall (λ x, lo <= x ∧ x <= hi)%Q l →
  (lo <= arithmetic_mean l)%Q ∧ (arithmetic_mean l <= hi)%Q.
Proof.
  intros Hl H. destruct (Qsum_between l lo hi H) as [H1 H2].
  pose proof (inject_Z_length_pos l Hl) as Hn. unfold arithmetic_mean.
  split.
  - apply Qle_shift_div_l; [done|]. lra.
  - apply Qle_shift_div_r; [done|]. lra.
Qed.

Lemma slice_Forall {A} (P : A → Prop) (from to : Z) (k : list A) :
  Forall P k → Forall P (JS.slice from to k).
Proof. intros H. unfold JS.slice. by apply Forall_take, Forall_drop. Qed.

Lemma StronglySorted_drop {A} (R : A → A → Prop) n (k : list A) :
  StronglySorted R k → StronglySorted R (drop n k).
Proof.
  intros H. revert n. induction H as [|x k Hk IH Hx]; intros [|n]; simpl;
    [constructor|constructor|by constructor|apply IH].
Qed.

Lemma StronglySorted_take {A} (R : A → A → Prop) n (k : list A) :
  StronglySorted R k → StronglySorted R (take n k).
Proof.
  intros H. revert n. induction H as [|x k Hk IH Hx]; intros [|n]; simpl;
    [constructor|constructor|constructor|].
  constructor; [apply IH|]. by apply Forall_take.
Qed.

Lemma StronglySorted_head_last l (lo hi : Q) :
  StronglySorted Qle l → head l = Some lo → list.last l = Some hi → (lo <= hi)%Q.
Proof.
  intros H Hh Hl. destruct l as [|x l]; [done|]. injection Hh as ->.
  apply StronglySorted_inv in H as [_ H].
  destruct l as [|y l]; [injection Hl as ->; apply Qle_refl|].
  change (list.last (lo :: y :: l)) with (list.last (y :: l)) in Hl.
  apply last_Some_elem_of in Hl. rewrite Forall_forall in H. apply H.
  by apply list_elem_of_In.
Qed.

End Statistics.

(** X9.  [summarise] never throws, whatever the array and the period, and
    it returns [null] exactly when no element of the array has a defined
    value. *)
Theorem summarise_returns (arr : list (option entry)) (rolling_average_max : option Z) :
  ∃ result, summarise arr rolling_average_max = JS.Normal result ∧
            (result = None ↔ ∀ i, value_at arr i = None).
Proof.
  destruct (decide (defined_values arr = [])) as [E|E].
  - exists None. split.
    + unfold summarise. by rewrite E.
    + split; [|done]. intros _. by apply defined_values_nil.
  - destruct (summarise_defined arr rolling_average_max E) as (s & Hs & _).
    exists (Some s). split; [done|]. split; [done|].
    intros H. by apply defined_values_nil in H.
Qed.

(** X10.  The number under the square root of [standard_deviation] is
    never negative, and the standard deviation is 0 exactly when every
    defined value equals the mean (all values are the same). *)
Theorem standard_deviation_zero (arr : list (option entry))
    (rolling_average_max : option Z) (s : DiaryStandardStatistics) :
  summarise arr rolling_average_max = JS.Normal (Some s) →
  (0 <= standard_deviation_squared s)%Q ∧
  ((standard_deviation_squared s == 0)%Q ↔
   Forall (λ x, x == mean s)%Q (defined_values arr)).
Proof.
  intros Hs. destruct (decide (defined_values arr = [])) as [E|E].
  { unfold summarise in Hs. rewrite E in Hs. simpl in Hs. done. }
  destruct (summarise_defined arr rolling_average_max E)
    as (s' & Hs' & _ & _ & _ & _ & _ & _ & _ & Hsd).
  rewrite Hs in Hs'. injection Hs' as <-.
  set (sorted := JS.sort a_minus_b_after (defined_values arr)) in *.
  assert (Hperm : sorted ≡ₚ defined_values arr) by apply sort_Permutation.
  assert (Hne : sorted ≠ []).
  { intros E0. rewrite E0 in Hperm. by apply Permutation_nil in Hperm. }
  pose proof (inject_Z_length_pos sorted Hne) as Hn.
  pose proof (sum_of_squares_nonneg (mean s) sorted) as Hsq.
  rewrite <- Hperm. rewrite <- sum_of_squares_zero.
  revert Hsd Hn Hsq.
  generalize (sum_of_squares (mean s) sorted) (inject_Z (Z.of_nat (length sorted)))
    (standard_deviation_squared s).
  intros S n sd Hsd Hn Hsq.
  assert (Hn0 : ¬ (n == 0)%Q) by lra.
  assert (E1 : (S == sd * n)%Q) by (rewrite Hsd; by field).
  split; [|split].
  - rewrite Hsd. apply Qle_shift_div_l; [done|]. lra.
  - intros H0. rewrite E1, H0. ring.
  - intros H0. rewrite Hsd, H0. by field.
Qed.

Lemma standard_deviation_zero_witness :
  (0 <= standard_deviation_squared
          (returned_statistics (summarise dense_example None)))%Q.
Proof.
  apply (standard_deviation_zero dense_example None
           (returned_statistics (summarise dense_example None))).
  vm_compute. reflexivity.
Defined.

Lemma summarise_means_between (arr : list (option entry))
    (rolling_average_max : option Z) (s : DiaryStandardStatistics) (lo hi : Q) :
  summarise arr rolling_average_max = JS.Normal (Some s) →
  Forall (λ x, lo <= x ∧ x <= hi)%Q (defined_values arr) →
  (lo <= mean s ∧ mean s <= hi)%Q ∧ average s = mean s ∧
  (lo <= interquartile_mean s ∧ interquartile_mean s <= hi)%Q.
Proof.
  intros Hs Hrange. destruct (decide (defined_values arr = [])) as [E|E].
  { unfold summarise in Hs. rewrite E in Hs. simpl in Hs. done. }
  destruct (summarise_defined arr rolling_average_max E)
    as (s' & Hs' & Hmean & Havg & Hiqm & _).
  rewrite Hs in Hs'. injection Hs' as <-.
  set (sorted := JS.sort a_minus_b_after (defined_values arr)) in *.
  set (quartiles := JS.slice _ _ sorted) in *.
  assert (Hperm : sorted ≡ₚ defined_values arr) by apply sort_Permutation.
  assert (Hne : sorted ≠ []).
  { intros E0. rewrite E0 in Hperm. by apply Permutation_nil in Hperm. }
  assert (Hsorted : Forall (λ x, lo <= x ∧ x <= hi)%Q sorted) by (by rewrite Hperm).
  assert (Hq : Forall (λ x, lo <= x ∧ x <= hi)%Q quartiles) by (by apply slice_Forall).
  assert (Hqne : quartiles ≠ []).
  { pose proof (interquartile_slice_length sorted Hne) as Hlen.
    fold quartiles in Hlen. intros E0. rewrite E0 in Hlen. simpl in Hlen. lia. }
  split; [|split; [done|]].
  - fold (arithmetic_mean sorted) in Hmean. rewrite Hmean.
    by apply arithmetic_mean_between.
  - rewrite Hiqm. by apply arithmetic_mean_between.
Qed.

Lemma summarise_median_between (arr : list (option entry))
    (rolling_average_max : option Z) (s : DiaryStandardStatistics) (lo hi : Q) :
  summarise arr rolling_average_max = JS.Normal (Some s) →
  Forall (λ x, lo <= x ∧ x <= hi)%Q (defined_values arr) →
  (lo <= median s ∧ median s <= hi)%Q ∧
  (0 <= interquartile_range s ∧ interquartile_range s <= hi - lo)%Q.
Proof.
  intros Hs Hrange. destruct (decide (defined_values arr = [])) as [E|E].
  { unfold summarise in Hs. rewrite E in Hs. simpl in Hs. done. }
  destruct (summarise_defined arr rolling_average_max E)
    as (s' & Hs' & _ & _ & _ & Hmed & Hiqr & _).
  rewrite Hs in Hs'. injection Hs' as <-.
  set (sorted := JS.sort a_minus_b_after (defined_values arr)) in *.
  set (quartiles := JS.slice _ _ sorted) in *.
  assert (Hperm : sorted ≡ₚ defined_values arr) by apply sort_Permutation.
  assert (Hne : sorted ≠ []).
  { intros E0. rewrite E0 in Hperm. by apply Permutation_nil in Hperm. }
  assert (Hsorted : Forall (λ x, lo <= x ∧ x <= hi)%Q sorted) by (by rewrite Hperm).
  assert (Hq : Forall (λ x, lo <= x ∧ x <= hi)%Q quartiles) by (by apply slice_Forall).
  assert (Hqne : quartiles ≠ []).
  { pose proof (interquartile_slice_length sorted Hne) as Hlen.
    fold quartiles in Hlen. intros E0. rewrite E0 in Hlen. simpl in Hlen. lia. }
  split.
  - rewrite Hmed, Math_floor_half.
    assert (Hk : Z.to_nat (Z.of_nat (length sorted) `div` 2) < length sorted).
    { assert (0 < length sorted) by (destruct sorted; [done|simpl; lia]).
      apply Nat2Z.inj_lt. rewrite Z2Nat.id by (apply Z.div_pos; lia).
      apply Z.div_lt; lia. }
    rewrite Forall_forall in Hsorted. apply Hsorted. by apply nth_In.
  - rewrite Hiqr.
    destruct (nth_head_last quartiles 0%Q Hqne) as (a & b & Ha & Hb & -> & ->).
    assert (Hab : (a <= b)%Q).
    { apply (StronglySorted_head_last quartiles); [|done|done].
      unfold quartiles, JS.slice.
      apply StronglySorted_take, StronglySorted_drop, sort_ascending. }
    assert (Hia : (lo <= a ∧ a <= hi)%Q).
    { rewrite Forall_forall in Hq. apply Hq. apply list_elem_of_In.
      by apply head_Some_elem_of. }
    assert (Hib : (lo <= b ∧ b <= hi)%Q).
    { rewrite Forall_forall in Hq. apply Hq. apply list_elem_of_In.
      by apply last_Some_elem_of. }
    lra.
Qed.

(** X11.  The statistics stay within the range of the data.  When every
    defined value lies between [lo] and [hi], so do [mean] (which is also
    [average]), [median] and [interquartile_mean]; and
    [interquartile_range] lies between 0 and [hi - lo]. *)
Theorem summarise_within_range (arr : list (option entry))
    (rolling_average_max : option Z) (s : DiaryStandardStatistics) (lo hi : Q) :
  summarise arr rolling_average_max = JS.Normal (Some s) →
  Forall (λ x, lo <= x ∧ x <= hi)%Q (defined_values arr) →
  (lo <= mean s ∧ mean s <= hi)%Q ∧ average s = mean s ∧
  (lo <= median s ∧ median s <= hi)%Q ∧
  (lo <= interquartile_mean s ∧ interquartile_mean s <= hi)%Q ∧
  (0 <= interquartile_range s ∧ interquartile_range s <= hi - lo)%Q.
Proof.
  intros Hs Hrange.
  destruct (summarise_means_between arr rolling_average_max s lo hi Hs Hrange)
    as (Hmean & Havg & Hiqm).
  destruct (summarise_median_between arr rolling_average_max s lo hi Hs Hrange)
    as (Hmed & Hiqr).
  repeat split; try done; tauto.
Qed.

Lemma summarise_within_range_witness :
  (2 <= mean (returned_statistics (summarise dense_example None)))%Q.
Proof.
  apply (summarise_within_range dense_example None
           (returned_statistics (summarise dense_example None)) 2 2).
  - vm_compute. reflexivity.
  - vm_compute. repeat constructor; discriminate.
Defined.

(** X12.  [summarise_records] returns [null] exactly when none of the
    records the filter lets through has a [duration]. *)
Theorem summarise_records_null (f : option (DiaryStandardRecord → bool))
    (this : DiaryStandard) :
  (summarise_records f this).1 = JS.Normal None ↔
  Forall (λ r, duration r = None) (filter_records f (records this)).
Proof.
  unfold summarise_records. cbn [fst].
  set (recs := filter_records f (records this)).
  set (arr := (λ r, Some (inject_Z <$> duration r, JS.or (start r) (end_ r))) <$> recs).
  assert (Hd : defined_values arr = [] ↔ Forall (λ r, duration r = None) recs).
  { unfold arr, defined_values. induction recs as [|r recs IH]; simpl.
    - split; [constructor|done].
    - rewrite list.Forall_cons. destruct (duration r); simpl.
      + split; [done|]. intros [? _]. done.
      + rewrite IH. tauto. }
  rewrite <- Hd. destruct (decide (defined_values arr = [])) as [E|E].
  - unfold summarise. rewrite E. done.
  - destruct (summarise_defined arr None E) as (s & -> & _). split; [done|].
    intros H. done.
Qed.

(** ** [total_per_day] *)

Section TotalPerDay.

Implicit Types (r : DiaryStandardRecord) (recs : list DiaryStandardRecord).

Lemma matching_on_day_snoc record_filter recs r m :
  matching_on_day record_filter (recs ++ [r]) m
  = (matching_on_day record_filter recs m
     + if bool_decide (day_number r = Some (N.of_nat m)) &&
          match record_filter with Some p => p r | None => true end
       then 1 else 0)%Z.
Proof.
  unfold matching_on_day. rewrite List.filter_app, length_app. simpl.
  destruct (bool_decide _ && _); simpl; lia.
Qed.

Lemma matching_on_day_none record_filter recs m :
  Forall (λ r, day_number r ≠ Some (N.of_nat m)) recs →
  matching_on_day record_filter recs m = 0%Z.
Proof.
  unfold matching_on_day. intros H.
  assert (El : List.filter
                 (λ r, bool_decide (day_number r = Some (N.of_nat m)) &&
                       match record_filter with Some p => p r | None => true end)
                 recs = []); [|by rewrite El].
  induction H as [|x recs Hx _ IH]; cbn [List.filter]; [done|].
  rewrite bool_decide_false by done. exact IH.
Qed.

(** The array [counts] holds, for a day with records, the number of
    them that the record filter lets through. *)
Lemma day_counts_matching record_filter recs m :
  match read (day_counts record_filter recs) m with
  | Some c => c.1 = matching_on_day record_filter recs m
  | None => Forall (λ r, day_number r ≠ Some (N.of_nat m)) recs
  end.
Proof.
  induction recs as [|r recs IH] using rev_ind; [destruct m; constructor|].
  unfold day_counts in *. rewrite foldl_snoc.
  set (counts := foldl _ [] recs) in *.
  rewrite matching_on_day_snoc.
  destruct (day_number r) as [d|] eqn:Ed.
  - rewrite read_array_put, <- read_bind.
    destruct (decide (m = N.to_nat d)) as [->|Hne].
    + rewrite N2Nat.id, bool_decide_true by done. cbn [fst andb].
      destruct (read counts (N.to_nat d)) as [c|] eqn:Ec; cbn [from_option id fst].
      * rewrite IH. by destruct record_filter as [p|]; [destruct (p r)|].
      * assert (H0 : matching_on_day record_filter recs (N.to_nat d) = 0%Z)
          by (by apply matching_on_day_none).
        rewrite H0. by destruct record_filter as [p|]; [destruct (p r)|].
    + assert (Hd : Some d ≠ Some (N.of_nat m)) by (intros [= ->]; lia).
      rewrite bool_decide_false by done. cbn [andb].
      destruct (read counts m) as [c|]; [lia|].
      apply Forall_app. split; [done|]. constructor; [congruence|constructor].
  - rewrite bool_decide_false by done. cbn [andb].
    destruct (read counts m) as [c|]; [lia|].
    apply Forall_app. split; [done|]. constructor; [congruence|constructor].
Qed.

Lemma shift_undefined_drop {A} (counts : list (option A)) :
  ∃ k, shift_undefined counts = drop k counts.
Proof.
  induction counts as [|x counts [k IH]]; [by exists 0|].
  destruct x; [by exists 0|]. by exists (S k).
Qed.

Lemma read_slice {A} (from to : Z) (arr : list (option A)) j (x : A) :
  read (JS.slice from to arr) j = Some x →
  read arr (Z.to_nat from + j) = Some x ∧ (Z.to_nat from + j < Z.to_nat to).
Proof.
  unfold read, JS.slice.
  destruct (take _ _ !! j) as [o|] eqn:E; [|done].
  apply lookup_take_Some in E as [E Hj]. rewrite lookup_drop in E.
  rewrite E. intros ->. split; [done|lia].
Qed.

End TotalPerDay.

(** X13.  What [total_per_day] counts.  The defined elements of
    [durations] in its result are, for consecutive days from day 1 or a
    later day on, the number of records of that day that the record
    filter lets through, among the records that the day filter lets
    through.  Day 0 is never counted, and neither is the day of the last
    record of the diary (nor any later day). *)
Theorem total_per_day_counts
    (record_filter day_filter : option (DiaryStandardRecord → bool))
    (this : DiaryStandard) (stats : DiaryStandardStatistics) :
  (total_per_day record_filter day_filter this).1 = JS.Normal (Some stats) →
  ∃ k, ∀ i v, durations stats !! i = Some (Some v) →
    v = inject_Z (matching_on_day record_filter
                    (filter_records day_filter (records this)) (1 + k + i)) ∧
    ∀ r c, list.last (records this) = Some r → day_number r = Some c →
           1 + k + i < N.to_nat c.
Proof.
  unfold total_per_day. cbn [fst]. intros Hs.
  apply summarise_arrays in Hs as [Hd _].
  set (recs := filter_records day_filter (records this)) in *.
  set (counts := day_counts record_filter recs) in *.
  set (cutoff := match records this !! (length (records this) - 1) with
                 | Some r => day_number r
                 | None => Some 0%N
                 end) in *.
  set (sliced := match cutoff with
                 | Some c => JS.slice 1 (Z.of_N c) counts
                 | None => drop 1 counts
                 end) in *.
  destruct (shift_undefined_drop sliced) as [k Ek]. rewrite Ek in Hd.
  exists k. intros i v Hv. rewrite Hd in Hv. clear Hd.
  rewrite !list_lookup_fmap, lookup_drop in Hv.
  destruct (sliced !! (k + i)) as [[[c s]|]|] eqn:E; simpl in Hv; try done.
  injection Hv as <-.
  assert (Hr : read sliced (k + i) = Some (c, s)) by (unfold read; by rewrite E).
  assert (Hc : read counts (1 + k + i) = Some (c, s) ∧
               ∀ x, cutoff = Some x → 1 + k + i < N.to_nat x).
  { unfold sliced in Hr. destruct cutoff as [x|].
    - apply read_slice in Hr as [Hr Hlt]. split; [done|].
      intros ? [= <-]. lia.
    - rewrite read_drop in Hr. split; [|done].
      by replace (1 + k + i) with (1 + (k + i)) by lia. }
  destruct Hc as [Hc Hcut]. split.
  - pose proof (day_counts_matching record_filter recs (1 + k + i)) as Hm.
    fold counts in Hm. rewrite Hc in Hm. simpl in Hm. by rewrite Hm.
  - intros r x Hl Hx. apply Hcut. unfold cutoff.
    rewrite last_lookup in Hl.
    replace (length (records this) - 1) with (Init.Nat.pred (length (records this)))
      by lia.
    by rewrite Hl.
Qed.

Lemma total_per_day_counts_witness :
  ∃ k, ∀ i v,
    durations (returned_statistics
                 (total_per_day None None
                    (new_DiaryStandard three_nights no_settings)).1) !! i
    = Some (Some v) →
    v = inject_Z (matching_on_day None
                    (filter_records None
                       (records (new_DiaryStandard three_nights no_settings)))
                    (1 + k + i)) ∧
    ∀ r c, list.last (records (new_DiaryStandard three_nights no_settings)) = Some r →
           day_number r = Some c → 1 + k + i < N.to_nat c.
Proof.
  apply (total_per_day_counts None None (new_DiaryStandard three_nights no_settings)).
  vm_compute. reflexivity.
Defined.

(** ** [summarise_schedule] *)

Section ScheduleRange.

Lemma rem_range (a b : Q) :
  (0 <= a)%Q → (0 < b)%Q → (0 <= JS.rem a b)%Q ∧ (JS.rem a b < b)%Q.
Proof.
  intros Ha Hb. unfold JS.rem, JS.trunc.
  assert (Hq : (0 <= a / b)%Q) by (apply Qle_shift_div_l; [done|]; lra).
  assert (E : JS.lt_num (a / b) 0 = false) by (by apply lt_num_false).
  rewrite E.
  pose proof (Qfloor_le (a / b)) as H1. pose proof (Qlt_floor (a / b)) as H2.
  rewrite inject_Z_plus in H2. change (inject_Z 1) with 1%Q in H2.
  assert (Ea : (a == b * (a / b))%Q) by (field; lra).
  revert H1 H2 Ea. generalize (inject_Z (Qfloor (a / b))) (a / b)%Q.
  intros k q H1 H2 Ea. split; nra.
Qed.

Lemma date_offset_known zone (t : Z) (tz : string) :
  (zone_known zone tz → ∃ offset, date_offset zone t tz = JS.Normal offset) ∧
  (¬ zone_known zone tz → date_offset zone t tz = JS.Throw).
Proof.
  unfold zone_known, date_offset. destruct (zone "Etc/UTC") as [utc|].
  2: { split; [intros [[? ?] _]; done|done]. }
  case_decide as Etz.
  - split; [by eexists|]. intros H. destruct H. split; [by eexists|by left].
  - destruct (zone tz) as [z|].
    + split; [by eexists|]. intros H. destruct H. split; [by eexists|right; by eexists].
    + split; [|done]. intros [_ [?|[? ?]]]; done.
Qed.

(** The loop over the records returns when the provider knows the zones
    of the times it uses, and throws when it does not. *)
Lemma schedule_times_known zone key key_timezone timezone
    (recs : list DiaryStandardRecord) :
  let known r :=
    scheduled key r = true → zone_known zone (timezone_or (key_timezone r) timezone) in
  (Forall known recs →
   ∃ times, schedule_times zone key key_timezone timezone recs = JS.Normal times ∧
            (times = [] ↔ Forall (λ r, scheduled key r = false) recs)) ∧
  (¬ Forall known recs →
   schedule_times zone key key_timezone timezone recs = JS.Throw).
Proof.
  intros known. induction recs as [|r recs [IH1 IH2]]; cbn [schedule_times].
  { split; [|intros H; destruct H; constructor].
    intros _. eexists. split; [done|]. split; [constructor|done]. }
  fold (scheduled key r). destruct (scheduled key r) eqn:E.
  - destruct (date_offset_known zone (default 0%Z (key r))
                (timezone_or (key_timezone r) timezone)) as [K1 K2].
    unfold local_time. split.
    + intros H. apply list.Forall_cons in H as [Hr H].
      destruct (K1 (Hr E)) as (offset & ->).
      destruct (IH1 H) as (times & -> & _). eexists. split; [done|].
      split; [done|]. intros H'. apply list.Forall_cons in H' as [H' _]. congruence.
    + intros H.
      destruct (decide (zone_known zone (timezone_or (key_timezone r) timezone)))
        as [Hk|Hk].
      * destruct (K1 Hk) as (offset & ->). rewrite IH2; [done|].
        intros H'. apply H. constructor; [by intros _|done].
      * by rewrite (K2 Hk).
  - split.
    + intros H. apply list.Forall_cons in H as [_ H].
      destruct (IH1 H) as (times & -> & Ht). eexists. split; [done|].
      rewrite list.Forall_cons. tauto.
    + intros H. apply IH2. intros H'. apply H. constructor; [|done].
      unfold known. congruence.
Qed.

Lemma early_values_range (day_length : Z) (times : list Z) :
  (0 < day_length)%Z → Forall (λ t, 0 ≤ t)%Z times →
  Forall (λ x, 0 <= x ∧ x <= inject_Z (day_length - 1))%Q
    (defined_values (series_early day_length times)).
Proof.
  intros HD Ht. rewrite series_early_values. apply Forall_fmap.
  eapply List.Forall_impl; [|exact Ht]. simpl. intros t H0.
  rewrite (early_value_time_of_day day_length HD t H0). unfold time_of_day.
  pose proof (Z.mod_pos_bound t day_length HD) as [H1 H2].
  split.
  - change 0%Q with (inject_Z 0). by rewrite <- Zle_Qle.
  - rewrite <- Zle_Qle. lia.
Qed.

Lemma late_values_range (day_length : Z) (times : list Z) :
  (0 < day_length)%Z → Forall (λ t, 0 ≤ t)%Z times →
  Forall (λ x, 0 <= x ∧ x <= inject_Z day_length)%Q
    (defined_values (series_late day_length times)).
Proof.
  intros HD Ht. rewrite series_late_values. apply Forall_fmap.
  eapply List.Forall_impl; [|exact Ht]. simpl. intros t H0.
  assert (HDq : (0 < inject_Z day_length)%Q).
  { change 0%Q with (inject_Z 0). by rewrite <- Zlt_Qlt. }
  assert (Htq : (0 <= inject_Z t)%Q).
  { change 0%Q with (inject_Z 0). by rewrite <- Zle_Qle. }
  destruct (rem_range (inject_Z t + inject_Z day_length / 2) (inject_Z day_length))
    as [H1 H2]; [|done|split; lra].
  assert ((0 <= inject_Z day_length / 2)%Q) by (apply Qle_shift_div_l; lra). lra.
Qed.

Lemma back_range (day_length : Z) (x : Q) :
  (0 < day_length)%Z → (0 <= x)%Q →
  is_time_of_day day_length
    (JS.rem (x + inject_Z day_length / 2) (inject_Z day_length)).
Proof.
  intros HD Hx.
  assert (HDq : (0 < inject_Z day_length)%Q).
  { change 0%Q with (inject_Z 0). by rewrite <- Zlt_Qlt. }
  apply rem_range; [|done].
  assert ((0 <= inject_Z day_length / 2)%Q) by (apply Qle_shift_div_l; lra). lra.
Qed.

(** One member of the result of [summarise_schedule]. *)
Lemma schedule_statistics_result
    (rounded_lower : DiaryStandardStatistics → DiaryStandardStatistics → bool)
    (day_length : Z) (times : list Z) :
  ∃ result, schedule_statistics rounded_lower day_length times = JS.Normal result ∧
    (result = None ↔ times = []) ∧
    ((0 < day_length)%Z → Forall (λ t, 0 ≤ t)%Z times →
     ∀ stats, result = Some stats →
       is_time_of_day day_length (average stats) ∧
       is_time_of_day day_length (mean stats) ∧
       is_time_of_day day_length (interquartile_mean stats) ∧
       is_time_of_day day_length (median stats)).
Proof.
  destruct (schedule_statistics_choice rounded_lower day_length times)
    as (result & Hr & Hc).
  exists result. split; [done|]. unfold schedule_choice in Hc. cbv zeta in Hc.
  fold (series_early day_length times) in Hc.
  fold (series_late day_length times) in Hc.
  destruct (series_defined_values_length day_length times) as [Le Ll].
  destruct times as [|t times].
  { simpl in Hc. subst result. split; [done|]. intros _ _ stats H. done. }
  destruct (summarise_defined (series_early day_length (t :: times)) (Some day_length))
    as (e & He & _); [by destruct (defined_values _)|].
  destruct (summarise_defined (series_late day_length (t :: times)) (Some day_length))
    as (l & Hl & _); [by destruct (defined_values _)|].
  rewrite He, Hl in Hc. destruct Hc as (_ & _ & Hc). split.
  { split; [|done]. intros ->. by destruct Hc as [?|(r & ? & _)]. }
  intros HD Ht stats ->.
  assert (Hlt : ∀ x : Q, (0 <= x ∧ x <= inject_Z (day_length - 1))%Q →
                         is_time_of_day day_length x).
  { intros x [H1 H2]. split; [done|]. eapply Qle_lt_trans; [exact H2|].
    rewrite <- Zlt_Qlt. lia. }
  destruct Hc as [Hc|Hc].
  - injection Hc as ->.
    destruct (summarise_means_between _ _ _ _ _ He (early_values_range _ _ HD Ht))
      as (Hm & Ha & Hiq).
    destruct (summarise_median_between _ _ _ _ _ He (early_values_range _ _ HD Ht))
      as (Hmed & _).
    rewrite Ha. auto.
  - destruct Hc as (r & [= ->] & -> & -> & -> & -> & _).
    destruct (summarise_means_between _ _ _ _ _ Hl (late_values_range _ _ HD Ht))
      as ([Hm _] & Ha & [Hiq _]).
    destruct (summarise_median_between _ _ _ _ _ Hl (late_values_range _ _ HD Ht))
      as ([Hmed _] & _).
    rewrite Ha. repeat split; by apply back_range.
Qed.

End ScheduleRange.

(** X14.  When [summarise_schedule] returns, and when it has nothing to
    report.  The call returns when the calendar provider knows the zone of
    every time the call uses (the start and end times other than 0 of the
    primary sleeps the filter lets through), and throws when it does not
    know one of them.  When it returns, [sleep] is [null] exactly when no
    record that the filter lets through is a primary sleep with a start
    time other than 0, and [wake] is [null] exactly when none is a primary
    sleep with an end time other than 0. *)
Theorem summarise_schedule_null (zone : string → option (Z → Z))
    (system_timezone : string)
    (rounded_lower : DiaryStandardStatistics → DiaryStandardStatistics → bool)
    (f : option (DiaryStandardRecord → bool))
    (day_length : option Z) (timezone : option string) (this : DiaryStandard) :
  let tz := timezone_or timezone system_timezone in
  let recs := filter_records f (records this) in
  (Forall (zones_known zone tz) recs →
   ∃ result,
     summarise_schedule zone system_timezone rounded_lower f day_length timezone this
       = (JS.Normal result, this) ∧
     (sleep result = None ↔ Forall (λ r, scheduled start r = false) recs) ∧
     (wake result = None ↔ Forall (λ r, scheduled end_ r = false) recs)) ∧
  (¬ Forall (zones_known zone tz) recs →
   summarise_schedule zone system_timezone rounded_lower f day_length timezone this
     = (JS.Throw, this)).
Proof.
  intros tz recs. unfold summarise_schedule. fold tz recs.
  set (length_of_day := JS.or_default day_length (24 * (60 * 60 * 1000))%Z).
  destruct (schedule_times_known zone start start_timezone tz recs) as [S1 S2].
  destruct (schedule_times_known zone end_ end_timezone tz recs) as [W1 W2].
  cbv zeta in S1, S2, W1, W2. split.
  - intros H.
    destruct S1 as (sleep_times & -> & Hs0).
    { eapply List.Forall_impl; [|exact H]. by intros r [? _]. }
    destruct W1 as (wake_times & -> & Hw0).
    { eapply List.Forall_impl; [|exact H]. by intros r [_ ?]. }
    destruct (schedule_statistics_result rounded_lower length_of_day sleep_times)
      as (s & -> & Hs & _).
    destruct (schedule_statistics_result rounded_lower length_of_day wake_times)
      as (w & -> & Hw & _).
    eexists. split; [reflexivity|]. cbn [sleep wake].
    rewrite Hs, Hw. done.
  - intros H.
    destruct (decide (Forall (λ r, scheduled start r = true →
                zone_known zone (timezone_or (start_timezone r) tz)) recs)) as [Hs|Hs].
    + destruct S1 as (sleep_times & -> & _); [done|].
      rewrite W2; [done|]. intros Hw. apply H.
      apply Forall_forall. intros r Hr. rewrite Forall_forall in Hs, Hw.
      split; [by apply Hs|by apply Hw].
    + by rewrite S2.
Qed.

Lemma summarise_schedule_null_witness :
  (∃ result,
     summarise_schedule paris_zone "Etc/GMT" ties_early None None None paris_diary
       = (JS.Normal result, paris_diary) ∧
     sleep result ≠ None) ∧
  summarise_schedule paris_zone "Etc/GMT" ties_early None None None midnight_diary
    = (JS.Throw, midnight_diary).
Proof.
  split.
  - destruct (summarise_schedule_null paris_zone "Etc/GMT" ties_early None None None
                paris_diary) as [H _].
    destruct H as (result & Hr & Hs & _).
    + apply (bool_decide_unpack _). vm_compute. exact I.
    + exists result. split; [exact Hr|]. intros E. apply Hs in E.
      pose proof (Forall_lookup_1 _ _ 0 _ E eq_refl) as E0. discriminate E0.
  - apply (summarise_schedule_null paris_zone "Etc/GMT" ties_early None None None
             midnight_diary).
    intros H. apply (bool_decide_pack _) in H. vm_compute in H. exact H.
Defined.

(** X15.  What [summarise_schedule] reports are times of day.  When the
    day length is positive, the zones of the times resolve and the local
    times of the primary sleeps are not negative (not before 1970),
    [average], [mean],
    [interquartile_mean] and [median] of [sleep] and of [wake] are at
    least 0 and less than the day length, whichever of the two series was
    chosen. *)
Theorem summarise_schedule_times_of_day (zone : string → option (Z → Z))
    (system_timezone : string)
    (rounded_lower : DiaryStandardStatistics → DiaryStandardStatistics → bool)
    (f : option (DiaryStandardRecord → bool))
    (day_length : option Z) (timezone : option string) (this : DiaryStandard)
    (sleep_times wake_times : list Z) :
  let length_of_day := JS.or_default day_length (24 * (60 * 60 * 1000))%Z in
  let tz := timezone_or timezone system_timezone in
  let recs := filter_records f (records this) in
  (0 < length_of_day)%Z →
  schedule_times zone start start_timezone tz recs = JS.Normal sleep_times →
  schedule_times zone end_ end_timezone tz recs = JS.Normal wake_times →
  Forall (λ t, 0 ≤ t)%Z sleep_times →
  Forall (λ t, 0 ≤ t)%Z wake_times →
  ∃ result,
    summarise_schedule zone system_timezone rounded_lower f day_length timezone this
      = (JS.Normal result, this) ∧
    ∀ stats, sleep result = Some stats ∨ wake result = Some stats →
      is_time_of_day length_of_day (average stats) ∧
      is_time_of_day length_of_day (mean stats) ∧
      is_time_of_day length_of_day (interquartile_mean stats) ∧
      is_time_of_day length_of_day (median stats).
Proof.
  cbv zeta. unfold summarise_schedule.
  set (length_of_day := JS.or_default day_length (24 * (60 * 60 * 1000))%Z).
  intros HD -> -> Hsleep Hwake.
  destruct (schedule_statistics_result rounded_lower length_of_day sleep_times)
    as (s & -> & _ & Hs).
  destruct (schedule_statistics_result rounded_lower length_of_day wake_times)
    as (w & -> & _ & Hw).
  eexists. split; [reflexivity|]. cbn [sleep wake].
  intros stats [H|H]; [by apply Hs|by apply Hw].
Qed.

Lemma summarise_schedule_times_of_day_witness :
  ∃ result,
    summarise_schedule paris_zone "Etc/GMT" ties_early None None None paris_diary
      = (JS.Normal result, paris_diary) ∧
    ∀ stats, sleep result = Some stats ∨ wake result = Some stats →
      is_time_of_day (JS.or_default None (24 * (60 * 60 * 1000))) (average stats) ∧
      is_time_of_day (JS.or_default None (24 * (60 * 60 * 1000))) (mean stats) ∧
      is_time_of_day (JS.or_default None (24 * (60 * 60 * 1000)))
        (interquartile_mean stats) ∧
      is_time_of_day (JS.or_default None (24 * (60 * 60 * 1000))) (median stats).
Proof.
  apply (summarise_schedule_times_of_day paris_zone "Etc/GMT" ties_early
           None None None paris_diary
           [(23 * hour + 55 * minute)%Z; (48 * hour + 5 * minute)%Z;
            (71 * hour + 55 * minute)%Z]
           [(31 * hour)%Z; (55 * hour)%Z; (79 * hour)%Z]).
  - reflexivity.
  - vm_compute. reflexivity.
  - vm_compute. reflexivity.
  - apply (bool_decide_unpack _). vm_compute. exact I.
  - apply (bool_decide_unpack _). vm_compute. exact I.
Defined.

(** ** [merge] *)

Section MergeKey.

Implicit Types (s t : string) (r : DiaryStandardRecord).

Lemma pretty_N_char_no_comma (x : N) : pretty.pretty_N_char x ≠ comma.
Proof. unfold pretty.pretty_N_char. by repeat case_match. Qed.

Lemma pretty_N_go_no_comma (x : N) s : no_comma s → no_comma (pretty.pretty_N_go x s).
Proof.
  revert s. induction (N.lt_wf_0 x) as [x _ IH]. intros s Hs.
  destruct (decide (x = 0%N)) as [->|Hx]; [by rewrite pretty.pretty_N_go_0|].
  rewrite pretty.pretty_N_go_step by lia. apply IH.
  - apply N.div_lt; lia.
  - split; [apply pretty_N_char_no_comma|done].
Qed.

Lemma pretty_N_go_length (x : N) s :
  String.length s ≤ String.length (pretty.pretty_N_go x s).
Proof.
  revert s. induction (N.lt_wf_0 x) as [x _ IH]. intros s.
  destruct (decide (x = 0%N)) as [->|Hx]; [by rewrite pretty.pretty_N_go_0|].
  rewrite pretty.pretty_N_go_step by lia.
  etransitivity; [|apply IH; apply N.div_lt; lia]. simpl. lia.
Qed.

Lemma pretty_N_no_comma (x : N) : no_comma (pretty.pretty x).
Proof.
  unfold pretty.pretty, pretty.pretty_N. case_decide.
  - repeat split; done.
  - by apply pretty_N_go_no_comma.
Qed.

Lemma pretty_N_nonempty (x : N) : pretty.pretty x ≠ "".
Proof.
  unfold pretty.pretty, pretty.pretty_N. case_decide; [done|].
  rename H into Hx. rewrite pretty.pretty_N_go_step by lia. intros E.
  pose proof (pretty_N_go_length (x `div` 10)
                (String (pretty.pretty_N_char (x `mod` 10)) "")) as H.
  rewrite E in H. simpl in H. lia.
Qed.

Lemma pretty_Z_no_comma (x : Z) : no_comma (pretty.pretty x).
Proof.
  destruct x as [|p|p]; unfold pretty.pretty, pretty.pretty_Z.
  - repeat split; done.
  - apply pretty_N_no_comma.
  - split; [done|]. apply pretty_N_no_comma.
Qed.

Lemma pretty_Z_nonempty (x : Z) : pretty.pretty x ≠ "".
Proof.
  destruct x as [|p|p]; unfold pretty.pretty, pretty.pretty_Z; [done| |done].
  apply pretty_N_nonempty.
Qed.

Lemma join_item_no_comma (x : option Z) : no_comma (join_item x).
Proof. destruct x; simpl; [apply pretty_Z_no_comma|done]. Qed.

Lemma join_item_inj (x y : option Z) : join_item x = join_item y → x = y.
Proof.
  destruct x as [x|], y as [y|]; simpl; intros H.
  - f_equal. by apply (inj pretty.pretty).
  - by apply pretty_Z_nonempty in H.
  - symmetry in H. by apply pretty_Z_nonempty in H.
  - done.
Qed.

(** Two pieces without commas, each followed by a comma and a rest:
    equal strings have equal pieces. *)
Lemma comma_split s s' t t' :
  no_comma s → no_comma s' →
  s +:+ "," +:+ t = s' +:+ "," +:+ t' → s = s' ∧ t = t'.
Proof.
  revert s'. induction s as [|c s IH]; intros [|c' s'] Hs Hs' H.
  - change (String comma t = String comma t') in H. by simplify_eq.
  - change (String comma t = String c' (s' +:+ "," +:+ t')) in H.
    destruct Hs' as [Hc _]. by simplify_eq.
  - change (String c (s +:+ "," +:+ t) = String comma t') in H.
    destruct Hs as [Hc _]. by simplify_eq.
  - change (String c (s +:+ "," +:+ t) = String c' (s' +:+ "," +:+ t')) in H.
    destruct Hs as [_ Hs], Hs' as [_ Hs']. simplify_eq.
    match goal with E : _ +:+ _ = _ |- _ => destruct (IH s' Hs Hs' E) as [-> ->] end.
    done.
Qed.

(** The key of [merge] tells apart exactly status, start and end. *)
Lemma merge_key_timing r r' : merge_key r = merge_key r' ↔ timing r = timing r'.
Proof.
  unfold merge_key, timing. split.
  - intros H.
    apply comma_split in H as [Hs H]; [|apply join_item_no_comma..].
    apply comma_split in H as [He Hst]; [|apply join_item_no_comma..].
    apply join_item_inj in Hs, He. congruence.
  - intros [= -> -> ->]. done.
Qed.

End MergeKey.

Section ObjectSet.

Context {A : Type}.
Implicit Types (o : list (string * A)) (k : string) (v : A).

Lemma object_set_keys k v o :
  (object_set k v o).*1 = if decide (k ∈ o.*1) then o.*1 else o.*1 ++ [k].
Proof.
  induction o as [|[k0 w] o IH].
  - destruct (decide (k ∈ ([] : list (string * A)).*1)) as [H|H]; [|done].
    by apply elem_of_nil in H.
  - cbn [object_set]. rewrite fmap_cons. cbn [fst].
    destruct (decide (k0 = k)) as [->|Hne].
    + rewrite fmap_cons. cbn [fst].
      destruct (decide (k ∈ k :: o.*1)) as [H|H]; [done|]. destruct H. by left.
    + rewrite fmap_cons, IH. cbn [fst].
      destruct (decide (k ∈ o.*1)) as [Hin|Hin],
        (decide (k ∈ k0 :: o.*1)) as [Hin'|Hin']; try done.
      * destruct Hin'. by right.
      * apply elem_of_cons in Hin' as [?|?]; congruence.
Qed.

Lemma object_set_to_map k v o :
  list_to_map (object_set k v o) =@{gmap string A} <[k := v]> (list_to_map o).
Proof.
  induction o as [|[k0 w] o IH]; simpl; [done|].
  destruct (decide (k0 = k)) as [->|Hne]; simpl.
  - by rewrite insert_insert_eq.
  - rewrite IH. by apply insert_insert_ne.
Qed.

Lemma object_set_NoDup k v o : NoDup o.*1 → NoDup (object_set k v o).*1.
Proof.
  intros H. rewrite object_set_keys. case_decide; [done|].
  apply list.NoDup_app. split; [done|]. split.
  - intros x Hx Hk. apply list_elem_of_singleton in Hk. by subst.
  - apply list.NoDup_singleton.
Qed.

Lemma object_set_Forall (P : string * A → Prop) k v o :
  P (k, v) → Forall P o → Forall P (object_set k v o).
Proof.
  intros Hkv. induction 1 as [|[k0 w] o Hp Ho IH]; simpl.
  - by repeat constructor.
  - destruct (decide (k0 = k)) as [->|Hne]; by constructor.
Qed.

(** Writing the value a property already has changes nothing. *)
Lemma object_set_same k v o : (k, v) ∈ o → NoDup o.*1 → object_set k v o = o.
Proof.
  induction o as [|[k0 w] o IH]; simpl; [by intros ?%elem_of_nil|].
  intros Hin Hnd. apply list.NoDup_cons in Hnd as [Hk0 Hnd].
  destruct (decide (k0 = k)) as [->|Hne].
  - apply elem_of_cons in Hin as [Hin|Hin]; [congruence|].
    destruct Hk0. apply list_elem_of_fmap. by exists (k, v).
  - apply elem_of_cons in Hin as [Hin|Hin]; [congruence|].
    by rewrite IH.
Qed.

End ObjectSet.

Section Merge.

Implicit Types (r : DiaryStandardRecord) (l recs : list DiaryStandardRecord).

Lemma merge_records_snoc l r :
  merge_records (l ++ [r]) = object_set (merge_key r) r (merge_records l).
Proof. unfold merge_records. by rewrite foldl_snoc. Qed.

(** The object [records] has every record under its own key, and no key
    twice. *)
Lemma merge_records_keys l :
  Forall (λ p, p.1 = merge_key p.2) (merge_records l) ∧ NoDup (merge_records l).*1.
Proof.
  induction l as [|r l [IH1 IH2]] using rev_ind; [split; constructor|].
  rewrite merge_records_snoc. split.
  - by apply object_set_Forall.
  - by apply object_set_NoDup.
Qed.

Lemma merge_records_values_keys l :
  merge_key <$> object_values (merge_records l) = (merge_records l).*1.
Proof.
  destruct (merge_records_keys l) as [H _]. unfold object_values.
  induction H as [|[k r] o Hk _ IH]; [done|].
  rewrite !fmap_cons. cbn [fst snd] in *. by rewrite IH, Hk.
Qed.

(** The record the object holds under the key [k]: the last one of the
    list with this key. *)
Lemma merge_records_lookup l k r :
  (k, r) ∈ merge_records l ↔
  ∃ i, l !! i = Some r ∧ merge_key r = k ∧
       ∀ j r', i < j → l !! j = Some r' → merge_key r' ≠ k.
Proof.
  destruct (merge_records_keys l) as [_ Hnd].
  rewrite (elem_of_list_to_map (M := gmap string)) by done. clear Hnd.
  induction l as [|x l IH] using rev_ind.
  - simpl. rewrite lookup_empty. split; [done|]. by intros (i & ? & _).
  - rewrite merge_records_snoc, object_set_to_map.
    destruct (decide (merge_key x = k)) as [<-|Hne].
    + rewrite lookup_insert_eq. split.
      * intros [= <-]. exists (length l). split; [|split; [done|]].
        -- by rewrite lookup_app_r, Nat.sub_diag by lia.
        -- intros j r' Hj Hr'. apply lookup_lt_Some in Hr'.
           rewrite length_app in Hr'. simpl in Hr'. lia.
      * intros (i & Hi & Hk & Hlast).
        destruct (decide (i = length l)) as [->|Hi'].
        -- rewrite lookup_app_r, Nat.sub_diag in Hi by lia. simpl in Hi. congruence.
        -- assert (i < length l).
           { apply lookup_lt_Some in Hi. rewrite length_app in Hi. simpl in Hi. lia. }
           destruct (Hlast (length l) x); [lia| |done].
           by rewrite lookup_app_r, Nat.sub_diag by lia.
    + rewrite lookup_insert_ne by done. rewrite IH. split.
      * intros (i & Hi & Hk & Hlast). exists i. split; [|split; [done|]].
        -- by apply lookup_app_l_Some.
        -- intros j r' Hj Hr'. apply lookup_app_Some in Hr' as [Hr'|[Hlen Hr']].
           ++ by apply (Hlast j).
           ++ destruct (j - length l) as [|n]; [|done]. simpl in Hr'. congruence.
      * intros (i & Hi & Hk & Hlast).
        apply lookup_app_Some in Hi as [Hi|[Hlen Hi]].
        -- exists i. split; [done|]. split; [done|]. intros j r' Hj Hr'.
           apply (Hlast j); [done|]. by apply lookup_app_l_Some.
        -- destruct (i - length l) as [|n]; [|done]. simpl in Hi. congruence.
Qed.

Lemma NoDup_fmap_coarser {B C} (f : DiaryStandardRecord → B)
    (g : DiaryStandardRecord → C) l :
  (∀ x y, g x = g y → f x = f y) → NoDup (f <$> l) → NoDup (g <$> l).
Proof.
  intros Hfg. induction l as [|x l IH]; simpl; [constructor|].
  rewrite !list.NoDup_cons. intros [Hx Hl]. split; [|by apply IH].
  intros Hin. apply Hx. apply list_elem_of_fmap in Hin as (y & Hy & Hin).
  apply list_elem_of_fmap. exists y. split; [by apply Hfg|done].
Qed.

(** A list without two records of the same key is stored as it is. *)
Lemma merge_records_NoDup l :
  NoDup (merge_key <$> l) → merge_records l = (λ r, (merge_key r, r)) <$> l.
Proof.
  induction l as [|r l IH] using rev_ind; [done|].
  rewrite fmap_app. intros Hnd. apply list.NoDup_app in Hnd as (Hl & Hr & _).
  rewrite merge_records_snoc, fmap_app, IH by done. simpl.
  assert (Hk : merge_key r ∉ ((λ r, (merge_key r, r)) <$> l).*1).
  { rewrite <- list_fmap_compose. intros Hin. apply (Hr _ Hin). by left. }
  revert Hk. generalize ((λ r, (merge_key r, r)) <$> l). intros o.
  induction o as [|[k0 w] o IHo]; simpl; [done|]. intros Hk.
  apply not_elem_of_cons in Hk as [Hk0 Hk].
  rewrite decide_False by done. by rewrite IHo.
Qed.

End Merge.

(** X16.  After [merge], no two records of the diary have the same
    status, start and end. *)
Theorem merge_no_duplicates (this other : DiaryStandard) :
  NoDup (timing <$> records (merge this other)).
Proof.
  unfold merge. cbn [records].
  set (o := merge_records (records this ++ records other)).
  rewrite (fmap_Permutation timing _ _ (sort_Permutation start_end_after _)).
  apply (NoDup_fmap_coarser merge_key timing).
  - intros x y. apply merge_key_timing.
  - unfold o. rewrite merge_records_values_keys. apply merge_records_keys.
Qed.

(** X17.  What [merge] keeps.  The merged diary holds the records of the
    two diaries, [this] first, except those that are followed by a record
    with the same status, start and end: of such records the last one
    stays, so a record of [other] replaces its counterpart of [this].
    The records are taken as they are: [merge] derives nothing again. *)
Theorem merge_keeps_last (this other : DiaryStandard) (r : DiaryStandardRecord) :
  r ∈ records (merge this other) ↔
  ∃ i, (records this ++ records other) !! i = Some r ∧
       ∀ j r', i < j → (records this ++ records other) !! j = Some r' →
               timing r' ≠ timing r.
Proof.
  unfold merge. cbn [records].
  rewrite (sort_Permutation start_end_after _).
  set (l := records this ++ records other).
  destruct (merge_records_keys l) as [Hkeys _].
  unfold object_values. rewrite list_elem_of_fmap. split.
  - intros ([k r0] & -> & Hin). simpl.
    apply merge_records_lookup in Hin as (i & Hi & Hk & Hlast).
    exists i. split; [done|]. intros j r' Hj Hr' Ht.
    apply (Hlast j r' Hj Hr'). rewrite <- Hk. by apply merge_key_timing.
  - intros (i & Hi & Hlast). exists (merge_key r, r). split; [done|].
    apply merge_records_lookup. exists i. split; [done|]. split; [done|].
    intros j r' Hj Hr' Hk. apply (Hlast j r' Hj Hr'). by apply merge_key_timing.
Qed.

Section MergeAgain.

Implicit Types (r : DiaryStandardRecord) (l recs : list DiaryStandardRecord)
  (o : list (string * DiaryStandardRecord)) (m : gmap string DiaryStandardRecord).

(** Two objects with the same keys in the same order and the same value
    under every key are the same. *)
Lemma object_eq o o' :
  o.*1 = o'.*1 → NoDup o.*1 →
  list_to_map o =@{gmap string DiaryStandardRecord} list_to_map o' → o = o'.
Proof.
  revert o'. induction o as [|[k v] o IH]; intros [|[k' v'] o'] Hk Hnd Hm;
    try done.
  rewrite !fmap_cons in Hk. cbn [fst] in Hk. injection Hk as <- Hk.
  rewrite fmap_cons in Hnd. cbn [fst] in Hnd.
  apply list.NoDup_cons in Hnd as [Hko Hnd].
  simpl in Hm.
  assert (Ev : v = v').
  { apply (f_equal (λ x, x !! k)) in Hm. rewrite !lookup_insert_eq in Hm. congruence. }
  subst v'. f_equal. apply IH; [done|done|].
  apply (f_equal (delete k)) in Hm.
  rewrite !delete_insert_id in Hm; [done|..];
    apply not_elem_of_list_to_map_1; congruence.
Qed.

Lemma foldl_object_set_keys o l :
  Forall (λ r, merge_key r ∈ o.*1) l →
  (foldl (λ o r, object_set (merge_key r) r o) o l).*1 = o.*1.
Proof.
  induction l as [|r l IH] using rev_ind; [done|]. intros H.
  apply Forall_app in H as [Hl Hr]. apply list.Forall_cons in Hr as [Hr _].
  rewrite foldl_snoc, object_set_keys, IH by done. by rewrite decide_True.
Qed.

Lemma foldl_object_set_to_map o l :
  list_to_map (foldl (λ o r, object_set (merge_key r) r o) o l)
  =@{gmap string DiaryStandardRecord}
  foldl (λ m r, <[merge_key r := r]> m) (list_to_map o) l.
Proof.
  induction l as [|r l IH] using rev_ind; [done|].
  by rewrite !foldl_snoc, object_set_to_map, IH.
Qed.

Lemma foldl_insert_lookup m l (k : string) :
  foldl (λ m r, <[merge_key r := r]> m) m l !! k
  = match list.last (filter (λ r, merge_key r = k) l) with
    | Some r => Some r
    | None => m !! k
    end.
Proof.
  induction l as [|x l IH] using rev_ind; [done|].
  rewrite foldl_snoc, list.filter_app.
  destruct (decide (merge_key x = k)) as [E|E].
  - rewrite E, lookup_insert_eq.
    rewrite (filter_cons_True _ x []) by done.
    rewrite filter_nil. by rewrite last_snoc.
  - rewrite lookup_insert_ne by done.
    rewrite (filter_cons_False _ x []) by done.
    rewrite filter_nil. by rewrite app_nil_r.
Qed.

(** Storing the records of a list a second time changes nothing. *)
Lemma foldl_insert_twice m l :
  foldl (λ m r, <[merge_key r := r]> m)
        (foldl (λ m r, <[merge_key r := r]> m) m l) l
  = foldl (λ m r, <[merge_key r := r]> m) m l.
Proof.
  apply map_eq. intros k. rewrite !foldl_insert_lookup.
  by destruct (list.last _).
Qed.

Lemma merge_records_has_key l r :
  r ∈ l → merge_key r ∈ (merge_records l).*1.
Proof.
  induction l as [|x l IH] using rev_ind; [by intros ?%elem_of_nil|].
  rewrite merge_records_snoc, object_set_keys. intros Hr.
  apply elem_of_app in Hr as [Hr|Hr].
  - case_decide; [by apply IH|]. apply elem_of_app. left. by apply IH.
  - apply list_elem_of_singleton in Hr as ->.
    case_decide; [done|]. apply elem_of_app. right. by left.
Qed.

Lemma merge_records_own_keys l :
  merge_records l = (λ r, (merge_key r, r)) <$> object_values (merge_records l).
Proof.
  destruct (merge_records_keys l) as [H _]. unfold object_values.
  induction H as [|[k r] o Hk _ IH]; [done|].
  rewrite !fmap_cons. cbn [fst snd] in *. by rewrite <- IH, Hk.
Qed.

(** Merging the stored records once more with the second list gives the
    stored records. *)
Lemma merge_records_again l1 l2 s :
  s ≡ₚ object_values (merge_records (l1 ++ l2)) →
  object_values (merge_records (s ++ l2)) = s.
Proof.
  intros Hs.
  set (o1 := merge_records (l1 ++ l2)) in *.
  destruct (merge_records_keys (l1 ++ l2)) as [_ Hnd1]. fold o1 in Hnd1.
  assert (Hks : merge_key <$> s ≡ₚ o1.*1).
  { unfold o1. rewrite <- merge_records_values_keys. fold o1. by rewrite Hs. }
  assert (Hnds : NoDup (merge_key <$> s)) by (by rewrite Hks).
  assert (Es : merge_records s = (λ r, (merge_key r, r)) <$> s)
    by (by apply merge_records_NoDup).
  assert (Hvs : object_values (merge_records s) = s).
  { rewrite Es. unfold object_values. rewrite <- list_fmap_compose.
    apply list_fmap_id. }
  rewrite <- Hvs at 2. f_equal.
  unfold merge_records at 1. rewrite foldl_app. fold (merge_records s).
  assert (Hkeys : (merge_records s).*1 = merge_key <$> s).
  { rewrite Es, <- list_fmap_compose. done. }
  apply object_eq.
  - apply foldl_object_set_keys. apply Forall_forall. intros r Hr.
    rewrite Hkeys, Hks. unfold o1. apply merge_records_has_key.
    apply elem_of_app. right. by apply list_elem_of_In.
  - rewrite foldl_object_set_keys; [by rewrite Hkeys|].
    apply Forall_forall. intros r Hr.
    rewrite Hkeys, Hks. unfold o1. apply merge_records_has_key.
    apply elem_of_app. right. by apply list_elem_of_In.
  - rewrite foldl_object_set_to_map.
    assert (Em : list_to_map (merge_records s)
                 =@{gmap string DiaryStandardRecord} list_to_map o1).
    { rewrite Es. unfold o1 at 1. rewrite merge_records_own_keys. fold o1.
      apply list_to_map_proper.
      - by rewrite <- list_fmap_compose.
      - by apply fmap_Permutation. }
    rewrite Em. unfold o1, merge_records. rewrite foldl_app.
    rewrite !foldl_object_set_to_map. apply foldl_insert_twice.
Qed.

End MergeAgain.

Section MergeOrder.

Lemma merge_records_values_Forall (P : DiaryStandardRecord → Prop)
    (l : list DiaryStandardRecord) :
  Forall P l → Forall P (object_values (merge_records l)).
Proof.
  intros Hl. apply Forall_forall. intros r Hr. apply list_elem_of_In in Hr.
  unfold object_values in Hr. apply list_elem_of_fmap in Hr as ([k r'] & -> & Hp).
  apply merge_records_lookup in Hp as (i & Hi & _). simpl.
  apply (Forall_lookup_1 _ _ _ _ Hl Hi).
Qed.

(** The list [merge] leaves is in the order of the comparator when the
    records have both times. *)
Lemma merge_sorted (this other : DiaryStandard) :
  Forall has_times (records this) → Forall has_times (records other) →
  Forall has_times (records (merge this other)) ∧
  StronglySorted (λ a b, start_end_after a b = false) (records (merge this other)).
Proof.
  intros H1 H2. unfold merge. cbn [records].
  assert (Hv : Forall has_times
                 (object_values (merge_records (records this ++ records other)))).
  { apply merge_records_values_Forall. by apply Forall_app. }
  split.
  - by rewrite sort_Permutation.
  - by apply (sort_sorted start_end_after has_times start_end_after_consistent).
Qed.

End MergeOrder.

(** X18.  Merging the same diary in a second time changes nothing, for
    diaries whose records all have a start and an end time: [merge] is
    idempotent in its argument. *)
Theorem merge_idempotent (this other : DiaryStandard) :
  Forall has_times (records this) → Forall has_times (records other) →
  merge (merge this other) other = merge this other.
Proof.
  intros H1 H2. destruct (merge_sorted this other H1 H2) as [Ht Hs].
  unfold merge at 1.
  rewrite (merge_records_again (records this) (records other)
             (records (merge this other))).
  - rewrite (sort_sorted_records _ Ht Hs). unfold merge. by cbn [records settings].
  - unfold merge. cbn [records]. apply sort_Permutation.
Qed.

Lemma merge_idempotent_witness :
  merge (merge (new_DiaryStandard [night] no_settings)
               (new_DiaryStandard [nap; night] no_settings))
        (new_DiaryStandard [nap; night] no_settings)
  = merge (new_DiaryStandard [night] no_settings)
          (new_DiaryStandard [nap; night] no_settings).
Proof.
  apply (merge_idempotent (new_DiaryStandard [night] no_settings)
           (new_DiaryStandard [nap; night] no_settings)).
  - apply (new_DiaryStandard_has_times [night] no_settings).
    repeat constructor; by eexists.
  - apply (new_DiaryStandard_has_times [nap; night] no_settings).
    repeat constructor; by eexists.
Defined.

(** X19.  Merging a diary into itself.  When every input record has a
    start and an end time and no two have the same status, start and end,
    the diary the constructor builds is left as it is by a merge with
    itself: no record is dropped or moved, and the derived fields stay. *)
Theorem merge_self (contents_records : list DiaryStandardRecord)
    (contents_settings : FileSettings) :
  Forall has_times contents_records →
  NoDup (timing <$> contents_records) →
  merge (new_DiaryStandard contents_records contents_settings)
        (new_DiaryStandard contents_records contents_settings)
  = new_DiaryStandard contents_records contents_settings.
Proof.
  intros Htimes Hin.
  set (d := new_DiaryStandard contents_records contents_settings).
  assert (Hnd : NoDup (merge_key <$> records d)).
  { apply (NoDup_fmap_coarser timing merge_key).
    - intros x y. apply merge_key_timing.
    - unfold d. rewrite stored_timing. unfold sorted_records.
      by rewrite (fmap_Permutation timing _ _ (sort_Permutation start_end_after _)). }
  unfold merge.
  rewrite (merge_records_again [] (records d) (records d)).
  - rewrite sort_sorted_records;
      [by destruct d|by apply new_DiaryStandard_has_times
      |by apply new_DiaryStandard_sorted].
  - rewrite app_nil_l, (merge_records_NoDup _ Hnd). unfold object_values.
    rewrite <- list_fmap_compose. by rewrite list_fmap_id.
Qed.

Lemma merge_self_witness :
  merge (new_DiaryStandard [nap; night] no_settings)
        (new_DiaryStandard [nap; night] no_settings)
  = new_DiaryStandard [nap; night] no_settings.
Proof.
  apply (merge_self [nap; night] no_settings).
  - repeat constructor; by eexists.
  - apply (bool_decide_unpack _). vm_compute. exact I.
Defined.

(** ** Utility functions of [DiaryBase] *)

Section ZeroPad.

Implicit Types (s zeros : string) (n : Z).

Lemma string_length_app s t :
  String.length (s +:+ t) = String.length s + String.length t.
Proof. induction s as [|c s IH]; simpl; [done|]. by rewrite IH. Qed.

Lemma zeros_string_length k : String.length (zeros_string k) = k.
Proof.
  induction k as [|k IH]; [done|]. simpl.
  rewrite string_length_app, IH. simpl. lia.
Qed.

Lemma zeros_string_iter k :
  zeros_string k = Nat.iter k (λ s, s +:+ "0") "".
Proof. induction k as [|k IH]; [done|]. simpl. by rewrite IH. Qed.

(** The number of digits of a positive number. *)
Lemma pretty_N_go_digits (x : N) s :
  (0 < x)%N →
  ∃ d, String.length (pretty.pretty_N_go x s) = S d + String.length s ∧
       (10 ^ Z.of_nat d ≤ Z.of_N x < 10 ^ Z.of_nat (S d))%Z.
Proof.
  revert s. induction (N.lt_wf_0 x) as [x _ IH]. intros s Hx.
  rewrite pretty.pretty_N_go_step by done.
  destruct (decide (x `div` 10 = 0)%N) as [E|E].
  - rewrite E, pretty.pretty_N_go_0. exists 0. split; [done|].
    apply N.div_small_iff in E; [|done]. simpl. lia.
  - destruct (IH (x `div` 10)%N) with
      (s := String (pretty.pretty_N_char (x `mod` 10)) s) as (d & Hlen & Hlo & Hhi).
    { apply N.div_lt; lia. }
    { by apply N.neq_0_lt_0. }
    exists (S d). split; [rewrite Hlen; simpl; lia|].
    rewrite N2Z.inj_div in Hlo, Hhi. change (Z.of_N 10) with 10%Z in *.
    rewrite !Nat2Z.inj_succ, !Z.pow_succ_r in * by lia.
    pose proof (Z.div_mod (Z.of_N x) 10 ltac:(lia)) as Hdm.
    pose proof (Z.mod_pos_bound (Z.of_N x) 10 ltac:(lia)) as Hm.
    lia.
Qed.

Lemma pretty_Z_digits n :
  (0 < n)%Z →
  ∃ d, String.length (pretty.pretty n) = S d ∧
       (10 ^ Z.of_nat d ≤ n < 10 ^ Z.of_nat (S d))%Z.
Proof.
  intros Hn. destruct n as [|p|p]; try lia.
  unfold pretty.pretty, pretty.pretty_Z, pretty.pretty, pretty.pretty_positive,
    pretty.pretty, pretty.pretty_N.
  rewrite decide_False by done.
  destruct (pretty_N_go_digits (N.pos p) "") as (d & Hlen & Hd); [lia|].
  exists d. split; [rewrite Hlen; simpl; lia|]. done.
Qed.

Lemma zero_pad_loop_stops fuel (m : Q) n zeros :
  (m <= inject_Z n)%Q → zero_pad_loop (S fuel) m n zeros = Some zeros.
Proof.
  intros H. simpl.
  assert (E : JS.gt_num m (inject_Z n) = false) by (by apply lt_num_false).
  by rewrite E.
Qed.

(** The loop started on [10^(d+k)], for a number below [10^(d+1)] that
    is at least [10^d]: it appends [k] zeros. *)
Lemma zero_pad_loop_runs (d k fuel : nat) (m : Q) n zeros :
  (10 ^ Z.of_nat d ≤ n < 10 ^ Z.of_nat (S d))%Z →
  (m == inject_Z (10 ^ Z.of_nat (d + k)))%Q → k < fuel →
  zero_pad_loop fuel m n zeros = Some (Nat.iter k (λ s, s +:+ "0") zeros).
Proof.
  intros Hn. revert fuel m zeros.
  induction k as [|k IH]; intros fuel m zeros Hm Hf.
  - destruct fuel as [|fuel]; [lia|]. apply zero_pad_loop_stops.
    rewrite Hm, Nat.add_0_r, <- Zle_Qle. lia.
  - destruct fuel as [|fuel]; [lia|]. simpl zero_pad_loop.
    assert (E : JS.gt_num m (inject_Z n) = true).
    { apply gt_num_spec. rewrite Hm, <- Zlt_Qlt.
      eapply Z.lt_le_trans; [apply Hn|].
      apply Z.pow_le_mono_r; lia. }
    rewrite E, (IH fuel (m / 10)%Q (zeros +:+ "0")); [|..|lia].
    + by rewrite Nat.iter_succ_r.
    + rewrite Hm. replace (d + S k) with (S (d + k)) by lia.
      rewrite Nat2Z.inj_succ, Z.pow_succ_r by lia.
      rewrite inject_Z_mult. change (inject_Z 10) with 10%Q. field.
Qed.

Lemma zero_pad_loop_negative fuel (m : Q) n zeros :
  (0 < m)%Q → (n < 0)%Z → zero_pad_loop fuel m n zeros = None.
Proof.
  intros Hm Hn. revert m zeros Hm.
  induction fuel as [|fuel IH]; intros m zeros Hm; [done|]. simpl.
  assert (Hq : (inject_Z n < 0)%Q).
  { change 0%Q with (inject_Z 0). by rewrite <- Zlt_Qlt. }
  assert (E : JS.gt_num m (inject_Z n) = true) by (apply gt_num_spec; lra).
  rewrite E. apply IH. apply Qlt_shift_div_l; lra.
Qed.

End ZeroPad.

(** X20.  [zero_pad] pads with zeros on the left.  For an integer [n]
    from 0 to 2^53 - 1 and a length from 1 to 22 (the default is 2; in
    this range the powers of ten the loop computes are exact and all the
    digits of [n] are printed), the result is the digits of [n] after as
    many zeros as it takes to reach the length: it has [length]
    characters, or the digits of [n] alone when they are more. *)
Theorem zero_pad_pads (n : Z) (length : option Z) (fuel : nat) :
  let len := JS.or_default length 2 in
  (0 ≤ n ≤ 9007199254740991)%Z → (1 ≤ len ≤ 22)%Z → Z.to_nat len ≤ fuel →
  ∃ k, zero_pad fuel n length = Some (zeros_string k +:+ pretty.pretty n) ∧
       String.length (zeros_string k +:+ pretty.pretty n)
       = max (Z.to_nat len) (String.length (pretty.pretty n)).
Proof.
  intros len Hn Hlen Hfuel. unfold zero_pad. fold len. clearbody len.
  destruct (decide (n = 0%Z)) as [->|Hn0].
  - rewrite bool_decide_false by (intros H; by apply H).
    exists (Z.to_nat (len - 1)). split; [done|].
    rewrite string_length_app, zeros_string_length.
    change (String.length (pretty.pretty 0%Z)) with 1.
    rewrite Nat.max_l by lia. lia.
  - rewrite bool_decide_true by done.
    destruct (pretty_Z_digits n) as (d & Hd & Hlo & Hhi); [lia|].
    assert (Em : ((10 ^ (len - 1))%Q == inject_Z (10 ^ (len - 1)))%Q).
    { rewrite Qpower.Zpower_Qpower by lia. reflexivity. }
    destruct (decide (Z.of_nat d ≤ len - 1)%Z) as [Hle|Hgt].
    + exists (Z.to_nat (len - 1) - d).
      rewrite (zero_pad_loop_runs d (Z.to_nat (len - 1) - d)); [| |..].
      * simpl. rewrite <- zeros_string_iter. split; [done|].
        rewrite string_length_app, zeros_string_length, Hd.
        rewrite Nat.max_l by lia. lia.
      * done.
      * rewrite Em. replace (Z.of_nat (d + (Z.to_nat (len - 1) - d))) with (len - 1)%Z
          by lia. reflexivity.
      * lia.
    + exists 0. destruct fuel as [|fuel]; [lia|].
      rewrite zero_pad_loop_stops.
      * simpl. split; [done|]. rewrite Hd. rewrite Nat.max_r by lia. done.
      * rewrite Em, <- Zle_Qle. etransitivity; [|exact Hlo].
        apply Z.pow_le_mono_r; lia.
Qed.

Lemma zero_pad_pads_witness :
  ∃ k, zero_pad 4 7 (Some 4%Z) = Some (zeros_string k +:+ pretty.pretty 7%Z) ∧
       String.length (zeros_string k +:+ pretty.pretty 7%Z)
       = max (Z.to_nat (JS.or_default (Some 4%Z) 2))
             (String.length (pretty.pretty 7%Z)).
Proof.
  apply (zero_pad_pads 7 (Some 4%Z) 4).
  - lia.
  - vm_compute. split; discriminate.
  - vm_compute. lia.
Defined.

(** X21.  [zero_pad] does not return for a negative number: the loop
    runs while [m > n] with a positive [m] that is divided by 10 each
    time, so the condition holds at every test, however many the
    embedding is given. *)
Theorem zero_pad_negative (n : Z) (length : option Z) (fuel : nat) :
  (n < 0)%Z → zero_pad fuel n length = None.
Proof.
  intros Hn. unfold zero_pad. rewrite bool_decide_true by lia.
  rewrite zero_pad_loop_negative; [done| |done].
  by apply Qpower.Qpower_0_lt.
Qed.

Lemma zero_pad_negative_witness : zero_pad 1000 (-1) None = None.
Proof. apply (zero_pad_negative (-1) None 1000). lia. Defined.

Section Unique.

Context {A : Type} (unique_id : A → string).
Implicit Types (x y : A) (k : string).

Lemma list1_ids_spec (list1 : list A) k :
  k ∈ list1_ids unique_id list1 ↔ k ≠ "__proto__" ∧ k ∈ unique_id <$> list1.
Proof.
  unfold list1_ids. induction list1 as [|y list1 IH] using rev_ind.
  - simpl. rewrite elem_of_empty, elem_of_nil. tauto.
  - rewrite foldl_snoc, fmap_app, elem_of_app. simpl.
    rewrite list_elem_of_singleton. case_decide as E.
    + rewrite IH. split; [tauto|]. intros [Hk [?| ->]]; [done|]. by rewrite E in Hk.
    + rewrite elem_of_union, elem_of_singleton, IH. split.
      * intros [-> |[? ?]]; auto.
      * intros [Hk [?| ->]]; auto.
Qed.

Lemma filter_bool_decide (P : A → Prop) `{!∀ x, Decision (P x)} (list2 : list A) :
  List.filter (λ x, bool_decide (P x)) list2 = filter P list2.
Proof.
  induction list2 as [|x list2 IH]; [done|]. simpl. rewrite IH.
  destruct (decide (P x)) as [HP|HP].
  - rewrite bool_decide_true by done. by rewrite filter_cons_True.
  - rewrite bool_decide_false by done. by rewrite filter_cons_False.
Qed.

End Unique.

(** X22.  [DiaryBase.unique] keeps, in their order and as often as they
    occur, the elements of [list2] whose id is not the id of an element
    of [list1]; it takes no duplicate out of [list2] itself.  This holds
    when no element of [list1] has the id [hasOwnProperty] or
    [__proto__]. *)
Theorem unique_filters {A} (list1 list2 : list A) (unique_id : A → string) :
  Forall (λ y, unique_id y ≠ "hasOwnProperty" ∧ unique_id y ≠ "__proto__") list1 →
  unique list1 list2 unique_id
  = JS.Normal (filter (λ x, unique_id x ∉ unique_id <$> list1) list2).
Proof.
  intros H1. unfold unique.
  assert (Hids : ∀ k, k ∈ list1_ids unique_id list1 ↔ k ∈ unique_id <$> list1).
  { intros k. rewrite list1_ids_spec. split; [tauto|]. intros Hk. split; [|done].
    apply list_elem_of_fmap in Hk as (y & -> & Hy).
    rewrite Forall_forall in H1. apply H1. by apply list_elem_of_In. }
  destruct list2 as [|x list2]; [done|].
  rewrite decide_False.
  - f_equal. rewrite (filter_bool_decide (λ x, unique_id x ∉ list1_ids unique_id list1)).
    apply list_filter_iff. intros y. by rewrite Hids.
  - rewrite Hids. intros Hk. apply list_elem_of_fmap in Hk as (y & Ey & Hy).
    rewrite Forall_forall in H1. apply list_elem_of_In, H1 in Hy. by destruct Hy.
Qed.

Lemma unique_filters_witness :
  unique ["a"; "b"] ["b"; "c"] (λ l, l) = JS.Normal ["c"].
Proof.
  etransitivity.
  - apply (unique_filters ["a"; "b"] ["b"; "c"] (λ l, l)).
    repeat constructor; discriminate.
  - vm_compute. reflexivity.
Defined.

(** X23.  Two ids [DiaryBase.unique] cannot handle.  When an element of
    [list1] has the id [hasOwnProperty] and [list2] is not empty, the
    call throws (the name is looked up on the object of ids, where it
    now holds 1).  And an element of [list2] with the id [__proto__] is
    never removed, whatever [list1] holds (assigning 1 to that name
    creates no property). *)
Theorem unique_special_ids {A} (list1 list2 : list A) (unique_id : A → string) :
  ((∃ y, y ∈ list1 ∧ unique_id y = "hasOwnProperty") → list2 ≠ [] →
   unique list1 list2 unique_id = JS.Throw) ∧
  (∀ result x, unique list1 list2 unique_id = JS.Normal result →
     x ∈ list2 → unique_id x = "__proto__" → x ∈ result).
Proof.
  unfold unique. split.
  - intros (y & Hy & Ey) H2. destruct list2 as [|x list2]; [done|].
    rewrite decide_True; [done|]. apply list1_ids_spec. split; [done|].
    apply list_elem_of_fmap. by exists y.
  - intros result x Hr Hx Ex. destruct list2 as [|x0 list2]; [by apply elem_of_nil in Hx|].
    case_decide; [done|].
    assert (Er : List.filter
                   (λ l, bool_decide (unique_id l ∉ list1_ids unique_id list1))
                   (x0 :: list2) = result) by congruence.
    rewrite <- Er. apply list_elem_of_In, filter_In. split; [by apply list_elem_of_In|].
    apply bool_decide_eq_true. rewrite list1_ids_spec, Ex. tauto.
Qed.

Lemma unique_special_ids_witness :
  unique ["hasOwnProperty"] ["x"] (λ l, l) = JS.Throw.
Proof.
  apply (proj1 (unique_special_ids ["hasOwnProperty"] ["x"] (λ l, l))); [|done].
  exists "hasOwnProperty". split; [by left|done].
Defined.

(** ** The order of the input *)

Section SortedUnique.

Context {A : Type} (key : A → Z).

(** Two lists in ascending order of a key that tells their elements
    apart are equal when they hold the same elements. *)
Lemma sorted_unique (l l' : list A) :
  (∀ a b, a ∈ l → b ∈ l → key a = key b → a = b) →
  StronglySorted (λ a b, key a ≤ key b)%Z l →
  StronglySorted (λ a b, key a ≤ key b)%Z l' →
  l ≡ₚ l' → l = l'.
Proof.
  revert l'. induction l as [|x t IH]; intros l' Hinj Hl Hl' Hp.
  - symmetry. by apply Permutation_nil.
  - destruct l' as [|y t']; [symmetry in Hp; by apply Permutation_nil_cons in Hp|].
    apply StronglySorted_inv in Hl as [Ht Hx].
    apply StronglySorted_inv in Hl' as [Ht' Hy].
    rewrite Forall_forall in Hx, Hy.
    assert (Hxin : x ∈ y :: t') by (rewrite <- Hp; by left).
    assert (Hyin : y ∈ x :: t) by (rewrite Hp; by left).
    assert (Exy : x = y).
    { apply elem_of_cons in Hxin as [?|Hxin]; [done|].
      apply elem_of_cons in Hyin as [?|Hyin]; [done|].
      apply Hinj; [by left|by right|].
      apply list_elem_of_In, Hy in Hxin. apply list_elem_of_In, Hx in Hyin. lia. }
    subst y. f_equal. apply IH; [|done|done|].
    + intros a b Ha Hb. apply Hinj; by right.
    + by apply Permutation_cons_inv in Hp.
Qed.

End SortedUnique.

Section InputOrder.

Implicit Types (r : DiaryStandardRecord) (l : list DiaryStandardRecord).

Lemma sorted_records_by_start l :
  Forall (λ r, is_Some (start r)) l →
  StronglySorted (λ a b, default 0 (start a) ≤ default 0 (start b))%Z
    (sorted_records l).
Proof.
  intros Hl.
  apply (sort_by_key start_end_after (λ r, default 0%Z (start r))
           (λ r, is_Some (start r))); [| |done].
  - intros a b [x Ex] [y Ey] E. rewrite Ex, Ey. simpl.
    by apply (start_end_after_starts a b x y).
  - intros a b [x Ex] [y Ey] E. rewrite Ex, Ey. simpl.
    by apply (start_end_after_starts a b x y).
Qed.

Lemma NoDup_fmap_inj_on {B} (f : DiaryStandardRecord → B) l a b :
  NoDup (f <$> l) → a ∈ l → b ∈ l → f a = f b → a = b.
Proof.
  induction l as [|x l IH]; [by intros _ ?%elem_of_nil|].
  rewrite fmap_cons, list.NoDup_cons. intros [Hx Hl] Ha Hb E.
  apply elem_of_cons in Ha as [->|Ha], Hb as [->|Hb]; [done| | |by apply IH].
  - destruct Hx. rewrite E. by apply list_elem_of_fmap_2.
  - destruct Hx. rewrite <- E. by apply list_elem_of_fmap_2.
Qed.

End InputOrder.

(** X24.  The order of the input does not matter when the start times
    tell the records apart: two inputs with the same records, each with
    a start time and no two with the same, give the same diary. *)
Theorem constructor_input_order (contents_records contents_records' : list DiaryStandardRecord)
    (contents_settings : FileSettings) :
  contents_records ≡ₚ contents_records' →
  Forall (λ r, is_Some (start r)) contents_records →
  NoDup (start <$> contents_records) →
  new_DiaryStandard contents_records contents_settings
  = new_DiaryStandard contents_records' contents_settings.
Proof.
  intros Hp Hs Hnd.
  assert (E : sorted_records contents_records = sorted_records contents_records').
  { apply (sorted_unique (λ r, default 0%Z (start r))).
    - intros a b Ha Hb Hk.
      assert (Ha' : a ∈ contents_records)
        by (unfold sorted_records in Ha; by rewrite sort_Permutation in Ha).
      assert (Hb' : b ∈ contents_records)
        by (unfold sorted_records in Hb; by rewrite sort_Permutation in Hb).
      apply (NoDup_fmap_inj_on start contents_records); [done|done|done|].
      rewrite Forall_forall in Hs.
      destruct (Hs a) as [x Ex]; [by apply list_elem_of_In|].
      destruct (Hs b) as [y Ey]; [by apply list_elem_of_In|].
      rewrite Ex, Ey in *. simpl in Hk. by subst.
    - by apply sorted_records_by_start.
    - apply sorted_records_by_start. by rewrite <- Hp.
    - unfold sorted_records. by rewrite !sort_Permutation. }
  unfold new_DiaryStandard. by rewrite E.
Qed.

Lemma constructor_input_order_witness :
  new_DiaryStandard [nap; night] no_settings
  = new_DiaryStandard [night; nap] no_settings.
Proof.
  apply (constructor_input_order [nap; night] [night; nap] no_settings).
  - apply perm_swap.
  - repeat constructor; by eexists.
  - apply (bool_decide_unpack _). vm_compute. exact I.
Defined.

(** ** The order of the values *)

Section SortQeq.

Implicit Types (x y z : Q) (l k : list Q).

Lemma a_minus_b_after_comp x x' y y' :
  (x == x')%Q → (y == y')%Q → a_minus_b_after x y = a_minus_b_after x' y'.
Proof.
  intros Hx Hy. destruct (a_minus_b_after x' y') eqn:E.
  - apply a_minus_b_after_true. apply a_minus_b_after_true in E. lra.
  - apply a_minus_b_after_false. apply a_minus_b_after_false in E. lra.
Qed.

Lemma sort_insert_Qeq x x' l l' :
  (x == x')%Q → Forall2 Qeq l l' →
  Forall2 Qeq (JS.sort_insert a_minus_b_after x l)
              (JS.sort_insert a_minus_b_after x' l').
Proof.
  intros Hx H. induction H as [|y y' l l' Hy Hl IH]; simpl.
  - by repeat constructor.
  - rewrite (a_minus_b_after_comp x x' y y' Hx Hy).
    destruct (a_minus_b_after x' y'); repeat constructor; done.
Qed.

Lemma Forall2_Qeq_refl l : Forall2 Qeq l l.
Proof. induction l; constructor; [reflexivity|done]. Qed.

Lemma Forall2_Qeq_trans l k m :
  Forall2 Qeq l k → Forall2 Qeq k m → Forall2 Qeq l m.
Proof.
  intros H. revert m. induction H as [|x y l k Hxy _ IH]; intros m Hm.
  - by inversion Hm.
  - inversion Hm as [|y' z k' m' Hyz Hkm]; subst. constructor.
    + by rewrite Hxy.
    + by apply IH.
Qed.

(** The order in which two values are inserted only matters for values
    that are equal. *)
Lemma sort_insert_swap x y l :
  Forall2 Qeq (JS.sort_insert a_minus_b_after x (JS.sort_insert a_minus_b_after y l))
              (JS.sort_insert a_minus_b_after y (JS.sort_insert a_minus_b_after x l)).
Proof.
  induction l as [|z l IH]; simpl.
  - destruct (a_minus_b_after x y) eqn:Exy, (a_minus_b_after y x) eqn:Eyx; simpl;
      rewrite ?Exy, ?Eyx; try apply Forall2_Qeq_refl.
    + apply a_minus_b_after_true in Exy, Eyx. lra.
    + apply a_minus_b_after_false in Exy, Eyx.
      repeat constructor; lra.
  - destruct (a_minus_b_after y z) eqn:Eyz, (a_minus_b_after x z) eqn:Exz; simpl;
      rewrite ?Eyz, ?Exz.
    + constructor; [reflexivity|done].
    + destruct (a_minus_b_after y x) eqn:Eyx; simpl; rewrite ?Eyz.
      * apply Forall2_Qeq_refl.
      * apply a_minus_b_after_true in Eyz.
        apply a_minus_b_after_false in Exz, Eyx. lra.
    + destruct (a_minus_b_after x y) eqn:Exy; simpl; rewrite ?Exz.
      * apply Forall2_Qeq_refl.
      * apply a_minus_b_after_true in Exz.
        apply a_minus_b_after_false in Eyz, Exy. lra.
    + destruct (a_minus_b_after x y) eqn:Exy, (a_minus_b_after y x) eqn:Eyx; simpl;
        rewrite ?Exz, ?Eyz; try apply Forall2_Qeq_refl.
      * apply a_minus_b_after_true in Exy, Eyx. lra.
      * apply a_minus_b_after_false in Exy, Eyx.
        constructor; [lra|]. constructor; [lra|]. apply Forall2_Qeq_refl.
Qed.

Lemma sort_Permutation_Qeq l k :
  l ≡ₚ k →
  Forall2 Qeq (JS.sort a_minus_b_after l) (JS.sort a_minus_b_after k).
Proof.
  induction 1 as [|x l k _ IH|x y l|l k m _ IH1 _ IH2]; simpl.
  - constructor.
  - by apply sort_insert_Qeq.
  - apply sort_insert_swap.
  - by apply (Forall2_Qeq_trans _ _ _ IH1).
Qed.

Lemma Qsum_Forall2 l k : Forall2 Qeq l k → (Qsum l == Qsum k)%Q.
Proof. induction 1 as [|x y l k Hxy _ IH]; simpl; [reflexivity|]. by rewrite Hxy, IH. Qed.

Lemma nth_Forall2 l k i : Forall2 Qeq l k → (nth i l 0 == nth i k 0)%Q.
Proof.
  intros H. revert i. induction H as [|x y l k Hxy _ IH]; intros [|i]; simpl;
    try reflexivity; [done|apply IH].
Qed.

Lemma slice_Forall2 (from to : Z) l k :
  Forall2 Qeq l k → Forall2 Qeq (JS.slice from to l) (JS.slice from to k).
Proof. intros H. unfold JS.slice. by apply Forall2_take, Forall2_drop. Qed.

Lemma arithmetic_mean_Forall2 l k :
  Forall2 Qeq l k → (arithmetic_mean l == arithmetic_mean k)%Q.
Proof.
  intros H. unfold arithmetic_mean.
  by rewrite (Qsum_Forall2 _ _ H), (Forall2_length H).
Qed.

Lemma sum_of_squares_Forall2 (m m' : Q) l k :
  (m == m')%Q → Forall2 Qeq l k → (sum_of_squares m l == sum_of_squares m' k)%Q.
Proof.
  intros Hm H. rewrite !sum_of_squares_Qsum. apply Qsum_Forall2.
  induction H as [|x y l k Hxy _ IH]; simpl; constructor; [|done].
  by rewrite Hxy, Hm.
Qed.

End SortQeq.

(** X25.  The summary numbers depend on the defined values only: two
    arrays that hold the same defined values, in whatever order, with
    whatever holes, timestamps and circular period, give equal [mean],
    [median], [interquartile_mean], [interquartile_range] and standard
    deviation. *)
Theorem summarise_order_independent (arr arr' : list (option entry))
    (rolling_average_max rolling_average_max' : option Z)
    (s : DiaryStandardStatistics) :
  defined_values arr ≡ₚ defined_values arr' →
  summarise arr rolling_average_max = JS.Normal (Some s) →
  ∃ s', summarise arr' rolling_average_max' = JS.Normal (Some s') ∧
        (mean s == mean s')%Q ∧ (median s == median s')%Q ∧
        (interquartile_mean s == interquartile_mean s')%Q ∧
        (interquartile_range s == interquartile_range s')%Q ∧
        (standard_deviation_squared s == standard_deviation_squared s')%Q.
Proof.
  intros Hp Hs. destruct (decide (defined_values arr = [])) as [E|E].
  { unfold summarise in Hs. rewrite E in Hs. simpl in Hs. done. }
  assert (E' : defined_values arr' ≠ []).
  { intros E0. rewrite E0 in Hp. by apply Permutation_nil_r in Hp. }
  destruct (summarise_defined arr rolling_average_max E)
    as (s0 & Hs0 & Hmean & _ & Hiqm & Hmed & Hiqr & _ & _ & Hsd).
  rewrite Hs in Hs0. injection Hs0 as <-.
  destruct (summarise_defined arr' rolling_average_max' E')
    as (s' & Hs' & Hmean' & _ & Hiqm' & Hmed' & Hiqr' & _ & _ & Hsd').
  exists s'. split; [done|].
  pose proof (sort_Permutation_Qeq _ _ Hp) as Hsorted.
  set (sorted := JS.sort a_minus_b_after (defined_values arr)) in *.
  set (sorted' := JS.sort a_minus_b_after (defined_values arr')) in *.
  assert (Hlen : length sorted = length sorted') by (by apply Forall2_length in Hsorted).
  rewrite <- Hlen in *.
  assert (Em : (mean s == mean s')%Q).
  { rewrite Hmean, Hmean'. by rewrite (Qsum_Forall2 _ _ Hsorted). }
  split; [done|]. split; [|split; [|split]].
  - rewrite Hmed, Hmed'. by apply nth_Forall2.
  - rewrite Hiqm, Hiqm'. by apply arithmetic_mean_Forall2, slice_Forall2.
  - rewrite Hiqr, Hiqr'.
    pose proof (slice_Forall2
      (JS.Math_round (inject_Z (Z.of_nat (length sorted)) * (1 # 4)))
      (JS.Math_round (inject_Z (Z.of_nat (length sorted)) * (3 # 4)))
      _ _ Hsorted) as Hq.
    rewrite (Forall2_length Hq).
    by rewrite (nth_Forall2 _ _ _ Hq), (nth_Forall2 _ _ 0 Hq).
  - rewrite Hsd, Hsd'. by rewrite (sum_of_squares_Forall2 _ _ _ _ Em Hsorted).
Qed.

Lemma summarise_order_independent_witness :
  ∃ s', summarise sparse_example None = JS.Normal (Some s') ∧
        (mean (returned_statistics (summarise sparse_example (Some 4%Z))) == mean s')%Q ∧
        (median (returned_statistics (summarise sparse_example (Some 4%Z))) == median s')%Q ∧
        (interquartile_mean (returned_statistics (summarise sparse_example (Some 4%Z)))
         == interquartile_mean s')%Q ∧
        (interquartile_range (returned_statistics (summarise sparse_example (Some 4%Z)))
         == interquartile_range s')%Q ∧
        (standard_deviation_squared
           (returned_statistics (summarise sparse_example (Some 4%Z)))
         == standard_deviation_squared s')%Q.
Proof.
  apply (summarise_order_independent sparse_example sparse_example (Some 4%Z) None).
  - reflexivity.
  - vm_compute. reflexivity.
Defined.

(** X26.  [merge] loses no status, start and end and makes none up: a
    triple of status, start and end is that of a record of the merged
    diary exactly when it is that of a record of one of the two
    diaries. *)
Theorem merge_covers (this other : DiaryStandard)
    (t : string * option Z * option Z) :
  t ∈ timing <$> records (merge this other) ↔
  t ∈ timing <$> records this ∨ t ∈ timing <$> records other.
Proof.
  rewrite <- elem_of_app, <- fmap_app. unfold merge. cbn [records].
  rewrite (fmap_Permutation timing _ _ (sort_Permutation start_end_after _)).
  set (l := records this ++ records other).
  rewrite !list_elem_of_fmap. split.
  - intros (r & -> & Hr). exists r. split; [done|].
    unfold object_values in Hr. apply list_elem_of_fmap in Hr as ([k r'] & -> & Hp).
    apply merge_records_lookup in Hp as (i & Hi & _). simpl.
    by apply list_elem_of_lookup_2 in Hi.
  - intros (r & -> & Hr). apply merge_records_has_key in Hr.
    rewrite <- merge_records_values_keys in Hr.
    apply list_elem_of_fmap in Hr as (r' & Hk & Hr').
    exists r'. split; [|done]. by apply merge_key_timing.
Qed.

Section RollingRange.

Local Open Scope Q_scope.

Lemma omap_value_at_defined arr f c x :
  x ∈ omap (value_at arr) (seq f c) → x ∈ defined_values arr.
Proof.
  intros Hx. apply list_elem_of_omap in Hx as (j & _ & Hj).
  unfold value_at in Hj. destruct (arr !! j) as [e|] eqn:E; [|done].
  simpl in Hj. unfold defined_values. apply list_elem_of_omap.
  exists e. split; [by apply list_elem_of_lookup_2 in E|].
  by destruct e.
Qed.

End RollingRange.

(** X27.  Without a circular period, a rolling average lies within the
    range of the data: when every defined value is between [lo] and
    [hi], so is every defined element of [rolling_average]. *)
Theorem rolling_average_within_range (arr : list (option entry))
    (s : DiaryStandardStatistics) (lo hi : Q) (i : nat) (v : Q) :
  summarise arr None = JS.Normal (Some s) →
  Forall (λ x, lo <= x ∧ x <= hi)%Q (defined_values arr) →
  rolling_average s !! i = Some (Some v) →
  (lo <= v ∧ v <= hi)%Q.
Proof.
  intros Hs Hrange Hv.
  rewrite (summarise_rolling_average _ _ _ Hs) in Hv.
  assert (Hr : read (map_index (rolling_average_callback None arr) arr) i = Some v).
  { unfold read. by rewrite Hv. }
  rewrite map_index_lookup in Hr.
  destruct (arr !! i) as [[e|]|]; [|done..].
  unfold rolling_average_callback in Hr.
  unfold rolling_average_plain in Hr. rewrite rolling_window_values in Hr.
  destruct (window_values arr i) as [|x w] eqn:E; [done|].
  case_decide; [|done]. injection Hr as <-.
  rewrite reduce_a_plus_b_sum.
  apply (arithmetic_mean_between (x :: w)); [done|].
  rewrite <- E. unfold window_values.
  apply Forall_forall. intros y Hy. apply list_elem_of_In in Hy.
  apply omap_value_at_defined in Hy.
  rewrite Forall_forall in Hrange. apply Hrange. by apply list_elem_of_In.
Qed.

Lemma rolling_average_within_range_witness :
  (2 <= default 0 (read (rolling_average
                           (returned_statistics (summarise dense_example None))) 14) ∧
   default 0 (read (rolling_average
                      (returned_statistics (summarise dense_example None))) 14) <= 2)%Q.
Proof.
  apply (rolling_average_within_range dense_example
           (returned_statistics (summarise dense_example None)) 2 2 14).
  - vm_compute. reflexivity.
  - vm_compute. repeat constructor; discriminate.
  - vm_compute. reflexivity.
Defined.
